(** * vehiql_ai: the server actions of [actions/cars.js]

    A shallow embedding of the car-listing server actions (image ingestion,
    AI metadata extraction, car repository operations) together with the
    properties stated about them.

    Conventions of the embedding:
    - a JavaScript string is the list of its UTF-16 code units ([jsstring]);
    - every server action is a computation in the monad [M]: it threads the
      [world] (database tables, storage bucket, trace of external calls) and
      ends either by returning a value or by throwing an [Error];
    - everything the actions obtain from outside (identity provider, clock,
      uuid generator, storage client, AI provider, admission check) is read
      from an [env] record, so that properties quantify over every behaviour
      of those collaborators. *)

From Stdlib Require Import List NArith ZArith Lia Bool Arith.
From Stdlib Require String Ascii DecimalString.
From Stdlib Require Import Sorting.Sorted Sorting.Permutation.
From Stdlib Require DecimalN DecimalPos.
From Equations Require Import Equations.
Import ListNotations.
Import String.StringSyntax.
Delimit Scope string_scope with string.

Set Default Goal Selector "!".
Set Warnings "-register-all".

(* ===================================================================== *)
(** * JavaScript strings *)
(* ===================================================================== *)

(** A string is a sequence of 16-bit code units. *)
Definition jsstring := list N.

(** The code units of an ASCII literal. *)
Definition js (s : String.string) : jsstring :=
  map Ascii.N_of_ascii (String.list_ascii_of_string s).

Arguments js s%_string.

Declare Scope js_scope.
Delimit Scope js_scope with js.
Bind Scope js_scope with jsstring.
Notation "a +++ b" := (@app N a b) (at level 60, right associativity) : js_scope.
Open Scope js_scope.
Open Scope N_scope.

Fixpoint str_eqb (a b : jsstring) : bool :=
  match a, b with
  | [], [] => true
  | x :: a', y :: b' => (x =? y) && str_eqb a' b'
  | _, _ => false
  end.

(** [drop_prefix p s] is the rest of [s] after its prefix [p], when [s]
    starts with [p]. *)
Fixpoint drop_prefix (p s : jsstring) : option jsstring :=
  match p, s with
  | [], _ => Some s
  | a :: p', b :: s' => if a =? b then drop_prefix p' s' else None
  | _ :: _, [] => None
  end.

(** [s.startsWith(p)] *)
Definition startsWith (s p : jsstring) : bool :=
  match drop_prefix p s with Some _ => true | None => false end.

(** [s.includes(p)] *)
Fixpoint includes (s p : jsstring) : bool :=
  startsWith s p ||
  match s with
  | [] => false
  | _ :: s' => includes s' p
  end.

(** [s.split(sep)] for a one-unit separator: never empty. *)
Fixpoint split (sep : N) (s : jsstring) : list jsstring :=
  match s with
  | [] => [[]]
  | c :: s' =>
      if c =? sep then [] :: split sep s'
      else match split sep s' with
           | [] => [[c]]
           | w :: ws => (c :: w) :: ws
           end
  end.

(** [parts.join(sep)] *)
Fixpoint join (sep : jsstring) (parts : list jsstring) : jsstring :=
  match parts with
  | [] => []
  | [p] => p
  | p :: ps => p +++ sep +++ join sep ps
  end.

(** Decimal rendering of a non-negative integer, as template literals and
    string concatenation produce it. *)
Definition decimal (n : N) : jsstring :=
  js (DecimalString.NilZero.string_of_uint (N.to_uint n)).

(** ECMAScript [WhiteSpace] and [LineTerminator] code points: what
    [String.prototype.trim] removes. *)
Definition is_line_terminator (c : N) : bool :=
  (c =? 10) || (c =? 13) || (c =? 8232) || (c =? 8233).

Definition is_white_space (c : N) : bool :=
  (c =? 9) || (c =? 11) || (c =? 12) || (c =? 32) || (c =? 160)
  || (c =? 5760) || ((8192 <=? c) && (c <=? 8202))
  || (c =? 8239) || (c =? 8287) || (c =? 12288) || (c =? 65279)
  || is_line_terminator c.

Fixpoint trimStart (s : jsstring) : jsstring :=
  match s with
  | [] => []
  | c :: s' => if is_white_space c then trimStart s' else s
  end.

Definition trimEnd (s : jsstring) : jsstring := rev (trimStart (rev s)).

(** [s.trim()] *)
Definition trim (s : jsstring) : jsstring := trimEnd (trimStart s).

(** [[a-zA-Z0-9]] *)
Definition is_alnum (c : N) : bool :=
  ((48 <=? c) && (c <=? 57)) || ((65 <=? c) && (c <=? 90))
  || ((97 <=? c) && (c <=? 122)).

(** The longest prefix of [s] whose units satisfy [f], and the rest. *)
Fixpoint span (f : N -> bool) (s : jsstring) : jsstring * jsstring :=
  match s with
  | [] => ([], [])
  | c :: s' =>
      if f c then let (a, b) := span f s' in (c :: a, b) else ([], s)
  end.

(* ===================================================================== *)
(** * Fence stripping: [text.replace(/```(?:json)?\n?/g, "").trim()] *)
(* ===================================================================== *)

Definition fence : jsstring := js "```".

(** A greedy optional group [(?:p)?] at the start of [s]: what is left of
    [s] after it. Nothing follows the optional groups in the pattern, so the
    greedy choice is never undone. *)
Definition optional (p s : jsstring) : jsstring :=
  match drop_prefix p s with Some r => r | None => s end.

(** One match of [/```(?:json)?\n?/] at the start of [s]: the rest of [s]
    after the match. *)
Definition fence_match (s : jsstring) : option jsstring :=
  match drop_prefix fence s with
  | Some r => Some (optional [10] (optional (js "json") r))
  | None => None
  end.

Lemma drop_prefix_length p :
  forall s r, drop_prefix p s = Some r ->
              (length r + length p = length s)%nat.
Proof.
  induction p as [|a p IH]; intros [|b s] r H; simpl in *; try congruence.
  - inversion H; subst; simpl; lia.
  - inversion H; subst; simpl; lia.
  - destruct (a =? b); try discriminate. apply IH in H. lia.
Qed.

Lemma optional_length p s : (length (optional p s) <= length s)%nat.
Proof.
  unfold optional.
  destruct (drop_prefix p s) eqn:E; [apply drop_prefix_length in E|]; lia.
Qed.

Lemma fence_match_shorter s r :
  fence_match s = Some r -> (length r < length s)%nat.
Proof.
  unfold fence_match.
  destruct (drop_prefix fence s) as [j|] eqn:E; [|discriminate].
  intros H; inversion H; subst. apply drop_prefix_length in E. simpl in E.
  pose proof (optional_length [10] (optional (js "json") j)).
  pose proof (optional_length (js "json") j). lia.
Qed.

Definition inspect {A} (a : A) : {b | a = b} := exist _ a eq_refl.

(** The global replacement by the empty string: the scan goes left to right;
    where the pattern matches, the match is dropped and the scan resumes
    after it; elsewhere the code unit is kept. *)
Equations? replace_fences (s : jsstring) : jsstring by wf (length s) lt :=
replace_fences s with inspect (fence_match s) := {
  | exist _ (Some r) _ => replace_fences r
  | exist _ None _ with s := {
     | [] => []
     | c :: s' => c :: replace_fences s' } }.
Proof.
  apply fence_match_shorter; assumption.
Qed.

(** [cleanedText] of both extractors. *)
Definition strip_fences (text : jsstring) : jsstring :=
  trim (replace_fences text).


(* ===================================================================== *)
(** * Values exchanged with the platform *)
(* ===================================================================== *)

(** What [JSON.parse] produces. Numbers are kept as rationals: the actions
    never compute with them. *)
Inductive json : Type :=
| JNull
| JBool (b : bool)
| JNumber (num den : Z)
| JString (s : jsstring)
| JArray (items : list json)
| JObject (members : list (jsstring * json)).

(** The constructors of the exceptions that occur in the actions. *)
Inductive error_name := Error_ | TypeError | ReferenceError | SyntaxError.

(** An exception object: the actions only ever read [error.message]. *)
Record Error := mkError { name : error_name; message : jsstring }.

(** [new Error(message)] *)
Definition new_Error (msg : jsstring) : Error := mkError Error_ msg.

(** [new Error(message, options)]: the second parameter is the options bag,
    of which only an object's [cause] is read; a string given there is
    ignored and is not part of the message. *)
Definition new_Error_with_options (msg : jsstring) (options : jsstring) : Error :=
  mkError Error_ msg.

(** How a call ends. *)
Inductive completion (A : Type) : Type :=
| Return (a : A)
| Throw (e : Error).

Arguments Return {A} a.
Arguments Throw {A} e.

(** The tagged result [{success, data?, error?}] of the actions. *)
Inductive result (A : Type) : Type :=
| Success (data : A)
| Failure (error : jsstring).

Arguments Success {A} data.
Arguments Failure {A} error.

(** A [Buffer], by the way it was made. The bytes decoded from a base64
    payload only travel to the storage client, so they stay symbolic. *)
Inductive Buffer :=
| Buffer_from_base64 (payload : jsstring)
| Buffer_from_bytes (bytes : list N).

(** The uploaded [File]: its content and its declared MIME type. *)
Record File := { arrayBuffer : list N; type : jsstring }.

(** The two fixed prompt templates. *)
Inductive prompt := FullListingPrompt | SearchHintPrompt.

Record inlineData := { data : jsstring; mimeType : jsstring }.

(** The decision of the admission check ([aj.protect]). *)
Inductive reason :=
| RateLimit (remaining reset : N)
| OtherReason.

Inductive decision :=
| Allowed
| Denied (r : reason).

(** Truthiness of a value that is a string, [null] or [undefined]. *)
Definition truthy (v : option jsstring) : bool :=
  match v with
  | Some (_ :: _) => true
  | _ => false
  end.

(** A string-or-undefined value inside a template literal. *)
Definition template (v : option jsstring) : jsstring :=
  match v with
  | Some s => s
  | None => js "undefined"
  end.

(* ===================================================================== *)
(** * The relational store *)
(* ===================================================================== *)

Module CarData.
(** The [carData] argument of [addCar]. *)
Record t := {
  make : jsstring; model : jsstring; year : Z; price : Z; mileage : Z;
  color : jsstring; fuelType : jsstring; transmission : jsstring;
  bodyType : jsstring; seats : Z; description : jsstring;
  status : jsstring; featured : bool }.
End CarData.

Module Car.
(** A row of the [Car] table. *)
Record t := {
  id : jsstring;
  make : jsstring; model : jsstring; year : Z; price : Z; mileage : Z;
  color : jsstring; fuelType : jsstring; transmission : jsstring;
  bodyType : jsstring; seats : Z; description : jsstring;
  status : jsstring; featured : bool;
  images : list jsstring;
  createdAt : N }.

Definition set_status (s : jsstring) (c : t) : t :=
  {| id := id c; make := make c; model := model c; year := year c;
     price := price c; mileage := mileage c; color := color c;
     fuelType := fuelType c; transmission := transmission c;
     bodyType := bodyType c; seats := seats c; description := description c;
     status := s; featured := featured c; images := images c;
     createdAt := createdAt c |}.

Definition set_featured (b : bool) (c : t) : t :=
  {| id := id c; make := make c; model := model c; year := year c;
     price := price c; mileage := mileage c; color := color c;
     fuelType := fuelType c; transmission := transmission c;
     bodyType := bodyType c; seats := seats c; description := description c;
     status := status c; featured := b; images := images c;
     createdAt := createdAt c |}.
End Car.

(** The [data] of [db.car.update]: absent fields are left as they are. *)
Record updateData := { upd_status : option jsstring; upd_featured : option bool }.

(** The [data] of [db.car.create]: the row without its creation time. *)
Record createData := {
  new_id : jsstring; new_fields : CarData.t; new_images : list jsstring }.

(** Messages written to the console. *)
Inductive logged :=
| LogString (s : jsstring)
| LogError (e : Error)
| LogObject (o : json).

Inductive level := console_log_ | console_warn_ | console_error_.

(** Calls that leave the action: one event per call, in order. *)
Inductive event :=
| EvAuth
| EvUserFindUnique (clerkUserId : jsstring)
| EvCarFindUnique (id : jsstring)
| EvCarFindMany
| EvCarCreate (d : createData)
| EvCarUpdate (id : jsstring) (d : updateData)
| EvCarDelete (id : jsstring)
| EvCreateClient
| EvStorageUpload (filePath : jsstring) (body : Buffer) (contentType : jsstring)
| EvStorageRemove (filePaths : list jsstring)
| EvProtect
| EvGenerateContent (image : inlineData) (p : prompt)
| EvRevalidatePath (path : jsstring)
| EvConsole (l : level) (args : list logged).

(** The mutable world: the two tables, the [car-images] bucket and the
    trace of calls made so far. *)
Record world := {
  users : list jsstring;              (* User rows, by [clerkUserId] *)
  cars : list Car.t;
  bucket : list (jsstring * Buffer);
  trace : list event }.

(** The platform and the external collaborators, as the actions see them. *)
Record env := {
  auth_userId : option jsstring;                 (* [(await auth()).userId] *)
  GEMINI_API_KEY : option jsstring;              (* [process.env] *)
  NEXT_PUBLIC_SUPABASE_URL : option jsstring;
  uuidv4 : jsstring;
  Date_now : nat -> N;                           (* the clock during iteration [i] *)
  db_now : N;                                    (* the store's [now()] default *)
  createClient : completion unit;
  storage_upload : jsstring -> Buffer -> jsstring -> completion (option jsstring);
  storage_remove : list jsstring -> completion (option jsstring);
  URL_pathname : jsstring -> completion jsstring; (* [new URL(u).pathname] *)
  JSON_parse : jsstring -> completion json;
  aj_protect : decision;
  generateContent : inlineData -> prompt -> completion jsstring }.

(* ===================================================================== *)
(** * The monad of server actions *)
(* ===================================================================== *)

Definition M (A : Type) : Type := world -> completion A * world.

Definition ret {A} (a : A) : M A := fun w => (Return a, w).

Definition throw {A} (e : Error) : M A := fun w => (Throw e, w).

Definition bind {A B} (m : M A) (k : A -> M B) : M B :=
  fun w =>
    match m w with
    | (Return a, w') => k a w'
    | (Throw e, w') => (Throw e, w')
    end.

(** [try { m } catch (e) { handler e }] *)
Definition try_catch {A} (m : M A) (handler : Error -> M A) : M A :=
  fun w =>
    match m w with
    | (Return a, w') => (Return a, w')
    | (Throw e, w') => handler e w'
    end.

(** The completion of a platform call, lifted. *)
Definition lift {A} (c : completion A) : M A := fun w => (c, w).

Declare Scope action_scope.
Delimit Scope action_scope with action.
Bind Scope action_scope with M.
Notation "x <- c1 ;; c2" := (bind c1 (fun x => c2))
  (at level 61, c1 at next level, right associativity) : action_scope.
Notation "c1 ;; c2" := (bind c1 (fun _ => c2))
  (at level 61, right associativity) : action_scope.
Open Scope action_scope.

(** The world after the calls [evs] have been recorded. *)
Definition log (evs : list event) (w : world) : world :=
  {| users := users w; cars := cars w; bucket := bucket w;
     trace := trace w ++ evs |}.

Arguments log evs w : simpl never.

Definition emit (ev : event) : M unit := fun w => (Return tt, log [ev] w).

Definition console (l : level) (args : list logged) : M unit :=
  emit (EvConsole l args).

Definition revalidatePath (path : jsstring) : M unit :=
  emit (EvRevalidatePath path).

(* ===================================================================== *)
(** * Calls to the collaborators *)
(* ===================================================================== *)

(** [await auth()] *)
Definition auth (E : env) : M (option jsstring) :=
  emit EvAuth ;; ret (auth_userId E).

(** [db.user.findUnique({ where: { clerkUserId } })] *)
Definition db_user_findUnique (clerkUserId : jsstring) : M (option jsstring) :=
  emit (EvUserFindUnique clerkUserId) ;;
  fun w => (Return (find (str_eqb clerkUserId) (users w)), w).

Definition has_id (id : jsstring) (c : Car.t) : bool := str_eqb (Car.id c) id.

(** [db.car.findUnique({ where: { id } })] *)
Definition db_car_findUnique (id : jsstring) : M (option Car.t) :=
  emit (EvCarFindUnique id) ;;
  fun w => (Return (find (has_id id) (cars w)), w).

Definition set_cars (cs : list Car.t) (w : world) : world :=
  {| users := users w; cars := cs; bucket := bucket w; trace := trace w |}.

Definition set_bucket (b : list (jsstring * Buffer)) (w : world) : world :=
  {| users := users w; cars := cars w; bucket := b; trace := trace w |}.

Definition new_row (E : env) (d : createData) : Car.t :=
  let f := new_fields d in
  {| Car.id := new_id d;
     Car.make := CarData.make f; Car.model := CarData.model f;
     Car.year := CarData.year f; Car.price := CarData.price f;
     Car.mileage := CarData.mileage f; Car.color := CarData.color f;
     Car.fuelType := CarData.fuelType f;
     Car.transmission := CarData.transmission f;
     Car.bodyType := CarData.bodyType f; Car.seats := CarData.seats f;
     Car.description := CarData.description f;
     Car.status := CarData.status f; Car.featured := CarData.featured f;
     Car.images := new_images d;
     Car.createdAt := db_now E |}.

(** [db.car.create({ data })]: the key is unique. *)
Definition db_car_create (E : env) (d : createData) : M Car.t :=
  emit (EvCarCreate d) ;;
  fun w =>
    if existsb (has_id (new_id d)) (cars w)
    then (Throw (new_Error (js "Unique constraint failed on the fields: (`id`)")), w)
    else (Return (new_row E d), set_cars (cars w ++ [new_row E d]) w).

Definition record_not_found : Error :=
  new_Error (js "An operation failed because it depends on one or more records that were required but not found.").

(** [db.car.delete({ where: { id } })]: fails when there is no such row. *)
Definition db_car_delete (id : jsstring) : M unit :=
  emit (EvCarDelete id) ;;
  fun w =>
    if existsb (has_id id) (cars w)
    then (Return tt, set_cars (filter (fun c => negb (has_id id c)) (cars w)) w)
    else (Throw record_not_found, w).

Definition apply_update (d : updateData) (c : Car.t) : Car.t :=
  let c := match upd_status d with Some s => Car.set_status s c | None => c end in
  match upd_featured d with Some b => Car.set_featured b c | None => c end.

(** [db.car.update({ where: { id }, data })]: only the fields present in
    [data] are written; fails when there is no such row. *)
Definition db_car_update (id : jsstring) (d : updateData) : M unit :=
  emit (EvCarUpdate id d) ;;
  fun w =>
    if existsb (has_id id) (cars w)
    then (Return tt,
          set_cars (map (fun c => if has_id id c then apply_update d c else c)
                        (cars w)) w)
    else (Throw record_not_found, w).

(** Rows by creation time, newest first (a stable insertion sort). *)
Fixpoint insert_desc (c : Car.t) (l : list Car.t) : list Car.t :=
  match l with
  | [] => [c]
  | d :: l' =>
      if Car.createdAt d <? Car.createdAt c then c :: l
      else d :: insert_desc c l'
  end.

Fixpoint orderBy_createdAt_desc (l : list Car.t) : list Car.t :=
  match l with
  | [] => []
  | c :: l' => insert_desc c (orderBy_createdAt_desc l')
  end.

(** [db.car.findMany({ where, take, orderBy: { createdAt: "desc" } })],
    for a row count [take]. *)
Definition db_car_findMany (where_ : Car.t -> bool) (take : nat) : M (list Car.t) :=
  emit EvCarFindMany ;;
  fun w => (Return (firstn take (orderBy_createdAt_desc (filter where_ (cars w)))), w).

(** [createClient(cookieStore)] *)
Definition supabase_createClient (E : env) : M unit :=
  emit EvCreateClient ;; lift (createClient E).

(** [supabase.storage.from("car-images").upload(filePath, body, { contentType })]:
    the message of the returned [error], if any. *)
Definition supabase_upload (E : env) (filePath : jsstring) (body : Buffer)
    (contentType : jsstring) : M (option jsstring) :=
  emit (EvStorageUpload filePath body contentType) ;;
  fun w =>
    match storage_upload E filePath body contentType with
    | Return None => (Return None, set_bucket (bucket w ++ [(filePath, body)]) w)
    | c => (c, w)
    end.

(** [supabase.storage.from("car-images").remove(filePaths)] *)
Definition supabase_remove (E : env) (filePaths : list jsstring) : M (option jsstring) :=
  emit (EvStorageRemove filePaths) ;;
  fun w =>
    match storage_remove E filePaths with
    | Return None =>
        (Return None,
         set_bucket (filter (fun o => negb (existsb (str_eqb (fst o)) filePaths))
                            (bucket w)) w)
    | c => (c, w)
    end.

(** [await model.generateContent([imagePart, prompt])] followed by
    [response.text()]. *)
Definition model_generateContent (E : env) (image : inlineData) (p : prompt) : M jsstring :=
  emit (EvGenerateContent image p) ;; lift (generateContent E image p).

(** [await request()], then [await aj.protect(req, { requested: 1 })] *)
Definition protect (E : env) : M decision :=
  emit EvProtect ;; ret (aj_protect E).

(* ===================================================================== *)
(** * Helpers of the actions *)
(* ===================================================================== *)

Definition b64_digit (n : N) : N :=
  if n <? 26 then 65 + n
  else if n <? 52 then 97 + (n - 26)
  else if n <? 62 then 48 + (n - 52)
  else if n =? 62 then 43 else 47.

(** [buffer.toString("base64")] *)
Fixpoint toString_base64 (bytes : list N) : jsstring :=
  match bytes with
  | [] => []
  | [a] =>
      [b64_digit (N.shiftr a 2); b64_digit (N.shiftl (N.land a 3) 4); 61; 61]
  | [a; b] =>
      [b64_digit (N.shiftr a 2);
       b64_digit (N.lor (N.shiftl (N.land a 3) 4) (N.shiftr b 4));
       b64_digit (N.shiftl (N.land b 15) 2); 61]
  | a :: b :: c :: rest =>
      b64_digit (N.shiftr a 2)
      :: b64_digit (N.lor (N.shiftl (N.land a 3) 4) (N.shiftr b 4))
      :: b64_digit (N.lor (N.shiftl (N.land b 15) 2) (N.shiftr c 6))
      :: b64_digit (N.land c 63)
      :: toString_base64 rest
  end.

Definition fileToBase64 (file : File) : jsstring :=
  toString_base64 (arrayBuffer file).

(** [Buffer.from(value, "base64")]: a [TypeError] when [value] is
    [undefined]. *)
Definition Buffer_from (value : option jsstring) : M Buffer :=
  match value with
  | Some payload => ret (Buffer_from_base64 payload)
  | None =>
      throw (mkError TypeError
        (js "The first argument must be of type string or an instance of Buffer, ArrayBuffer, or Array or an Array-like Object. Received undefined"))
  end.

(** [/data:image\/([a-zA-Z0-9]+);/] tried at the start of [s]: group 1. The
    class excludes [;], so only the longest run can be followed by it. *)
Definition mime_match_here (s : jsstring) : option jsstring :=
  match drop_prefix (js "data:image/") s with
  | Some r =>
      match span is_alnum r with
      | (c :: ext, 59 :: _) => Some (c :: ext)
      | _ => None
      end
  | None => None
  end.

(** [s.match(/data:image\/([a-zA-Z0-9]+);/)]: group 1 of the leftmost match. *)
Fixpoint mime_match (s : jsstring) : option jsstring :=
  match mime_match_here s with
  | Some ext => Some ext
  | None =>
      match s with
      | [] => None
      | _ :: s' => mime_match s'
      end
  end.

(** [pathname.match] on the pattern [\/car-images\/] followed by the group
    [.*]: group 1 of the leftmost match; the dot stops at a line
    terminator. *)
Fixpoint car_images_match (pathname : jsstring) : option jsstring :=
  match drop_prefix (js "/car-images/") pathname with
  | Some r => Some (fst (span (fun c => negb (is_line_terminator c)) r))
  | None =>
      match pathname with
      | [] => None
      | _ :: p' => car_images_match p'
      end
  end.

(** [base64Data.split(",")[1]]: [None] is [undefined]. *)
Definition payload (base64Data : jsstring) : option jsstring :=
  nth_error (split 44 base64Data) 1.

(** The two conditions that let an entry of [images] into the upload. *)
Definition valid_image (base64Data : option jsstring) : bool :=
  truthy base64Data && startsWith (template base64Data) (js "data:image/").

Fixpoint map_M {A B} (f : A -> M B) (l : list A) : M (list B) :=
  match l with
  | [] => ret []
  | a :: l' => b <- f a ;; bs <- map_M f l' ;; ret (b :: bs)
  end.

Fixpoint filter_M {A} (f : A -> M bool) (l : list A) : M (list A) :=
  match l with
  | [] => ret []
  | a :: l' => keep <- f a ;; rest <- filter_M f l' ;;
               ret (if keep then a :: rest else rest)
  end.

(** [.filter(Boolean)] on strings and [null]s: [null] and the empty string
    are dropped. *)
Definition filter_Boolean (l : list (option jsstring)) : list jsstring :=
  flat_map (fun v => if truthy v then [template v] else []) l.

(** [array.map(callback)]: the callback is called with the element, its
    index and the array itself. *)
Definition Array_map {A B} (callback : A -> nat -> list A -> B) (array : list A)
  : list B :=
  map (fun entry => callback (snd entry) (fst entry) array)
      (combine (seq 0 (length array)) array).

(** The value that a parameter pattern [{ a, b }] is matched against: an
    omitted argument is [undefined]. *)
Inductive argument (A : Type) : Type :=
| arg_undefined
| arg_null
| arg_object (fields : A).

Arguments arg_undefined {A}.
Arguments arg_null {A}.
Arguments arg_object {A} fields.

(** The binding of a parameter pattern whose first property is [property],
    followed by the body of the function: [undefined] and [null] cannot be
    destructured, and the [TypeError] (worded as V8 does) is raised before
    the body is entered. *)
Definition destructure {A B} (property : jsstring) (arg : argument A)
    (body : A -> M B) : M B :=
  match arg with
  | arg_object fields => body fields
  | arg_undefined =>
      throw (mkError TypeError
               (js "Cannot destructure property '" +++ property
                +++ js "' of 'undefined' as it is undefined."))
  | arg_null =>
      throw (mkError TypeError
               (js "Cannot destructure property '" +++ property
                +++ js "' of 'object null' as it is null."))
  end.

(** The identity check that opens every admin action:
    [auth()], then the lookup of the local user. *)
Definition identity_check (E : env) : M unit :=
  userId <- auth E ;;
  if negb (truthy userId) then throw (new_Error (js "Unauthorized!"))
  else
    user <- db_user_findUnique (template userId) ;;
    match user with
    | None => throw (new_Error (js "User not found"))
    | Some _ => ret tt
    end.

(* ===================================================================== *)
(** * addCar *)
(* ===================================================================== *)

Definition fileExtension_of (base64Data : jsstring) : jsstring :=
  match mime_match base64Data with
  | Some ext => ext
  | None => js "jpeg"
  end.

Definition filePath_of (E : env) (folderPath : jsstring) (i : nat)
    (base64Data : jsstring) : jsstring :=
  let fileName :=
    js "image-" +++ decimal (Date_now E i) +++ js "-" +++ decimal (N.of_nat i)
    +++ js "." +++ fileExtension_of base64Data in
  folderPath +++ js "/" +++ fileName.

Definition publicUrl_of (E : env) (filePath : jsstring) : jsstring :=
  template (NEXT_PUBLIC_SUPABASE_URL E)
  +++ js "/storage/v1/object/public/car-images/" +++ filePath.

(** The body of the [for] loop, for [images[i] = base64Data]. *)
Definition upload_image (E : env) (folderPath : jsstring) (i : nat)
    (base64Data : option jsstring) (imageUrls : list jsstring)
  : M (list jsstring) :=
  if negb (truthy base64Data)
     || negb (startsWith (template base64Data) (js "data:image/"))
  then
    console console_warn_ [LogString (js "Skipping invalid image data")] ;;
    ret imageUrls
  else
    let base64 := payload (template base64Data) in
    imageBuffer <- Buffer_from base64 ;;
    let fileExtension := fileExtension_of (template base64Data) in
    let filePath := filePath_of E folderPath i (template base64Data) in
    error <- supabase_upload E filePath imageBuffer (js "image/" +++ fileExtension) ;;
    match error with
    | Some msg =>
        console console_error_
          [LogString (js "Error uploading image:"); LogError (new_Error msg)] ;;
        throw (new_Error (js "Failed to upload image: " +++ msg))
    | None => ret (imageUrls ++ [publicUrl_of E filePath])
    end.

(** [for (let i = 0; i < images.length; i++)], from index [i] on. *)
Fixpoint upload_images (E : env) (folderPath : jsstring) (i : nat)
    (images : list (option jsstring)) (imageUrls : list jsstring)
  : M (list jsstring) :=
  match images with
  | [] => ret imageUrls
  | base64Data :: rest =>
      imageUrls' <- upload_image E folderPath i base64Data imageUrls ;;
      upload_images E folderPath (S i) rest imageUrls'
  end.

(** [addCar({ carData, images })], for an argument object that holds
    [carData] and the array [images]: the body of the function with the two
    properties bound. An entry of [images] is a string, or [None] for [null]
    and [undefined]. *)
Definition addCar (E : env) (carData : CarData.t) (images : list (option jsstring))
  : M (result unit) :=
  try_catch
    (identity_check E ;;
     let carId := uuidv4 E in
     let folderPath := js "cars/" +++ carId in
     supabase_createClient E ;;
     imageUrls <- upload_images E folderPath 0 images [] ;;
     if (length imageUrls =? 0)%nat
     then throw (new_Error (js "No valid images were uploaded"))
     else
       db_car_create E {| new_id := carId; new_fields := carData;
                          new_images := imageUrls |} ;;
       revalidatePath (js "/admin/cars") ;;
       ret (Success tt))
    (fun error => throw (new_Error (js "Error adding car:" +++ message error))).

Module AddCarArg.
(** The argument object of [addCar]. *)
Record t := { carData : CarData.t; images : list (option jsstring) }.
End AddCarArg.

(** [addCar(arg)] for any argument: the parameter pattern
    [{ carData, images }] is bound before the [try] block is entered, so
    that a missing argument is not handled by its [catch]. *)
Definition addCar_call (E : env) (arg : argument AddCarArg.t) : M (result unit) :=
  destructure (js "carData") arg
    (fun fields =>
       addCar E (AddCarArg.carData fields) (AddCarArg.images fields)).

(* ===================================================================== *)
(** * deleteCar *)
(* ===================================================================== *)

(** The callback of [car.images.map]: the storage path inside the public
    URL, or [null]. *)
Definition storage_path (E : env) (imageUrl : jsstring) : M (option jsstring) :=
  pathname <- lift (URL_pathname E imageUrl) ;;
  ret (car_images_match pathname).

(** The inner [try] block with its [catch]: the removal of the stored
    images of a deleted car. *)
Definition remove_images (E : env) (images : list jsstring) : M unit :=
  try_catch
    (supabase_createClient E ;;
     paths <- map_M (storage_path E) images ;;
     let filePaths := filter_Boolean paths in
     if (0 <? length filePaths)%nat
     then
       error <- supabase_remove E filePaths ;;
       match error with
       | Some msg =>
           console console_error_
             [LogString (js "Error deleting images:"); LogError (new_Error msg)]
       | None => ret tt
       end
     else ret tt)
    (fun storageError =>
       console console_error_
         [LogString (js "Error with storage operations:"); LogError storageError]).

Definition deleteCar (E : env) (id : jsstring) : M (result unit) :=
  try_catch
    (identity_check E ;;
     car <- db_car_findUnique id ;;
     match car with
     | None => ret (Failure (js "Car not found"))
     | Some car =>
         db_car_delete id ;;
         remove_images E (Car.images car) ;;
         revalidatePath (js "/admin/cars") ;;
         ret (Success tt)
     end)
    (fun error =>
       console console_error_ [LogString (js "Error deleting car:"); LogError error] ;;
       ret (Failure (message error))).

(* ===================================================================== *)
(** * updateCarStatus *)
(* ===================================================================== *)

(** The second argument of [updateCarStatus], an object: the properties
    [status] and [featured], where [None] is [undefined]. *)
Record statusArg := { status : option jsstring; featured : option bool }.

Definition build_updateData (arg : statusArg) : updateData :=
  let updateData := {| upd_status := None; upd_featured := None |} in
  let updateData :=
    match status arg with
    | Some s => {| upd_status := Some s; upd_featured := upd_featured updateData |}
    | None => updateData
    end in
  match featured arg with
  | Some b => {| upd_status := upd_status updateData; upd_featured := Some b |}
  | None => updateData
  end.

(** [updateCarStatus(id, {status, featured})], for a second argument that is
    an object: the body of the function with the two properties bound. *)
Definition updateCarStatus (E : env) (id : jsstring) (arg : statusArg)
  : M (result unit) :=
  try_catch
    (identity_check E ;;
     let updateData := build_updateData arg in
     db_car_update id updateData ;;
     revalidatePath (js "/admin/cars") ;;
     ret (Success tt))
    (fun error =>
       console console_error_
         [LogString (js "Error updating car status:"); LogError error] ;;
       ret (Failure (message error))).


(* ===================================================================== *)
(** * getFeaturedCars *)
(* ===================================================================== *)

Section FeaturedCars.

(** [serializeCarData] lives in [lib/helper]; the action only maps it over
    the rows it fetched. *)
Variable serialized : Type.
Variable serializeCarData : Car.t -> serialized.

Definition featured_available (c : Car.t) : bool :=
  Car.featured c && str_eqb (Car.status c) (js "AVAILABLE").

(** [limit] is a row count; [None] is an omitted argument. *)
Definition getFeaturedCars (limit : option nat) : M (list serialized) :=
  let limit := match limit with Some n => n | None => 3%nat end in
  try_catch
    (cars <- db_car_findMany featured_available limit ;;
     ret (map serializeCarData cars))
    (fun error =>
       throw (new_Error_with_options (js "Error fetching featured cars:")
                                     (message error))).

End FeaturedCars.

(* ===================================================================== *)
(** * getCars *)
(* ===================================================================== *)

(** [db.car.findMany({ where, orderBy: { createdAt: "desc" } })], without a
    row count. *)
Definition db_car_findMany_all (where_ : Car.t -> bool) : M (list Car.t) :=
  emit EvCarFindMany ;;
  fun w => (Return (orderBy_createdAt_desc (filter where_ (cars w))), w).

(** The [where] argument of [db.car.findMany] as [getCars] builds it: no
    condition, or the alternatives of [OR], each a filter on one column. *)
Inductive queryMode := mode_default | mode_insensitive.

Record stringFilter := { contains : jsstring; mode : queryMode }.

Inductive carColumn := column_make | column_model | column_color.

Record carWhere := { OR : option (list (carColumn * stringFilter)) }.

Definition column_value (column : carColumn) (c : Car.t) : jsstring :=
  match column with
  | column_make => Car.make c
  | column_model => Car.model c
  | column_color => Car.color c
  end.

Section ListedCars.

(** [serializeCarData] lives in [lib/helper]. [getCars] hands the function
    itself to [cars.map]: it is called with a row, the index of the row and
    the array of the rows. *)
Variable serialized : Type.
Variable serializeCarData : Car.t -> nat -> list Car.t -> serialized.

(** The store's test of [{ contains: term, mode: "insensitive" }] on a
    column value: whether the value contains the term when case is
    ignored, by the collation of the store. *)
Variable contains_insensitive : jsstring -> jsstring -> bool.

(** What the store makes of a filter: [contains] is a substring test, exact
    in the default mode. *)
Definition filter_holds (f : stringFilter) (value : jsstring) : bool :=
  match mode f with
  | mode_default => includes value (contains f)
  | mode_insensitive => contains_insensitive value (contains f)
  end.

Definition where_holds (where_ : carWhere) (c : Car.t) : bool :=
  match OR where_ with
  | None => true
  | Some alternatives =>
      existsb (fun alternative =>
                 filter_holds (snd alternative) (column_value (fst alternative) c))
              alternatives
  end.

(** The [where] object: empty when [search] is falsy, else the [OR] of the
    three columns, each compared in the insensitive mode. *)
Definition search_where (search : jsstring) : carWhere :=
  let where_ := {| OR := None |} in
  if truthy (Some search)
  then {| OR := Some [(column_make, {| contains := search; mode := mode_insensitive |});
                      (column_model, {| contains := search; mode := mode_insensitive |});
                      (column_color, {| contains := search; mode := mode_insensitive |})] |}
  else where_.

(** [getCars(search = "")]: [None] is an omitted argument. *)
Definition getCars (E : env) (search : option jsstring)
  : M (result (list serialized)) :=
  let search := match search with Some s => s | None => js "" end in
  try_catch
    (identity_check E ;;
     let where_ := search_where search in
     cars <- db_car_findMany_all (where_holds where_) ;;
     let serializedCars := Array_map serializeCarData cars in
     ret (Success serializedCars))
    (fun error =>
       console console_error_ [LogString (js "Error fetching cars:"); LogError error] ;;
       ret (Failure (message error))).

End ListedCars.

(* ===================================================================== *)
(** * The AI metadata extractors *)
(* ===================================================================== *)

Definition requiredFields : list jsstring :=
  [js "make"; js "model"; js "year"; js "color"; js "bodyType"; js "price";
   js "mileage"; js "fuelType"; js "transmission"; js "description";
   js "confidence"].

(** [field in value], for the names of [requiredFields] (none of them is an
    index, [length] or inherited from a prototype): a key test on an object,
    false on an array, a [TypeError] on anything else. *)
Definition in_operator (field : jsstring) (value : json) : M bool :=
  match value with
  | JObject members => ret (existsb (fun m => str_eqb (fst m) field) members)
  | JArray _ => ret false
  | _ =>
      throw (mkError TypeError
               (js "Cannot use 'in' operator to search for '" +++ field +++ js "'"))
  end.

(** The rest of the inner [try] block once the response is parsed: the
    check of the required fields and the success result. *)
Definition validation (carDetails : json) : M (result json) :=
  missingFields <-
    filter_M (fun field => present <- in_operator field carDetails ;;
                           ret (negb present))
             requiredFields ;;
  if (0 <? length missingFields)%nat
  then throw (new_Error (js "AI response missing required fields: "
                         +++ join (js ", ") missingFields))
  else ret (Success carDetails).

Definition imagePart_of (file : File) : inlineData :=
  {| data := fileToBase64 file; mimeType := type file |}.

Definition processCarImageWithAI (E : env) (file : File) : M (result json) :=
  try_catch
    (if negb (truthy (GEMINI_API_KEY E))
     then throw (new_Error (js "Gemini API key is not configured"))
     else
       let imagePart := imagePart_of file in
       text <- model_generateContent E imagePart FullListingPrompt ;;
       let cleanedText := strip_fences text in
       try_catch
         (carDetails <- lift (JSON_parse E cleanedText) ;;
          validation carDetails)
         (fun parseError =>
            console console_error_
              [LogString (js "Failed to parse AI response:"); LogError parseError] ;;
            console console_log_ [LogString (js "Raw response:"); LogString text] ;;
            ret (Failure (js "Failed to parse AI response"))))
    (fun error =>
       console console_error_ [] ;;
       throw (new_Error (js "Gemini API error:" +++ message error))).

(** Reading an identifier that no scope declares. *)
Definition undeclared (identifier : jsstring) : M logged :=
  throw (mkError ReferenceError (identifier +++ js " is not defined")).

Definition rate_limit_report (remaining reset : N) : json :=
  JObject
    [(js "code", JString (js "RATE_LIMIT_EXCEDDED"));
     (js "details",
      JObject [(js "remaining", JNumber (Z.of_N remaining) 1);
               (js "resetInSeconds", JNumber (Z.of_N reset) 1)])].

Definition processImageSearch (E : env) (file : File) : M (result json) :=
  try_catch
    (decision <- protect E ;;
     match decision with
     | Denied (RateLimit remaining reset) =>
         console console_error_ [LogObject (rate_limit_report remaining reset)] ;;
         throw (new_Error (js "Too many requests. Please try again later."))
     | Denied OtherReason => throw (new_Error (js "Request blocked"))
     | Allowed => ret tt
     end ;;
     if negb (truthy (GEMINI_API_KEY E))
     then throw (new_Error (js "Gemini API key is not configured"))
     else
       let imagePart := imagePart_of file in
       text <- model_generateContent E imagePart SearchHintPrompt ;;
       let cleanedText := strip_fences text in
       try_catch
         (carDetails <- lift (JSON_parse E cleanedText) ;;
          ret (Success carDetails))
         (fun error =>
            (* the handler names [parseError], which its scope does not
               declare: the argument list fails before [console.error] runs *)
            parseError <- undeclared (js "parseError") ;;
            console console_error_
              [LogString (js "Failed to parse AI response:"); parseError] ;;
            ret (Failure (js "Failed to parse AI response"))))
    (fun error =>
       throw (new_Error_with_options (js "AI search error:") (message error))).

(* ===================================================================== *)
(** * A reference platform

    The properties below hold for every [env]. To run the actions on
    concrete inputs, the platform functions get reference implementations:
    a JSON parser (numbers as exact rationals) and the path of an absolute
    hierarchical URL. *)
(* ===================================================================== *)

Module Reference.

Definition is_json_ws (c : N) : bool :=
  (c =? 32) || (c =? 9) || (c =? 10) || (c =? 13).

Fixpoint skip_ws (s : jsstring) : jsstring :=
  match s with
  | [] => []
  | c :: s' => if is_json_ws c then skip_ws s' else s
  end.

Definition is_digit (c : N) : bool := (48 <=? c) && (c <=? 57).

Definition hex_value (c : N) : option N :=
  if is_digit c then Some (c - 48)
  else if (97 <=? c) && (c <=? 102) then Some (c - 87)
  else if (65 <=? c) && (c <=? 70) then Some (c - 55)
  else None.

Definition hex4 (a b c d : N) : option N :=
  match hex_value a, hex_value b, hex_value c, hex_value d with
  | Some x, Some y, Some z, Some t => Some (((x * 16 + y) * 16 + z) * 16 + t)
  | _, _, _, _ => None
  end.

(** The unit denoted by the escape [\e], for the one-unit escapes. *)
Definition simple_escape (e : N) : option N :=
  if (e =? 34) || (e =? 92) || (e =? 47) then Some e
  else if e =? 98 then Some 8
  else if e =? 102 then Some 12
  else if e =? 110 then Some 10
  else if e =? 114 then Some 13
  else if e =? 116 then Some 9
  else None.

Definition cons_fst (c : N) (p : option (jsstring * jsstring)) :=
  match p with
  | Some (t, r) => Some (c :: t, r)
  | None => None
  end.

(** A string after its opening quote: its value and what follows the
    closing quote. *)
Fixpoint string_body (s : jsstring) : option (jsstring * jsstring) :=
  match s with
  | [] => None
  | c :: r =>
      if c =? 34 then Some ([], r)
      else if c =? 92 then
        match r with
        | [] => None
        | e :: r1 =>
            match simple_escape e with
            | Some u => cons_fst u (string_body r1)
            | None =>
                if e =? 117 then
                  match r1 with
                  | h1 :: h2 :: h3 :: h4 :: r2 =>
                      match hex4 h1 h2 h3 h4 with
                      | Some u => cons_fst u (string_body r2)
                      | None => None
                      end
                  | _ => None
                  end
                else None
            end
        end
      else if c <? 32 then None
      else cons_fst c (string_body r)
  end.

Definition digits_value (ds : jsstring) : Z :=
  fold_left (fun acc d => acc * 10 + Z.of_N (d - 48))%Z ds 0%Z.

(** [-? int frac? exp?] *)
Definition number (s : jsstring) : option (json * jsstring) :=
  let (negative, s1) :=
    match s with
    | c :: r => if c =? 45 then (true, r) else (false, s)
    | [] => (false, s)
    end in
  let (int, s2) := span is_digit s1 in
  let leading_zero :=
    match int with
    | d :: _ :: _ => d =? 48
    | _ => false
    end in
  let (frac, s3) :=
    match s2 with
    | c :: r => if c =? 46 then let (f, r') := span is_digit r in (Some f, r')
                else (None, s2)
    | [] => (None, s2)
    end in
  let (exponent, s4) :=
    match s3 with
    | c :: r =>
        if (c =? 101) || (c =? 69) then
          let (minus, r1) :=
            match r with
            | g :: r' => if g =? 45 then (true, r')
                         else if g =? 43 then (false, r') else (false, r)
            | [] => (false, r)
            end in
          let (e, r2) := span is_digit r1 in
          (Some (minus, e), r2)
        else (None, s3)
    | [] => (None, s3)
    end in
  let ok :=
    negb (length int =? 0)%nat && negb leading_zero
    && match frac with Some [] => false | _ => true end
    && match exponent with Some (_, []) => false | _ => true end in
  if ok then
    let f := match frac with Some f => f | None => [] end in
    let mantissa := digits_value (int ++ f) in
    let mantissa := if negative then (- mantissa)%Z else mantissa in
    let scale := (10 ^ Z.of_nat (length f))%Z in
    match exponent with
    | Some (true, e) => Some (JNumber mantissa (scale * 10 ^ digits_value e), s4)
    | Some (false, e) => Some (JNumber (mantissa * 10 ^ digits_value e) scale, s4)
    | None => Some (JNumber mantissa scale, s4)
    end
  else None.

Definition literal (word : jsstring) (v : json) (s : jsstring) :=
  match drop_prefix word s with
  | Some r => Some (v, r)
  | None => None
  end.

(** A value, the members of an object after its opening brace or a comma,
    the elements of an array likewise. Every recursive call follows the
    consumption of a code unit, so [fuel] above the length of the input
    never runs out. *)
Fixpoint value (fuel : nat) (s : jsstring) : option (json * jsstring) :=
  match fuel with
  | O => None
  | S fuel' =>
      match skip_ws s with
      | [] => None
      | c :: r =>
          if c =? 123 then
            match skip_ws r with
            | d :: r' =>
                if d =? 125 then Some (JObject [], r')
                else match members fuel' (d :: r') with
                     | Some (ms, r'') => Some (JObject ms, r'')
                     | None => None
                     end
            | [] => None
            end
          else if c =? 91 then
            match skip_ws r with
            | d :: r' =>
                if d =? 93 then Some (JArray [], r')
                else match elements fuel' (d :: r') with
                     | Some (vs, r'') => Some (JArray vs, r'')
                     | None => None
                     end
            | [] => None
            end
          else if c =? 34 then
            match string_body r with
            | Some (t, r') => Some (JString t, r')
            | None => None
            end
          else if c =? 116 then literal (js "true") (JBool true) (c :: r)
          else if c =? 102 then literal (js "false") (JBool false) (c :: r)
          else if c =? 110 then literal (js "null") JNull (c :: r)
          else number (c :: r)
      end
  end
with members (fuel : nat) (s : jsstring)
  : option (list (jsstring * json) * jsstring) :=
  match fuel with
  | O => None
  | S fuel' =>
      match skip_ws s with
      | q :: r =>
          if q =? 34 then
            match string_body r with
            | Some (key, r1) =>
                match skip_ws r1 with
                | colon :: r2 =>
                    if colon =? 58 then
                      match value fuel' r2 with
                      | Some (v, r3) =>
                          match skip_ws r3 with
                          | e :: r4 =>
                              if e =? 125 then Some ([(key, v)], r4)
                              else if e =? 44 then
                                match members fuel' r4 with
                                | Some (ms, r5) => Some ((key, v) :: ms, r5)
                                | None => None
                                end
                              else None
                          | [] => None
                          end
                      | None => None
                      end
                    else None
                | [] => None
                end
            | None => None
            end
          else None
      | [] => None
      end
  end
with elements (fuel : nat) (s : jsstring) : option (list json * jsstring) :=
  match fuel with
  | O => None
  | S fuel' =>
      match value fuel' s with
      | Some (v, r) =>
          match skip_ws r with
          | e :: r1 =>
              if e =? 93 then Some ([v], r1)
              else if e =? 44 then
                match elements fuel' r1 with
                | Some (vs, r2) => Some (v :: vs, r2)
                | None => None
                end
              else None
          | [] => None
          end
      | None => None
      end
  end.

Definition syntax_error : Error :=
  mkError SyntaxError (js "Unexpected token in JSON").

(** [JSON.parse(text)] *)
Definition JSON_parse (text : jsstring) : completion json :=
  match value (2 * length text + 2) text with
  | Some (v, r) =>
      match skip_ws r with
      | [] => Return v
      | _ :: _ => Throw syntax_error
      end
  | None => Throw syntax_error
  end.

(** The rest of [s] after the first occurrence of [p]. *)
Fixpoint after (p s : jsstring) : option jsstring :=
  match drop_prefix p s with
  | Some r => Some r
  | None =>
      match s with
      | [] => None
      | _ :: s' => after p s'
      end
  end.

(** [new URL(u).pathname] for [scheme://authority/path?query#fragment]. *)
Definition URL_pathname (u : jsstring) : completion jsstring :=
  match after (js "://") u with
  | Some r =>
      let (_, path) := span (fun c => negb ((c =? 47) || (c =? 63) || (c =? 35))) r in
      let (path, _) := span (fun c => negb ((c =? 63) || (c =? 35))) path in
      Return (match path with [] => js "/" | _ => path end)
  | None => Throw (mkError TypeError (js "Invalid URL"))
  end.

End Reference.

(** An environment in which every collaborator answers and succeeds: a
    signed-in user, a configured key, a storage client that stores and
    removes, an admission check that allows, and a provider that answers
    [response]. *)
Definition nominal_env (response : jsstring) : env :=
  {| auth_userId := Some (js "user_2abc");
     GEMINI_API_KEY := Some (js "secret");
     NEXT_PUBLIC_SUPABASE_URL := Some (js "https://demo.supabase.co");
     uuidv4 := js "3b241101-e2bb-4255-8caf-4136c566a962";
     Date_now := fun i => 1700000000000 + N.of_nat i;
     db_now := 1700000000500;
     createClient := Return tt;
     storage_upload := fun _ _ _ => Return None;
     storage_remove := fun _ => Return None;
     URL_pathname := Reference.URL_pathname;
     JSON_parse := Reference.JSON_parse;
     aj_protect := Allowed;
     generateContent := fun _ _ => Return response |}.

Definition with_auth (userId : option jsstring) (E : env) : env :=
  {| auth_userId := userId;
     GEMINI_API_KEY := GEMINI_API_KEY E;
     NEXT_PUBLIC_SUPABASE_URL := NEXT_PUBLIC_SUPABASE_URL E;
     uuidv4 := uuidv4 E; Date_now := Date_now E; db_now := db_now E;
     createClient := createClient E; storage_upload := storage_upload E;
     storage_remove := storage_remove E; URL_pathname := URL_pathname E;
     JSON_parse := JSON_parse E; aj_protect := aj_protect E;
     generateContent := generateContent E |}.

Definition with_protect (d : decision) (E : env) : env :=
  {| auth_userId := auth_userId E;
     GEMINI_API_KEY := GEMINI_API_KEY E;
     NEXT_PUBLIC_SUPABASE_URL := NEXT_PUBLIC_SUPABASE_URL E;
     uuidv4 := uuidv4 E; Date_now := Date_now E; db_now := db_now E;
     createClient := createClient E; storage_upload := storage_upload E;
     storage_remove := storage_remove E; URL_pathname := URL_pathname E;
     JSON_parse := JSON_parse E; aj_protect := d;
     generateContent := generateContent E |}.

Definition with_storage (client : completion unit)
    (remove_ : list jsstring -> completion (option jsstring)) (E : env) : env :=
  {| auth_userId := auth_userId E;
     GEMINI_API_KEY := GEMINI_API_KEY E;
     NEXT_PUBLIC_SUPABASE_URL := NEXT_PUBLIC_SUPABASE_URL E;
     uuidv4 := uuidv4 E; Date_now := Date_now E; db_now := db_now E;
     createClient := client; storage_upload := storage_upload E;
     storage_remove := remove_; URL_pathname := URL_pathname E;
     JSON_parse := JSON_parse E; aj_protect := aj_protect E;
     generateContent := generateContent E |}.

(** A quotation mark, and a quoted name. *)
Definition quoted (s : jsstring) : jsstring := [34] +++ s +++ [34].

Definition sample_file : File :=
  {| arrayBuffer := [255; 216; 255; 224]; type := js "image/jpeg" |}.

Definition sample_carData : CarData.t :=
  {| CarData.make := js "Toyota"; CarData.model := js "Corolla";
     CarData.year := 2020; CarData.price := 18500; CarData.mileage := 42000;
     CarData.color := js "White"; CarData.fuelType := js "Petrol";
     CarData.transmission := js "Automatic"; CarData.bodyType := js "Sedan";
     CarData.seats := 5; CarData.description := js "One owner";
     CarData.status := js "AVAILABLE"; CarData.featured := false |}.

Definition sample_car (id : jsstring) (status_ : jsstring) (featured_ : bool)
    (images_ : list jsstring) (createdAt_ : N) : Car.t :=
  {| Car.id := id;
     Car.make := js "Toyota"; Car.model := js "Corolla"; Car.year := 2020;
     Car.price := 18500; Car.mileage := 42000; Car.color := js "White";
     Car.fuelType := js "Petrol"; Car.transmission := js "Automatic";
     Car.bodyType := js "Sedan"; Car.seats := 5;
     Car.description := js "One owner";
     Car.status := status_; Car.featured := featured_;
     Car.images := images_; Car.createdAt := createdAt_ |}.

(** A world with the signed-in user of [nominal_env] and the given rows. *)
Definition world_with (rows : list Car.t) : world :=
  {| users := [js "user_2abc"]; cars := rows; bucket := []; trace := [] |}.

(* ===================================================================== *)
(** * Vocabulary of the properties *)
(* ===================================================================== *)

(** The caller passes the identity check: a user id comes with the request
    and a local user carries it. *)
Definition authenticated (E : env) (w : world) : bool :=
  truthy (auth_userId E)
  && existsb (str_eqb (template (auth_userId E))) (users w).

(** The two calls of a passed identity check. *)
Definition identity_events (E : env) : list event :=
  [EvAuth; EvUserFindUnique (template (auth_userId E))].

Definition is_storage_call (ev : event) : bool :=
  match ev with
  | EvCreateClient | EvStorageUpload _ _ _ | EvStorageRemove _ => true
  | _ => false
  end.

Definition is_storage_write (ev : event) : bool :=
  match ev with
  | EvStorageUpload _ _ _ => true
  | _ => false
  end.

Definition is_table_write (ev : event) : bool :=
  match ev with
  | EvCarCreate _ | EvCarUpdate _ _ | EvCarDelete _ => true
  | _ => false
  end.

Definition is_provider_call (ev : event) : bool :=
  match ev with
  | EvGenerateContent _ _ => true
  | _ => false
  end.

Definition is_identity_call (ev : event) : bool :=
  match ev with
  | EvAuth | EvUserFindUnique _ => true
  | _ => false
  end.

(** What the loop writes for an entry it skips. *)
Definition skip_warning : event :=
  EvConsole console_warn_ [LogString (js "Skipping invalid image data")].

Definition has_image (c : Car.t) : Prop := Car.images c <> [].

(** The accepted entries of [images] with their positions, from position
    [i] on. *)
Fixpoint accepted_from (i : nat) (images : list (option jsstring))
  : list (nat * jsstring) :=
  match images with
  | [] => []
  | base64Data :: rest =>
      (if valid_image base64Data then [(i, template base64Data)] else [])
      ++ accepted_from (S i) rest
  end.

(** The public URL under which the entry at position [i] is stored. *)
Definition url_of (E : env) (folderPath : jsstring) (p : nat * jsstring) : jsstring :=
  publicUrl_of E (filePath_of E folderPath (fst p) (snd p)).

(** A response wrapped in a fenced block, with or without the language
    tag. *)
Definition fenced (tag body : jsstring) : jsstring :=
  fence +++ tag +++ [10] +++ body +++ [10] +++ fence.

Definition no_leading_space (s : jsstring) : Prop :=
  match s with
  | [] => True
  | c :: _ => is_white_space c = false
  end.

(** The names of [requiredFields] that are no key of [members]. *)
Definition missing_fields (members : list (jsstring * json)) : list jsstring :=
  filter (fun field => negb (existsb (fun m => str_eqb (fst m) field) members))
         requiredFields.

(** What the handler of [addCar] throws for the error it caught. *)
Definition rethrown (e : Error) : Error :=
  new_Error (js "Error adding car:" +++ message e).

(** Newest first. *)
Definition newer_or_same (a b : Car.t) : Prop :=
  Car.createdAt b <= Car.createdAt a.

(** The image sequence of the example: a PNG, a string that is no data URI,
    a JPEG. *)
Definition example_images : list (option jsstring) :=
  [Some (js "data:image/png;base64,AAAA"); Some (js "not-an-image");
   Some (js "data:image/jpeg;base64,BBBB")].

(** The form the specification gives for an entry of [images]:
    [data:image/<ext>;base64,<payload>], with a non-empty alphanumeric
    [<ext>]. The code does not test it; it is here to be compared with
    [valid_image]. *)
Definition spec_data_uri_form (s : jsstring) : bool :=
  match drop_prefix (js "data:image/") s with
  | Some r =>
      let (ext, r') := span is_alnum r in
      negb (length ext =? 0)%nat && startsWith r' (js ";base64,")
  | None => false
  end.

(** A well-formed data URI followed by a string that has the prefix and a
    comma but neither a subtype nor the [;base64] marker. *)
Definition untyped_images : list (option jsstring) :=
  [Some (js "data:image/png;base64,AAAA"); Some (js "data:image/,AAAA")].

(** A well-formed data URI followed by a string that has the prefix but
    neither a separator nor a payload. *)
Definition truncated_images : list (option jsstring) :=
  [Some (js "data:image/png;base64,AAAA"); Some (js "data:image/png")].

(** A storage whose client cannot be created and whose removals are
    refused. *)
Definition broken_storage_env : env :=
  with_storage (Throw (new_Error (js "fetch failed")))
               (fun _ => Return (Some (js "Object not found")))
               (nominal_env []).

Definition listed_car : Car.t :=
  sample_car (js "car-1") (js "AVAILABLE") false
    [js "https://demo.supabase.co/storage/v1/object/public/car-images/cars/car-1/image-1-0.png"]
    1700000000000.

(** A storage whose client is created and which refuses every removal. *)
Definition refused_removal_env : env :=
  with_storage (Return tt) (fun _ => Return (Some (js "Object not found")))
               (nominal_env []).

(** A storage whose client is created and whose removals throw. *)
Definition throwing_removal_env : env :=
  with_storage (Return tt) (fun _ => Throw (new_Error (js "fetch failed")))
               (nominal_env []).

(** The storage path inside the image URL of [listed_car]. *)
Definition listed_path : jsstring := js "cars/car-1/image-1-0.png".

(** A car whose second image URL does not parse. *)
Definition mislabelled_car : Car.t :=
  sample_car (js "car-3") (js "AVAILABLE") false
    [js "https://demo.supabase.co/storage/v1/object/public/car-images/cars/car-3/image-1-0.png";
     js "not a url"]
    1700000000300.






(** Two rows that differ at most in [status] and [featured]. *)
Definition same_listing (a b : Car.t) : Prop :=
  Car.id a = Car.id b /\ Car.make a = Car.make b /\ Car.model a = Car.model b
  /\ Car.year a = Car.year b /\ Car.price a = Car.price b
  /\ Car.mileage a = Car.mileage b /\ Car.color a = Car.color b
  /\ Car.fuelType a = Car.fuelType b /\ Car.transmission a = Car.transmission b
  /\ Car.bodyType a = Car.bodyType b /\ Car.seats a = Car.seats b
  /\ Car.description a = Car.description b /\ Car.images a = Car.images b
  /\ Car.createdAt a = Car.createdAt b.

(** A second Toyota, added after [listed_car], and a Honda added between
    the two. *)
Definition recent_car : Car.t :=
  sample_car (js "car-2") (js "SOLD") true [js "https://example.com/a.png"]
    1700000000900.

Definition honda_car : Car.t :=
  {| Car.id := js "car-4";
     Car.make := js "Honda"; Car.model := js "Civic"; Car.year := 2019;
     Car.price := 15000; Car.mileage := 60000; Car.color := js "Blue";
     Car.fuelType := js "Petrol"; Car.transmission := js "Manual";
     Car.bodyType := js "Hatchback"; Car.seats := 5;
     Car.description := js "Two owners";
     Car.status := js "AVAILABLE"; Car.featured := false;
     Car.images := [js "https://example.com/storage/b.png"];
     Car.createdAt := 1700000000400 |}.

(** A car whose images are kept elsewhere: no URL holds a [/car-images/]
    path. *)
Definition unstored_car : Car.t :=
  sample_car (js "car-5") (js "SOLD") true
    [js "https://example.com/a.png";
     js "https://cdn.example.com/photos/car.jpg?size=large"]
    1700000000700.

(** A stand-in for [serializeCarData] that shows what it was called with:
    the identifier of the row, the index and the length of the array. *)
Definition called_with (c : Car.t) (index : nat) (array : list Car.t)
  : jsstring * nat * nat :=
  (Car.id c, index, length array).

(** A parsed response that has every required key. *)
Definition complete (v : json) : bool :=
  match v with
  | JObject members => (length (missing_fields members) =? 0)%nat
  | _ => false
  end.

(** The response [{"make":"Toyota"}]: valid JSON, ten keys short. *)
Definition incomplete_response : jsstring :=
  js "{" +++ quoted (js "make") +++ js ":" +++ quoted (js "Toyota") +++ js "}".

(** The admission check denies for rate limiting, nothing left, reset in
    thirty seconds. *)
Definition rate_limited_env : env :=
  with_protect (Denied (RateLimit 0 30)) (nominal_env []).

(** An [Error] carries a number when its message, the only thing it holds,
    shows it. *)
Definition carries (e : Error) (n : N) : bool := includes (message e) (decimal n).

(** The calls that read or write the Car table. *)
Definition is_car_call (ev : event) : bool :=
  match ev with
  | EvCarFindUnique _ | EvCarFindMany | EvCarCreate _ | EvCarUpdate _ _
  | EvCarDelete _ => true
  | _ => false
  end.

(** [[0-9]] *)
Definition is_decimal_digit (c : N) : bool := (48 <=? c) && (c <=? 57).

(** A storage that refuses every object whose name ends in [-2.jpeg], the
    third entry of [example_images], and stores the others. *)
Definition refusing_env : env :=
  {| auth_userId := auth_userId (nominal_env []);
     GEMINI_API_KEY := GEMINI_API_KEY (nominal_env []);
     NEXT_PUBLIC_SUPABASE_URL := NEXT_PUBLIC_SUPABASE_URL (nominal_env []);
     uuidv4 := uuidv4 (nominal_env []);
     Date_now := fun _ => 1700000000000;
     db_now := db_now (nominal_env []);
     createClient := Return tt;
     storage_upload :=
       fun path _ _ =>
         if str_eqb path
              (js "cars/3b241101-e2bb-4255-8caf-4136c566a962/image-1700000000000-2.jpeg")
         then Return (Some (js "Payload too large"))
         else Return None;
     storage_remove := storage_remove (nominal_env []);
     URL_pathname := URL_pathname (nominal_env []);
     JSON_parse := JSON_parse (nominal_env []);
     aj_protect := Allowed;
     generateContent := generateContent (nominal_env []) |}.

(** No line terminator in a string: what the dot of a pattern runs over. *)
Definition one_line (s : jsstring) : bool :=
  forallb (fun c => negb (is_line_terminator c)) s.

(** The path of the public URLs under the storage origin. *)
Definition public_prefix : jsstring := js "/storage/v1/object/public/car-images/".

(** The world after the images of the example were added to a table that
    holds [listed_car]. *)
Definition after_example_add : world :=
  snd (addCar (nominal_env []) sample_carData example_images
         (world_with [listed_car])).

(** The environment [E] with another answer of the AI provider. *)
Definition with_response (c : completion jsstring) (E : env) : env :=
  {| auth_userId := auth_userId E;
     GEMINI_API_KEY := GEMINI_API_KEY E;
     NEXT_PUBLIC_SUPABASE_URL := NEXT_PUBLIC_SUPABASE_URL E;
     uuidv4 := uuidv4 E; Date_now := Date_now E; db_now := db_now E;
     createClient := createClient E; storage_upload := storage_upload E;
     storage_remove := storage_remove E; URL_pathname := URL_pathname E;
     JSON_parse := JSON_parse E; aj_protect := aj_protect E;
     generateContent := fun _ _ => c |}.

(** The environment [E] with another value of [GEMINI_API_KEY]. *)
Definition with_key (k : option jsstring) (E : env) : env :=
  {| auth_userId := auth_userId E;
     GEMINI_API_KEY := k;
     NEXT_PUBLIC_SUPABASE_URL := NEXT_PUBLIC_SUPABASE_URL E;
     uuidv4 := uuidv4 E; Date_now := Date_now E; db_now := db_now E;
     createClient := createClient E; storage_upload := storage_upload E;
     storage_remove := storage_remove E; URL_pathname := URL_pathname E;
     JSON_parse := JSON_parse E; aj_protect := aj_protect E;
     generateContent := generateContent E |}.

(** A response with the eleven required keys. *)
Definition complete_response : jsstring :=
  js "{"
  +++ join (js ",")
        (map (fun field => quoted field +++ js ":" +++ quoted (js "x"))
             requiredFields)
  +++ js "}".

Definition is_removal (ev : event) : bool :=
  match ev with
  | EvStorageRemove _ => true
  | _ => false
  end.

(** The place of a character in the base64 alphabet: the inverse of
    [b64_digit] on [0..63]. *)
Definition b64_index (c : N) : N :=
  if (65 <=? c) && (c <=? 90) then c - 65
  else if (97 <=? c) && (c <=? 122) then c - 71
  else if (48 <=? c) && (c <=? 57) then c + 4
  else if c =? 43 then 62 else 63.

(** The bytes that a padded base64 text stands for, four characters at a
    time. *)
Fixpoint base64_bytes (s : jsstring) : list N :=
  match s with
  | c1 :: c2 :: c3 :: c4 :: rest =>
      let i1 := b64_index c1 in
      let i2 := b64_index c2 in
      let i3 := b64_index c3 in
      let i4 := b64_index c4 in
      if c3 =? 61 then [i1 * 4 + i2 / 16]
      else if c4 =? 61 then [i1 * 4 + i2 / 16; (i2 mod 16) * 16 + i3 / 4]
      else (i1 * 4 + i2 / 16) :: ((i2 mod 16) * 16 + i3 / 4)
           :: ((i3 mod 4) * 64 + i4) :: base64_bytes rest
  | _ => []
  end.

(** The 256 byte values. *)
Definition byte_values : list N := map N.of_nat (seq 0 256).

(* ===================================================================== *)
(** * Part II: properties *)
(* ===================================================================== *)

(* ===================================================================== *)
(** * Properties of strings *)
(* ===================================================================== *)

Lemma str_eqb_eq a : forall b, str_eqb a b = true <-> a = b.
Proof.
  induction a as [|x a IH]; intros [|y b]; simpl; split; intros H;
    try reflexivity; try discriminate.
  - apply andb_true_iff in H as [Hx Hab].
    apply N.eqb_eq in Hx. apply IH in Hab. congruence.
  - inversion H; subst. rewrite N.eqb_refl. simpl. apply IH. reflexivity.
Qed.

Lemma str_eqb_refl a : str_eqb a a = true.
Proof. apply str_eqb_eq. reflexivity. Qed.

Lemma drop_prefix_Some p : forall s r, drop_prefix p s = Some r <-> s = p ++ r.
Proof.
  induction p as [|a p IH]; intros s r; simpl.
  - split; intros H; congruence.
  - destruct s as [|b s].
    + split; intros H; discriminate.
    + destruct (N.eqb_spec a b) as [->|Hab].
      * rewrite IH. split; intros H; congruence.
      * split; intros H; [discriminate | congruence].
Qed.

Lemma drop_prefix_app p r : drop_prefix p (p ++ r) = Some r.
Proof. apply drop_prefix_Some. reflexivity. Qed.

Lemma startsWith_true s p : startsWith s p = true <-> exists r, s = p ++ r.
Proof.
  unfold startsWith. destruct (drop_prefix p s) as [r|] eqn:E.
  - apply drop_prefix_Some in E. split; eauto.
  - split; [discriminate|]. intros [r Hr].
    apply drop_prefix_Some in Hr. congruence.
Qed.

Lemma includes_unfold s p :
  includes s p =
  startsWith s p || match s with [] => false | _ :: s' => includes s' p end.
Proof. destruct s; reflexivity. Qed.

Lemma includes_true s p :
  includes s p = true <-> exists a b, s = a ++ p ++ b.
Proof.
  split.
  - induction s as [|c s IH]; rewrite includes_unfold; intros H;
      apply orb_true_iff in H as [H|H]; try discriminate.
    + apply startsWith_true in H as [r Hr]. exists [], r. exact Hr.
    + apply startsWith_true in H as [r Hr]. exists [], r. exact Hr.
    + destruct (IH H) as (a & b & ->). exists (c :: a), b. reflexivity.
  - intros (a & b & ->). induction a as [|c a IH]; rewrite includes_unfold.
    + simpl. apply orb_true_iff. left. apply startsWith_true. eauto.
    + simpl. rewrite IH. apply orb_true_r.
Qed.

(** A string without an occurrence of [p] has none in any of its
    substrings. *)
Lemma includes_substring a s b p :
  includes (a ++ s ++ b) p = false -> includes s p = false.
Proof.
  intros H. destruct (includes s p) eqn:E; [|reflexivity].
  apply includes_true in E as (x & y & ->).
  assert (includes (a ++ (x ++ p ++ y) ++ b) p = true) as H'; [|congruence].
  apply includes_true. exists (a ++ x), (y ++ b).
  repeat rewrite <- app_assoc. reflexivity.
Qed.

(** ** Trimming *)

Lemma trimStart_no_leading_space s : no_leading_space (trimStart s).
Proof.
  induction s as [|c s IH]; simpl; [exact I|].
  destruct (is_white_space c) eqn:E; [exact IH | exact E].
Qed.

Lemma trimStart_fixed s : no_leading_space s -> trimStart s = s.
Proof. destruct s as [|c s]; simpl; [reflexivity|]. intros ->. reflexivity. Qed.

Lemma trimStart_suffix s : exists a, s = a ++ trimStart s.
Proof.
  induction s as [|c s [a IH]]; simpl.
  - exists []. reflexivity.
  - destruct (is_white_space c).
    + exists (c :: a). simpl. congruence.
    + exists []. reflexivity.
Qed.

Lemma trimEnd_prefix s : exists b, s = trimEnd s ++ b.
Proof.
  unfold trimEnd. destruct (trimStart_suffix (rev s)) as [a Ha].
  exists (rev a). rewrite <- rev_app_distr, <- Ha, rev_involutive. reflexivity.
Qed.

Lemma trimStart_snoc l c :
  is_white_space c = false -> trimStart (l ++ [c]) = trimStart l ++ [c].
Proof.
  intros Hc. induction l as [|d l IH]; simpl.
  - rewrite Hc. reflexivity.
  - destruct (is_white_space d); [exact IH | reflexivity].
Qed.

Lemma trimEnd_cons c s :
  is_white_space c = false -> trimEnd (c :: s) = c :: trimEnd s.
Proof.
  intros Hc. unfold trimEnd. simpl. rewrite trimStart_snoc by exact Hc.
  rewrite rev_app_distr. reflexivity.
Qed.

Lemma trimEnd_fixed s : no_leading_space (rev s) -> trimEnd s = s.
Proof.
  intros H. unfold trimEnd. rewrite trimStart_fixed by exact H.
  apply rev_involutive.
Qed.

Lemma trim_no_leading_space s : no_leading_space (trim s).
Proof.
  unfold trim. pose proof (trimStart_no_leading_space s) as H.
  destruct (trimStart s) as [|c t]; [exact I|].
  simpl in H. rewrite trimEnd_cons by exact H. exact H.
Qed.

Lemma trim_no_trailing_space s : no_leading_space (rev (trim s)).
Proof.
  unfold trim, trimEnd. rewrite rev_involutive.
  apply trimStart_no_leading_space.
Qed.

Lemma trim_fixed s :
  no_leading_space s -> no_leading_space (rev s) -> trim s = s.
Proof.
  intros H1 H2. unfold trim. rewrite trimStart_fixed by exact H1.
  apply trimEnd_fixed. exact H2.
Qed.

Lemma trim_idempotent s : trim (trim s) = trim s.
Proof.
  apply trim_fixed; [apply trim_no_leading_space | apply trim_no_trailing_space].
Qed.

Lemma trim_substring s : exists a b, s = a ++ trim s ++ b.
Proof.
  unfold trim. destruct (trimStart_suffix s) as [a Ha].
  destruct (trimEnd_prefix (trimStart s)) as [b Hb].
  exists a, b. rewrite <- Hb. exact Ha.
Qed.

(** A trailing line feed is trimmed away again. *)
Lemma trim_line_feed s : trim s = s -> trim (s ++ [10]) = s.
Proof.
  intros Hs.
  assert (no_leading_space s) as H1 by (rewrite <- Hs; apply trim_no_leading_space).
  assert (no_leading_space (rev s)) as H2
    by (rewrite <- Hs; apply trim_no_trailing_space).
  destruct s as [|c s]; [reflexivity|].
  unfold trim. rewrite trimStart_fixed by exact H1.
  remember (c :: s) as t eqn:Ht. clear Ht.
  unfold trimEnd. rewrite rev_app_distr.
  change (trimStart (rev [10] ++ rev t)) with (trimStart (rev t)).
  rewrite trimStart_fixed by exact H2. apply rev_involutive.
Qed.

(** ** The replacement *)

Lemma fence_match_Some s r :
  fence_match s = Some r -> exists t, s = 96 :: 96 :: 96 :: t.
Proof.
  unfold fence_match. destruct (drop_prefix fence s) as [t|] eqn:E; [|discriminate].
  intros _. apply drop_prefix_Some in E. exists t. exact E.
Qed.

Lemma fence_match_None s :
  fence_match s = None <-> startsWith s fence = false.
Proof.
  unfold fence_match, startsWith.
  destruct (drop_prefix fence s); split; intros H; congruence.
Qed.

Lemma replace_fences_match s r :
  fence_match s = Some r -> replace_fences s = replace_fences r.
Proof.
  funelim (replace_fences s); intros H'; try congruence; try discriminate H'.
Qed.

Lemma replace_fences_nil : replace_fences [] = [].
Proof. reflexivity. Qed.

Lemma replace_fences_keep c s :
  fence_match (c :: s) = None ->
  replace_fences (c :: s) = c :: replace_fences s.
Proof.
  remember (c :: s) as t eqn:Ht. revert c s Ht.
  funelim (replace_fences t); intros c0 s0 Ht H'; congruence.
Qed.

(** The output starts with a backtick only where the input does. *)
Lemma replace_fences_backtick s t :
  replace_fences s = 96 :: t -> exists t', s = 96 :: t'.
Proof.
  destruct (fence_match s) as [r|] eqn:E.
  - apply fence_match_Some in E as [u ->]. eauto.
  - destruct s as [|c s]; [discriminate|].
    rewrite replace_fences_keep by exact E. intros H. inversion H. eauto.
Qed.

Lemma replace_fences_two_backticks s t :
  replace_fences s = 96 :: 96 :: t -> exists t', s = 96 :: 96 :: t'.
Proof.
  destruct (fence_match s) as [r|] eqn:E.
  - apply fence_match_Some in E as [u ->]. eauto.
  - destruct s as [|c s]; [discriminate|].
    rewrite replace_fences_keep by exact E. intros H. inversion H as [[Hc Hs]].
    apply replace_fences_backtick in Hs as [t' ->]. eauto.
Qed.

(** No fence survives the replacement, not even one put together from the
    backticks on either side of a removed match. *)
Lemma replace_fences_no_fence s : includes (replace_fences s) fence = false.
Proof.
  funelim (replace_fences s).
  - assumption.
  - reflexivity.
  - rewrite includes_unfold, H, orb_false_r.
    destruct (startsWith (c :: replace_fences s') fence) eqn:S; [|reflexivity].
    apply startsWith_true in S as [r Hr]. inversion Hr as [[Hc Hs]].
    apply replace_fences_two_backticks in Hs as [t' ->].
    pose proof (proj1 (fence_match_None _) e) as S0. rewrite <- Hc in S0.
    assert (startsWith (96 :: 96 :: 96 :: t') fence = true) as S'
      by (apply startsWith_true; exists t'; reflexivity).
    congruence.
Qed.

(** Without a fence there is nothing to replace. *)
Lemma replace_fences_fixed s : includes s fence = false -> replace_fences s = s.
Proof.
  induction s as [|c s IH]; intros H; [reflexivity|].
  rewrite includes_unfold in H. apply orb_false_iff in H as [H1 H2].
  rewrite replace_fences_keep by (apply fence_match_None; exact H1).
  rewrite IH by exact H2. reflexivity.
Qed.

Lemma strip_fences_no_fence text : includes (strip_fences text) fence = false.
Proof.
  unfold strip_fences.
  destruct (trim_substring (replace_fences text)) as (a & b & H).
  apply (includes_substring a _ b). rewrite <- H.
  apply replace_fences_no_fence.
Qed.

Lemma strip_fences_fixed s :
  includes s fence = false -> trim s = s -> strip_fences s = s.
Proof.
  intros H1 H2. unfold strip_fences. rewrite replace_fences_fixed by exact H1.
  exact H2.
Qed.

(** A fence-free text followed by a line feed is copied up to the line
    feed: no match can begin inside it. *)
Lemma replace_fences_line u v :
  includes u fence = false ->
  replace_fences (u ++ 10 :: v) = u ++ replace_fences (10 :: v).
Proof.
  induction u as [|c u IH]; intros H; [reflexivity|].
  rewrite includes_unfold in H. apply orb_false_iff in H as [H1 H2].
  simpl app. rewrite replace_fences_keep.
  - rewrite IH by exact H2. reflexivity.
  - apply fence_match_None.
    destruct (startsWith (c :: u ++ 10 :: v) fence) eqn:S; [|reflexivity].
    apply startsWith_true in S as [r Hr].
    assert (startsWith (c :: u) fence = true) as S'; [|congruence].
    apply startsWith_true.
    destruct u as [|d [|e u]]; simpl in Hr; inversion Hr; subst.
    exists u. reflexivity.
Qed.

Lemma strip_fences_fenced tag body :
  tag = [] \/ tag = js "json" ->
  includes body fence = false -> trim body = body ->
  strip_fences (fenced tag body) = body.
Proof.
  intros Htag H1 H2. unfold strip_fences, fenced.
  rewrite (replace_fences_match _ (body ++ 10 :: fence)).
  - rewrite replace_fences_line by exact H1.
    change (replace_fences (10 :: fence)) with [10].
    apply trim_line_feed. exact H2.
  - unfold fence_match. rewrite drop_prefix_app.
    destruct Htag as [-> | ->]; reflexivity.
Qed.

(** C9. Fence stripping is idempotent: stripping an already stripped text
    returns it unchanged, for every text; hence a response wrapped in a
    fenced block (with or without the [json] tag) and the unwrapped
    response give the same text to [JSON.parse]. *)
Theorem strip_fences_idempotent :
  forall text : jsstring,
    strip_fences (strip_fences text) = strip_fences text
    /\ strip_fences (fenced [] (strip_fences text)) = strip_fences text
    /\ strip_fences (fenced (js "json") (strip_fences text)) = strip_fences text.
Proof.
  intros text.
  assert (includes (strip_fences text) fence = false) as H1
    by apply strip_fences_no_fence.
  assert (trim (strip_fences text) = strip_fences text) as H2
    by apply trim_idempotent.
  repeat split.
  - apply strip_fences_fixed; assumption.
  - apply strip_fences_fenced; auto.
  - apply strip_fences_fenced; auto.
Qed.

(* ===================================================================== *)
(** * Running actions *)
(* ===================================================================== *)

Lemma bind_Return {A B} (m : M A) (k : A -> M B) w a w' :
  m w = (Return a, w') -> bind m k w = k a w'.
Proof. intros H. unfold bind. rewrite H. reflexivity. Qed.

Lemma bind_Throw {A B} (m : M A) (k : A -> M B) w e w' :
  m w = (Throw e, w') -> bind m k w = (Throw e, w').
Proof. intros H. unfold bind. rewrite H. reflexivity. Qed.

Lemma try_catch_Return {A} (m : M A) h w a w' :
  m w = (Return a, w') -> try_catch m h w = (Return a, w').
Proof. intros H. unfold try_catch. rewrite H. reflexivity. Qed.

Lemma try_catch_Throw {A} (m : M A) h w e w' :
  m w = (Throw e, w') -> try_catch m h w = h e w'.
Proof. intros H. unfold try_catch. rewrite H. reflexivity. Qed.

Lemma log_log e1 e2 w : log e2 (log e1 w) = log (e1 ++ e2) w.
Proof. unfold log. simpl. rewrite <- app_assoc. reflexivity. Qed.

Lemma users_log evs w : users (log evs w) = users w.
Proof. reflexivity. Qed.

Lemma cars_log evs w : cars (log evs w) = cars w.
Proof. reflexivity. Qed.

Lemma bucket_log evs w : bucket (log evs w) = bucket w.
Proof. reflexivity. Qed.

Lemma trace_log evs w : trace (log evs w) = trace w ++ evs.
Proof. reflexivity. Qed.

Lemma trace_set_cars cs w : trace (set_cars cs w) = trace w.
Proof. reflexivity. Qed.

Lemma cars_set_cars cs w : cars (set_cars cs w) = cs.
Proof. reflexivity. Qed.

Lemma trace_set_bucket b w : trace (set_bucket b w) = trace w.
Proof. reflexivity. Qed.

Lemma cars_set_bucket b w : cars (set_bucket b w) = cars w.
Proof. reflexivity. Qed.

Create Rewrite HintDb world.
#[global] Hint Rewrite users_log cars_log bucket_log trace_log log_log
  trace_set_cars cars_set_cars trace_set_bucket cars_set_bucket : world.

(** [in_trace]: an event is among those recorded. *)
Ltac in_trace :=
  cbn [fst snd]; autorewrite with world; rewrite ?in_app_iff; simpl; auto 12.

Lemma log_nil w : log [] w = w.
Proof. destruct w. unfold log. simpl. rewrite app_nil_r. reflexivity. Qed.

Lemma find_existsb {A} (f : A -> bool) l :
  existsb f l = match find f l with Some _ => true | None => false end.
Proof.
  induction l as [|a l IH]; simpl; [reflexivity|].
  destruct (f a); simpl; [reflexivity | exact IH].
Qed.

Lemma find_filter_negb {A} (f : A -> bool) l :
  find f (filter (fun a => negb (f a)) l) = None.
Proof.
  induction l as [|a l IH]; simpl; [reflexivity|].
  destruct (f a) eqn:E; simpl; [exact IH|]. rewrite E. exact IH.
Qed.

(** ** The calls, one by one *)

Lemma emit_run ev w : emit ev w = (Return tt, log [ev] w).
Proof. reflexivity. Qed.

Lemma db_car_findUnique_run id w :
  db_car_findUnique id w
  = (Return (find (has_id id) (cars w)), log [EvCarFindUnique id] w).
Proof. reflexivity. Qed.

Lemma db_car_delete_found id w :
  existsb (has_id id) (cars w) = true ->
  db_car_delete id w
  = (Return tt,
     set_cars (filter (fun c => negb (has_id id c)) (cars w))
              (log [EvCarDelete id] w)).
Proof.
  intros H. unfold db_car_delete, bind, emit. simpl. rewrite ?cars_log, H.
  reflexivity.
Qed.

Lemma db_car_update_found id d w :
  existsb (has_id id) (cars w) = true ->
  db_car_update id d w
  = (Return tt,
     set_cars (map (fun c => if has_id id c then apply_update d c else c) (cars w))
              (log [EvCarUpdate id d] w)).
Proof.
  intros H. unfold db_car_update, bind, emit. simpl. rewrite ?cars_log, H.
  reflexivity.
Qed.

Lemma db_car_update_missing id d w :
  existsb (has_id id) (cars w) = false ->
  db_car_update id d w = (Throw record_not_found, log [EvCarUpdate id d] w).
Proof.
  intros H. unfold db_car_update, bind, emit. simpl. rewrite ?cars_log, H.
  reflexivity.
Qed.

(** [bind_with H]: run the first call of a sequence by the equation [H]. *)
Ltac bind_with H :=
  erewrite bind_Return; [| solve [apply H | eapply H; eassumption]].

(** ** The identity check *)

Lemma identity_check_pass E w :
  authenticated E w = true ->
  identity_check E w = (Return tt, log (identity_events E) w).
Proof.
  unfold authenticated. intros H. apply andb_true_iff in H as [H1 H2].
  unfold identity_check, auth, db_user_findUnique, bind, emit, ret, throw.
  rewrite H1. simpl. rewrite find_existsb in H2.
  destruct (find _ (users w)); [|discriminate].
  rewrite log_log. reflexivity.
Qed.

Lemma identity_check_fail E w :
  authenticated E w = false ->
  exists e evs,
    identity_check E w = (Throw e, log evs w)
    /\ forallb is_identity_call evs = true
    /\ (e = new_Error (js "Unauthorized!") \/ e = new_Error (js "User not found")).
Proof.
  unfold authenticated. intros H.
  unfold identity_check, auth, db_user_findUnique, bind, emit, ret, throw.
  destruct (truthy (auth_userId E)) eqn:H1; simpl in *.
  - rewrite find_existsb in H. destruct (find _ (users w)); [discriminate|].
    rewrite log_log.
    eexists _, _. split; [reflexivity|]. split; [reflexivity|].
    right. reflexivity.
  - eexists _, _. split; [reflexivity|]. split; [reflexivity|].
    left. reflexivity.
Qed.

(* ===================================================================== *)
(** * deleteCar *)
(* ===================================================================== *)

Lemma storage_path_pure E images w :
  exists c, map_M (storage_path E) images w = (c, w).
Proof.
  induction images as [|u images [c IH]]; simpl.
  - eexists. reflexivity.
  - unfold bind at 1. unfold storage_path at 1. unfold bind at 1, lift.
    destruct (URL_pathname E u) as [p|e].
    + unfold ret at 1. unfold bind. rewrite IH.
      destruct c; eexists; reflexivity.
    + eexists. reflexivity.
Qed.

(** Whatever the storage client does, the removal of the images completes
    normally and leaves the tables alone. *)
Lemma remove_images_returns E images w :
  exists w', remove_images E images w = (Return tt, w')
             /\ cars w' = cars w /\ users w' = users w.
Proof.
  unfold remove_images, supabase_createClient, console, try_catch, bind, emit, lift.
  destruct (createClient E) as [[]|e]; simpl;
    [|eexists; split; [reflexivity | split; reflexivity]].
  destruct (storage_path_pure E images (log [EvCreateClient] w)) as [c Hc].
  rewrite Hc. destruct c as [paths|e]; simpl;
    [|eexists; split; [reflexivity | split; reflexivity]].
  destruct (0 <? length (filter_Boolean paths))%nat; simpl;
    [|eexists; split; [reflexivity | split; reflexivity]].
  unfold supabase_remove, bind, emit. simpl.
  destruct (storage_remove E (filter_Boolean paths)) as [[msg|]|e]; simpl;
    eexists; (split; [reflexivity | split; reflexivity]).
Qed.

(** A client that cannot be created is reported on the console. *)
Lemma remove_images_client_throws E images w e :
  createClient E = Throw e ->
  remove_images E images w =
  (Return tt,
   log [EvCreateClient;
        EvConsole console_error_
          [LogString (js "Error with storage operations:"); LogError e]] w).
Proof.
  intros H.
  unfold remove_images, supabase_createClient, console, try_catch, bind, emit, lift.
  rewrite H. simpl. rewrite log_log. reflexivity.
Qed.

(** A removal that the storage refuses is reported on the console. *)
Lemma remove_images_refused E images w paths msg :
  createClient E = Return tt ->
  map_M (storage_path E) images (log [EvCreateClient] w)
  = (Return paths, log [EvCreateClient] w) ->
  filter_Boolean paths <> [] ->
  storage_remove E (filter_Boolean paths) = Return (Some msg) ->
  remove_images E images w =
  (Return tt,
   log [EvCreateClient; EvStorageRemove (filter_Boolean paths);
        EvConsole console_error_
          [LogString (js "Error deleting images:"); LogError (new_Error msg)]] w).
Proof.
  intros H1 H2 H3 H4.
  unfold remove_images, supabase_createClient, console, try_catch, bind, emit, lift.
  rewrite H1. simpl. rewrite H2.
  destruct (filter_Boolean paths) as [|p ps] eqn:Ep; [congruence|].
  simpl. unfold supabase_remove, bind, emit. simpl. rewrite H4. simpl.
  rewrite !log_log. reflexivity.
Qed.

(** The storage paths of image URLs that all parse. *)
Lemma map_M_storage_path_parsed E images w :
  forall pathnames,
    map (URL_pathname E) images = map Return pathnames ->
    map_M (storage_path E) images w
    = (Return (map car_images_match pathnames), w).
Proof.
  induction images as [|u images IH]; intros [|p pathnames] H;
    try discriminate H; [reflexivity|].
  simpl in H. injection H as Hu Hrest.
  simpl. unfold bind at 1. unfold storage_path at 1. unfold bind at 1, lift.
  rewrite Hu. unfold ret at 1. unfold bind at 1.
  rewrite (IH pathnames Hrest). reflexivity.
Qed.

(** The first image URL that does not parse ends the mapping. *)
Lemma map_M_storage_path_throws E before u after e w :
  (forall v, In v before -> exists p, URL_pathname E v = Return p) ->
  URL_pathname E u = Throw e ->
  map_M (storage_path E) (before ++ u :: after) w = (Throw e, w).
Proof.
  intros Hbefore Hu.
  induction before as [|v before IH]; simpl.
  - unfold bind at 1. unfold storage_path at 1. unfold bind at 1, lift.
    rewrite Hu. reflexivity.
  - unfold bind at 1. unfold storage_path at 1. unfold bind at 1, lift.
    destruct (Hbefore v (or_introl eq_refl)) as [p Hp]. rewrite Hp.
    unfold ret at 1. unfold bind at 1.
    rewrite IH by (intros v' Hv'; apply Hbefore; right; exact Hv').
    reflexivity.
Qed.

(** An image URL that does not parse is reported on the console, and no
    removal is asked for. *)
Lemma remove_images_url_throws E before u after e w :
  createClient E = Return tt ->
  (forall v, In v before -> exists p, URL_pathname E v = Return p) ->
  URL_pathname E u = Throw e ->
  remove_images E (before ++ u :: after) w =
  (Return tt,
   log [EvCreateClient;
        EvConsole console_error_
          [LogString (js "Error with storage operations:"); LogError e]] w).
Proof.
  intros H1 H2 H3.
  unfold remove_images, supabase_createClient, console, try_catch, bind, emit, lift.
  rewrite H1. simpl.
  rewrite (map_M_storage_path_throws E before u after e _ H2 H3).
  rewrite log_log. reflexivity.
Qed.

(** A removal that throws is reported on the console. *)
Lemma remove_images_remove_throws E images w paths e :
  createClient E = Return tt ->
  map_M (storage_path E) images (log [EvCreateClient] w)
  = (Return paths, log [EvCreateClient] w) ->
  filter_Boolean paths <> [] ->
  storage_remove E (filter_Boolean paths) = Throw e ->
  remove_images E images w =
  (Return tt,
   log [EvCreateClient; EvStorageRemove (filter_Boolean paths);
        EvConsole console_error_
          [LogString (js "Error with storage operations:"); LogError e]] w).
Proof.
  intros H1 H2 H3 H4.
  unfold remove_images, supabase_createClient, console, try_catch, bind, emit, lift.
  rewrite H1. simpl. rewrite H2.
  destruct (filter_Boolean paths) as [|p ps] eqn:Ep; [congruence|].
  simpl. unfold supabase_remove, bind, emit. simpl. rewrite H4. simpl.
  rewrite !log_log. reflexivity.
Qed.

(** C7. Deleting an existing car as an authenticated caller removes its row
    and reports success, whatever the storage does; and every failure of
    the storage is written to the error console and goes no further: a
    client that throws, an image URL that does not parse and a removal
    that throws are logged as [Error with storage operations:] with the
    error, a removal that the storage refuses as [Error deleting images:]
    with the error it returned. *)
Theorem deleteCar_existing :
  forall (E : env) (id : jsstring) (w : world) (car : Car.t),
    authenticated E w = true ->
    find (has_id id) (cars w) = Some car ->
    let logged_after (line : list logged) :=
      In (EvConsole console_error_ line) (trace (snd (deleteCar E id w))) in
    fst (deleteCar E id w) = Return (Success tt)
    /\ cars (snd (deleteCar E id w))
       = filter (fun c => negb (has_id id c)) (cars w)
    /\ find (has_id id) (cars (snd (deleteCar E id w))) = None
    /\ (forall e, createClient E = Throw e ->
          logged_after [LogString (js "Error with storage operations:"); LogError e])
    /\ (forall before u after e,
          createClient E = Return tt ->
          Car.images car = before ++ u :: after ->
          (forall v, In v before -> exists p, URL_pathname E v = Return p) ->
          URL_pathname E u = Throw e ->
          logged_after [LogString (js "Error with storage operations:"); LogError e])
    /\ (forall pathnames,
          createClient E = Return tt ->
          map (URL_pathname E) (Car.images car) = map Return pathnames ->
          let filePaths := filter_Boolean (map car_images_match pathnames) in
          filePaths <> [] ->
          (forall msg, storage_remove E filePaths = Return (Some msg) ->
             logged_after [LogString (js "Error deleting images:");
                           LogError (new_Error msg)])
          /\ (forall e, storage_remove E filePaths = Throw e ->
                logged_after [LogString (js "Error with storage operations:");
                              LogError e])).
Proof.
  intros E id w car Hauth Hfind logged_after. subst logged_after.
  assert (existsb (has_id id) (cars w) = true) as Hex
    by (rewrite find_existsb, Hfind; reflexivity).
  set (W := set_cars (filter (fun c => negb (has_id id c)) (cars w))
              (log [EvCarDelete id]
                 (log [EvCarFindUnique id] (log (identity_events E) w)))).
  destruct (remove_images_returns E (Car.images car) W) as (w1 & Hrun & Hcars & _).
  assert (deleteCar E id w
          = (Return (Success tt), log [EvRevalidatePath (js "/admin/cars")] w1))
    as Hdel.
  { unfold deleteCar. apply try_catch_Return.
    bind_with identity_check_pass. bind_with db_car_findUnique_run.
    rewrite cars_log, Hfind.
    bind_with db_car_delete_found. bind_with Hrun. reflexivity. }
  rewrite Hdel. simpl. rewrite Hcars. simpl.
  split; [reflexivity|]. split; [reflexivity|].
  split; [apply find_filter_negb|].
  split; [|split].
  - intros e He. rewrite (remove_images_client_throws _ _ _ _ He) in Hrun.
    inversion Hrun as [Hw1]. in_trace.
  - intros before u after e Hclient Himages Hbefore Hu.
    rewrite Himages, (remove_images_url_throws _ _ _ _ _ _ Hclient Hbefore Hu)
      in Hrun.
    inversion Hrun as [Hw1]. in_trace.
  - intros pathnames Hclient Hparsed Hne.
    pose proof (map_M_storage_path_parsed E (Car.images car)
                  (log [EvCreateClient] W) pathnames Hparsed) as Hpaths.
    split.
    + intros msg Hrefused.
      rewrite (remove_images_refused _ _ _ _ _ Hclient Hpaths Hne Hrefused)
        in Hrun.
      inversion Hrun as [Hw1]. in_trace.
    + intros e Hthrows.
      rewrite (remove_images_remove_throws _ _ _ _ _ Hclient Hpaths Hne Hthrows)
        in Hrun.
      inversion Hrun as [Hw1]. in_trace.
Qed.

(** C8. Deleting a car that does not exist, as an authenticated caller,
    returns the failure [Car not found] without throwing; the only calls
    made are the identity check and the lookup: no storage call and no
    write to the table. *)
Theorem deleteCar_not_found :
  forall (E : env) (id : jsstring) (w : world),
    authenticated E w = true ->
    find (has_id id) (cars w) = None ->
    exists evs,
      deleteCar E id w = (Return (Failure (js "Car not found")), log evs w)
      /\ evs = identity_events E ++ [EvCarFindUnique id]
      /\ existsb is_storage_call evs = false
      /\ existsb is_table_write evs = false.
Proof.
  intros E id w Hauth Hfind. eexists. split; [|split; [reflexivity|]].
  - unfold deleteCar. apply try_catch_Return.
    rewrite (bind_Return _ _ _ _ _ (identity_check_pass E w Hauth)).
    unfold db_car_findUnique, bind, emit, ret. simpl. rewrite Hfind.
    rewrite log_log. reflexivity.
  - split; reflexivity.
Qed.

(* ===================================================================== *)
(** * updateCarStatus *)
(* ===================================================================== *)

Lemma updateCarStatus_found E id arg w :
  authenticated E w = true ->
  existsb (has_id id) (cars w) = true ->
  updateCarStatus E id arg w
  = (Return (Success tt),
     log [EvRevalidatePath (js "/admin/cars")]
       (set_cars
          (map (fun c => if has_id id c then apply_update (build_updateData arg) c
                         else c) (cars w))
          (log [EvCarUpdate id (build_updateData arg)]
             (log (identity_events E) w)))).
Proof.
  intros Hauth Hex. unfold updateCarStatus. apply try_catch_Return.
  bind_with identity_check_pass. bind_with db_car_update_found. reflexivity.
Qed.

Lemma updateCarStatus_missing E id arg w :
  authenticated E w = true ->
  existsb (has_id id) (cars w) = false ->
  updateCarStatus E id arg w
  = (Return (Failure (message record_not_found)),
     log (identity_events E
          ++ [EvCarUpdate id (build_updateData arg);
              EvConsole console_error_
                [LogString (js "Error updating car status:");
                 LogError record_not_found]]) w).
Proof.
  intros Hauth Hex. unfold updateCarStatus.
  erewrite try_catch_Throw; cycle 1.
  - bind_with identity_check_pass. erewrite bind_Throw; [reflexivity|].
    apply db_car_update_missing. exact Hex.
  - unfold console. bind_with emit_run. rewrite !log_log. reflexivity.
Qed.

Lemma map_status_update id b l :
  map Car.status
    (map (fun c => if has_id id c
                   then apply_update {| upd_status := None; upd_featured := Some b |} c
                   else c) l)
  = map Car.status l.
Proof.
  rewrite map_map. apply map_ext. intros c. destruct (has_id id c); reflexivity.
Qed.

Lemma map_featured_update id s l :
  map Car.featured
    (map (fun c => if has_id id c
                   then apply_update {| upd_status := Some s; upd_featured := None |} c
                   else c) l)
  = map Car.featured l.
Proof.
  rewrite map_map. apply map_ext. intros c. destruct (has_id id c); reflexivity.
Qed.

(** C6. An authenticated [updateCarStatus(id, {featured: b})] sends an
    update that holds [featured] only and leaves the [status] of every row
    as it was; [updateCarStatus(id, {status: s})] sends an update that holds
    [status] only and leaves every [featured] as it was. *)
Theorem updateCarStatus_partial :
  forall (E : env) (id : jsstring) (w : world),
    authenticated E w = true ->
    (forall b : bool,
        let arg := {| status := None; featured := Some b |} in
        let w' := snd (updateCarStatus E id arg w) in
        build_updateData arg = {| upd_status := None; upd_featured := Some b |}
        /\ In (EvCarUpdate id {| upd_status := None; upd_featured := Some b |})
              (trace w')
        /\ map Car.status (cars w') = map Car.status (cars w)
        /\ map Car.id (cars w') = map Car.id (cars w))
    /\ (forall s : jsstring,
        let arg := {| status := Some s; featured := None |} in
        let w' := snd (updateCarStatus E id arg w) in
        build_updateData arg = {| upd_status := Some s; upd_featured := None |}
        /\ In (EvCarUpdate id {| upd_status := Some s; upd_featured := None |})
              (trace w')
        /\ map Car.featured (cars w') = map Car.featured (cars w)
        /\ map Car.id (cars w') = map Car.id (cars w)).
Proof.
  intros E id w Hauth. split.
  - intros b arg w'. subst w'. split; [reflexivity|].
    destruct (existsb (has_id id) (cars w)) eqn:Hex.
    + rewrite (updateCarStatus_found _ _ _ _ Hauth Hex).
      split; [in_trace|]. cbn [snd]. autorewrite with world.
      split; [apply map_status_update|].
      rewrite map_map. apply map_ext. intros c.
      destruct (has_id id c); reflexivity.
    + rewrite (updateCarStatus_missing _ _ _ _ Hauth Hex).
      split; [in_trace|]. split; reflexivity.
  - intros s arg w'. subst w'. split; [reflexivity|].
    destruct (existsb (has_id id) (cars w)) eqn:Hex.
    + rewrite (updateCarStatus_found _ _ _ _ Hauth Hex).
      split; [in_trace|]. cbn [snd]. autorewrite with world.
      split; [apply map_featured_update|].
      rewrite map_map. apply map_ext. intros c.
      destruct (has_id id c); reflexivity.
    + rewrite (updateCarStatus_missing _ _ _ _ Hauth Hex).
      split; [in_trace|]. split; reflexivity.
Qed.

(* ===================================================================== *)
(** * getFeaturedCars *)
(* ===================================================================== *)

Lemma insert_desc_In c l x : In x (insert_desc c l) <-> x = c \/ In x l.
Proof.
  induction l as [|d l IH]; simpl.
  - split; intros [H|H]; auto.
  - destruct (Car.createdAt d <? Car.createdAt c); simpl.
    + split; intros [H|H]; auto.
    + rewrite IH. split; intros H; intuition.
Qed.

Lemma orderBy_In l x : In x (orderBy_createdAt_desc l) <-> In x l.
Proof.
  induction l as [|c l IH]; simpl; [reflexivity|].
  rewrite insert_desc_In, IH. split; intros [H|H]; auto.
Qed.

Lemma insert_desc_sorted c l :
  StronglySorted newer_or_same l ->
  StronglySorted newer_or_same (insert_desc c l).
Proof.
  induction 1 as [|d l Hs IH Hd]; simpl.
  - constructor; constructor.
  - destruct (N.ltb_spec (Car.createdAt d) (Car.createdAt c)) as [Hlt|Hge].
    + constructor; [constructor; assumption|].
      constructor; [unfold newer_or_same; lia|].
      rewrite Forall_forall in *. intros x Hx. specialize (Hd x Hx).
      unfold newer_or_same in *. lia.
    + constructor; [exact IH|].
      rewrite Forall_forall in *. intros x Hx.
      apply insert_desc_In in Hx as [->|Hx]; [exact Hge | exact (Hd x Hx)].
Qed.

Lemma orderBy_sorted l : StronglySorted newer_or_same (orderBy_createdAt_desc l).
Proof.
  induction l as [|c l IH]; simpl; [constructor|].
  apply insert_desc_sorted. exact IH.
Qed.

Lemma firstn_In {A} (x : A) n : forall l, In x (firstn n l) -> In x l.
Proof.
  induction n as [|n IH]; intros [|a l]; simpl; try tauto.
  intros [H|H]; [left; exact H | right; apply IH; exact H].
Qed.

Lemma firstn_sorted {A} (R : A -> A -> Prop) n :
  forall l, StronglySorted R l -> StronglySorted R (firstn n l).
Proof.
  induction n as [|n IH]; intros l Hs; simpl; [constructor|].
  destruct Hs as [|a l Hs Ha]; [constructor|].
  constructor; [apply IH; exact Hs|].
  rewrite Forall_forall in *. intros x Hx. apply Ha.
  apply (firstn_In _ _ _ Hx).
Qed.

Lemma featured_available_spec c :
  featured_available c = true <->
  Car.featured c = true /\ Car.status c = js "AVAILABLE".
Proof.
  unfold featured_available. rewrite andb_true_iff, str_eqb_eq. reflexivity.
Qed.

(** C10. [getFeaturedCars(limit)] returns the serialization of at most
    [limit] rows (3 when omitted), each of them a row of the table with
    [featured = true] and [status = "AVAILABLE"], newest first; the only
    call it makes is the query: no identity check precedes it. *)
Theorem getFeaturedCars_spec :
  forall (serialized : Type) (serializeCarData : Car.t -> serialized)
         (limit : option nat) (w : world),
    exists rows,
      getFeaturedCars serialized serializeCarData limit w
      = (Return (map serializeCarData rows), log [EvCarFindMany] w)
      /\ (length (map serializeCarData rows)
          <= match limit with Some n => n | None => 3 end)%nat
      /\ Forall (fun c => Car.featured c = true
                          /\ Car.status c = js "AVAILABLE"
                          /\ In c (cars w)) rows
      /\ StronglySorted newer_or_same rows
      /\ existsb is_identity_call [EvCarFindMany] = false.
Proof.
  intros serialized serializeCarData limit w.
  set (n := match limit with Some n => n | None => 3%nat end).
  exists (firstn n (orderBy_createdAt_desc (filter featured_available (cars w)))).
  split; [reflexivity|]. split; [|split; [|split]].
  - rewrite length_map. apply firstn_le_length.
  - apply Forall_forall. intros c Hc. apply firstn_In in Hc.
    rewrite orderBy_In in Hc. apply filter_In in Hc as [Hin Hf].
    apply featured_available_spec in Hf as [H1 H2]. auto.
  - apply firstn_sorted. apply orderBy_sorted.
  - reflexivity.
Qed.

(* ===================================================================== *)
(** * The extractors *)
(* ===================================================================== *)

Lemma model_generateContent_run E image p w :
  model_generateContent E image p w
  = (generateContent E image p, log [EvGenerateContent image p] w).
Proof. reflexivity. Qed.

Lemma filter_M_cons {A} (f : A -> M bool) a l w :
  filter_M f (a :: l) w
  = match f a w with
    | (Return keep, w1) =>
        match filter_M f l w1 with
        | (Return rest, w2) => (Return (if keep then a :: rest else rest), w2)
        | (Throw e, w2) => (Throw e, w2)
        end
    | (Throw e, w1) => (Throw e, w1)
    end.
Proof. reflexivity. Qed.

Lemma filter_M_in_object members fields w :
  filter_M (fun field => present <- in_operator field (JObject members) ;;
                         ret (negb present)) fields w
  = (Return (filter (fun field =>
                       negb (existsb (fun m => str_eqb (fst m) field) members))
                    fields), w).
Proof.
  induction fields as [|f fields IH]; [reflexivity|].
  rewrite filter_M_cons.
  change ((present <- in_operator f (JObject members) ;; ret (negb present)) w)
    with (@Return bool (negb (existsb (fun m => str_eqb (fst m) f) members)), w).
  cbv beta iota. rewrite IH. simpl.
  destruct (existsb (fun m => str_eqb (fst m) f) members); reflexivity.
Qed.

Lemma validation_object members w :
  validation (JObject members) w
  = (if (0 <? length (missing_fields members))%nat
     then Throw (new_Error (js "AI response missing required fields: "
                            +++ join (js ", ") (missing_fields members)))
     else Return (Success (JObject members)), w).
Proof.
  unfold validation. bind_with filter_M_in_object.
  fold (missing_fields members).
  destruct (0 <? length (missing_fields members))%nat; reflexivity.
Qed.

Lemma validation_complete v w :
  exists c, validation v w = (c, w)
            /\ match c with
               | Return r => complete v = true /\ r = Success v
               | Throw _ => complete v = false
               end.
Proof.
  destruct v as [| b | n d | s | items | members];
    try (eexists; split; [reflexivity | reflexivity]).
  rewrite validation_object. unfold complete.
  destruct (missing_fields members) as [|f fs];
    eexists; (split; [reflexivity|]); simpl; auto.
Qed.

(** The full-listing extractor on a response that parses: success on a
    complete object and the fixed failure otherwise; it never throws and
    never reports success on a value that lacks a required key. *)
Lemma processCarImageWithAI_parsed E file w text v :
  truthy (GEMINI_API_KEY E) = true ->
  generateContent E (imagePart_of file) FullListingPrompt = Return text ->
  JSON_parse E (strip_fences text) = Return v ->
  exists evs,
    processCarImageWithAI E file w
    = (Return (if complete v then Success v
               else Failure (js "Failed to parse AI response")),
       log evs w).
Proof.
  intros Hkey Hgen Hparse.
  destruct (validation_complete v
              (log [EvGenerateContent (imagePart_of file) FullListingPrompt] w))
    as (c & Hval & Hc).
  unfold processCarImageWithAI. rewrite Hkey. cbn [negb].
  unfold try_catch at 1. unfold bind at 1.
  rewrite model_generateContent_run, Hgen.
  unfold try_catch at 1. unfold bind at 1. unfold lift at 1. rewrite Hparse.
  rewrite Hval. destruct c as [r|e].
  - destruct Hc as [-> ->]. eexists. reflexivity.
  - rewrite Hc. unfold console, bind, emit, ret. rewrite log_log.
    eexists. rewrite log_log. reflexivity.
Qed.

(** What the caller and the console get when keys are missing. *)
Lemma processCarImageWithAI_missing_fields E file w text members :
  truthy (GEMINI_API_KEY E) = true ->
  generateContent E (imagePart_of file) FullListingPrompt = Return text ->
  JSON_parse E (strip_fences text) = Return (JObject members) ->
  missing_fields members <> [] ->
  processCarImageWithAI E file w
  = (Return (Failure (js "Failed to parse AI response")),
     log [EvGenerateContent (imagePart_of file) FullListingPrompt;
          EvConsole console_error_
            [LogString (js "Failed to parse AI response:");
             LogError (new_Error (js "AI response missing required fields: "
                                  +++ join (js ", ") (missing_fields members)))];
          EvConsole console_log_
            [LogString (js "Raw response:"); LogString text]] w).
Proof.
  intros Hkey Hgen Hparse Hmiss.
  unfold processCarImageWithAI. rewrite Hkey. cbn [negb].
  unfold try_catch at 1. unfold bind at 1.
  rewrite model_generateContent_run, Hgen.
  unfold try_catch at 1. unfold bind at 1. unfold lift at 1. rewrite Hparse.
  rewrite validation_object.
  destruct (missing_fields members) as [|f fs]; [congruence|].
  cbn [length Nat.ltb Nat.leb]. unfold console, bind, emit, ret.
  rewrite !log_log. reflexivity.
Qed.

(** The full-listing extractor on a response that does not parse. *)
Lemma processCarImageWithAI_not_json E file w text e :
  truthy (GEMINI_API_KEY E) = true ->
  generateContent E (imagePart_of file) FullListingPrompt = Return text ->
  JSON_parse E (strip_fences text) = Throw e ->
  processCarImageWithAI E file w
  = (Return (Failure (js "Failed to parse AI response")),
     log [EvGenerateContent (imagePart_of file) FullListingPrompt;
          EvConsole console_error_
            [LogString (js "Failed to parse AI response:"); LogError e];
          EvConsole console_log_
            [LogString (js "Raw response:"); LogString text]] w).
Proof.
  intros Hkey Hgen Hparse.
  unfold processCarImageWithAI. rewrite Hkey. cbn [negb].
  unfold try_catch at 1. unfold bind at 1.
  rewrite model_generateContent_run, Hgen.
  unfold try_catch at 1. unfold bind at 1. unfold lift at 1. rewrite Hparse.
  unfold console, bind, emit, ret. rewrite !log_log. reflexivity.
Qed.

(** The search-hint extractor on a response that does not parse: its
    handler fails on the undeclared [parseError], and the outer handler
    turns that into a thrown error. *)
Lemma processImageSearch_not_json E file w text e :
  aj_protect E = Allowed ->
  truthy (GEMINI_API_KEY E) = true ->
  generateContent E (imagePart_of file) SearchHintPrompt = Return text ->
  JSON_parse E (strip_fences text) = Throw e ->
  processImageSearch E file w
  = (Throw (new_Error (js "AI search error:")),
     log [EvProtect; EvGenerateContent (imagePart_of file) SearchHintPrompt] w).
Proof.
  intros Hallow Hkey Hgen Hparse.
  unfold processImageSearch, protect. rewrite Hkey, Hallow. cbn [negb].
  unfold try_catch at 1. unfold bind at 1. unfold bind at 1.
  unfold emit at 1. unfold ret at 1. unfold bind at 1. unfold ret at 1.
  unfold bind at 1.
  rewrite model_generateContent_run, Hgen.
  unfold try_catch at 1. unfold bind at 1. unfold lift at 1. rewrite Hparse.
  unfold undeclared, bind, throw. rewrite log_log. reflexivity.
Qed.

(** C3. The response [{"make":"Toyota"}] is valid JSON without ten of the
    required keys. The extractor returns a failure and does not throw, but
    the [error] it returns is the fixed text [Failed to parse AI response];
    the message that names the missing keys only reaches the console. *)
Theorem missing_fields_named_only_on_console :
  processCarImageWithAI (nominal_env incomplete_response) sample_file (world_with [])
  = (Return (Failure (js "Failed to parse AI response")),
     log [EvGenerateContent (imagePart_of sample_file) FullListingPrompt;
          EvConsole console_error_
            [LogString (js "Failed to parse AI response:");
             LogError (new_Error (js "AI response missing required fields: model, year, color, bodyType, price, mileage, fuelType, transmission, description, confidence"))];
          EvConsole console_log_
            [LogString (js "Raw response:"); LogString incomplete_response]]
       (world_with []))
  /\ Forall (fun field => includes (js "Failed to parse AI response") field = false)
            requiredFields.
Proof.
  split.
  - vm_compute. reflexivity.
  - repeat constructor.
Qed.

(** C4. On the response [not json] the full-listing extractor returns the
    tagged failure, whereas the search-hint extractor throws
    [AI search error:]: its handler reads [parseError], which is not
    declared there. *)
Theorem search_hint_throws_on_non_json :
  processCarImageWithAI (nominal_env (js "not json")) sample_file (world_with [])
  = (Return (Failure (js "Failed to parse AI response")),
     log [EvGenerateContent (imagePart_of sample_file) FullListingPrompt;
          EvConsole console_error_
            [LogString (js "Failed to parse AI response:");
             LogError Reference.syntax_error];
          EvConsole console_log_
            [LogString (js "Raw response:"); LogString (js "not json")]]
       (world_with []))
  /\ processImageSearch (nominal_env (js "not json")) sample_file (world_with [])
     = (Throw (new_Error (js "AI search error:")),
        log [EvProtect;
             EvGenerateContent (imagePart_of sample_file) SearchHintPrompt]
          (world_with [])).
Proof.
  split.
  - apply processCarImageWithAI_not_json; reflexivity.
  - apply (processImageSearch_not_json _ _ _ (js "not json") Reference.syntax_error);
      reflexivity.
Qed.

(** The claim C5 fails as it is stated: under the denial
    [remaining = 0, reset = 30] the error that reaches the caller has the
    message [AI search error:], which shows neither number. *)
Lemma rate_limit_hints_not_carried :
  aj_protect rate_limited_env = Denied (RateLimit 0 30)
  /\ fst (processImageSearch rate_limited_env sample_file (world_with []))
     = Throw (new_Error (js "AI search error:"))
  /\ carries (new_Error (js "AI search error:")) 0 = false
  /\ carries (new_Error (js "AI search error:")) 30 = false.
Proof. repeat split; vm_compute; reflexivity. Qed.

(** The error thrown under a denial does not depend on the hints. *)
Lemma rate_limit_error_independent E file w remaining reset :
  aj_protect E = Denied (RateLimit remaining reset) ->
  fst (processImageSearch E file w)
  = fst (processImageSearch rate_limited_env file w).
Proof.
  intros H. unfold processImageSearch, protect. rewrite H. reflexivity.
Qed.

(** C5 (amended). When the admission check denies the request for rate
    limiting, [processImageSearch] fails by throwing, the AI provider is
    never called, and the remaining quota and the reset time of the denial
    are written to the error console under [RATE_LIMIT_EXCEDDED]; the error
    thrown is the same for every such denial, so it does not carry them. *)
Theorem processImageSearch_rate_limited :
  forall (E : env) (file : File) (w : world) (remaining reset : N),
    aj_protect E = Denied (RateLimit remaining reset) ->
    exists e evs,
      processImageSearch E file w = (Throw e, log evs w)
      /\ existsb is_provider_call evs = false
      /\ evs = [EvProtect;
                EvConsole console_error_
                  [LogObject (rate_limit_report remaining reset)]]
      /\ (forall E' file' w' remaining' reset',
             aj_protect E' = Denied (RateLimit remaining' reset') ->
             fst (processImageSearch E' file' w') = Throw e).
Proof.
  intros E file w remaining reset H.
  eexists _, _. split; [|split; [|split; [reflexivity|]]].
  - unfold processImageSearch, protect. rewrite H.
    unfold try_catch, bind, console, emit, ret, throw. rewrite log_log.
    reflexivity.
  - reflexivity.
  - intros E' file' w' remaining' reset' H'.
    unfold processImageSearch, protect. rewrite H'. reflexivity.
Qed.

Lemma processImageSearch_rate_limited_witness :
  aj_protect rate_limited_env = Denied (RateLimit 0 30)
  /\ exists e evs,
      processImageSearch rate_limited_env sample_file (world_with [])
      = (Throw e, log evs (world_with []))
      /\ existsb is_provider_call evs = false
      /\ evs = [EvProtect;
                EvConsole console_error_ [LogObject (rate_limit_report 0 30)]]
      /\ (forall E' file' w' remaining' reset',
             aj_protect E' = Denied (RateLimit remaining' reset') ->
             fst (processImageSearch E' file' w') = Throw e).
Proof.
  split; [reflexivity|].
  apply (processImageSearch_rate_limited rate_limited_env sample_file
           (world_with []) 0 30).
  reflexivity.
Defined.

(* ===================================================================== *)
(** * addCar *)
(* ===================================================================== *)

Lemma skip_condition b :
  negb (truthy b) || negb (startsWith (template b) (js "data:image/"))
  = negb (valid_image b).
Proof. unfold valid_image. rewrite negb_andb. reflexivity. Qed.

Lemma valid_image_prefix s :
  valid_image (Some s) = true <-> startsWith s (js "data:image/") = true.
Proof.
  unfold valid_image. simpl template. split.
  - intros H. apply andb_true_iff in H as [_ H]. exact H.
  - intros H. rewrite H, andb_true_r.
    apply startsWith_true in H as [r ->]. reflexivity.
Qed.

Lemma split_not_nil sep s : split sep s <> [].
Proof.
  destruct s as [|c s]; simpl; [discriminate|].
  destruct (c =? sep); [discriminate|]. destruct (split sep s); discriminate.
Qed.

(** The payload is defined exactly when the entry has a comma. *)
Lemma payload_comma s : payload s <> None <-> In 44 s.
Proof.
  unfold payload. induction s as [|c s IH]; simpl.
  - split; [congruence | tauto].
  - destruct (N.eqb_spec c 44) as [->|Hc].
    + simpl. pose proof (split_not_nil 44 s).
      destruct (split 44 s); [congruence|]. split; [auto | discriminate].
    + destruct (split 44 s) as [|w ws] eqn:Hs.
      * exfalso. exact (split_not_nil _ _ Hs).
      * simpl in *. rewrite IH. split; [auto|]. intros [H|H]; congruence.
Qed.

(** ** One turn of the loop *)

Lemma upload_image_skip E folderPath i b urls w :
  valid_image b = false ->
  upload_image E folderPath i b urls w = (Return urls, log [skip_warning] w).
Proof.
  intros H. unfold upload_image. rewrite skip_condition, H. reflexivity.
Qed.

Lemma upload_image_stored E folderPath i s p urls w :
  valid_image (Some s) = true ->
  payload s = Some p ->
  storage_upload E (filePath_of E folderPath i s) (Buffer_from_base64 p)
                 (js "image/" +++ fileExtension_of s) = Return None ->
  upload_image E folderPath i (Some s) urls w
  = (Return (urls ++ [url_of E folderPath (i, s)]),
     set_bucket (bucket w ++ [(filePath_of E folderPath i s, Buffer_from_base64 p)])
       (log [EvStorageUpload (filePath_of E folderPath i s) (Buffer_from_base64 p)
                             (js "image/" +++ fileExtension_of s)] w)).
Proof.
  intros Hv Hp Hup. unfold upload_image. rewrite skip_condition, Hv.
  cbn [negb template]. rewrite Hp.
  unfold Buffer_from, supabase_upload, bind, ret, emit. rewrite Hup.
  reflexivity.
Qed.

Lemma upload_image_no_payload E folderPath i s urls w :
  valid_image (Some s) = true ->
  payload s = None ->
  exists e, upload_image E folderPath i (Some s) urls w = (Throw e, w)
            /\ name e = TypeError.
Proof.
  intros Hv Hp. unfold upload_image. rewrite skip_condition, Hv.
  cbn [negb template]. rewrite Hp. eexists. split; reflexivity.
Qed.

(** A turn of the loop never touches the tables. *)
Lemma upload_image_tables E folderPath i b urls w :
  cars (snd (upload_image E folderPath i b urls w)) = cars w
  /\ users (snd (upload_image E folderPath i b urls w)) = users w.
Proof.
  unfold upload_image.
  destruct (negb (truthy b) || negb (startsWith (template b) (js "data:image/")));
    [split; reflexivity|].
  destruct (payload (template b)) as [p|]; [|split; reflexivity].
  unfold Buffer_from, supabase_upload, console, bind, ret, emit, throw.
  destruct (storage_upload E _ _ _) as [[msg|]|e]; split; reflexivity.
Qed.

(** ** The loop *)

Lemma upload_images_cons E folderPath i b rest urls w :
  upload_images E folderPath i (b :: rest) urls w
  = match upload_image E folderPath i b urls w with
    | (Return urls', w') => upload_images E folderPath (S i) rest urls' w'
    | (Throw e, w') => (Throw e, w')
    end.
Proof. reflexivity. Qed.

Lemma upload_images_tables E folderPath images :
  forall i urls w,
    cars (snd (upload_images E folderPath i images urls w)) = cars w
    /\ users (snd (upload_images E folderPath i images urls w)) = users w.
Proof.
  induction images as [|b rest IH]; intros i urls w; [split; reflexivity|].
  rewrite upload_images_cons.
  pose proof (upload_image_tables E folderPath i b urls w) as [Hc Hu].
  destruct (upload_image E folderPath i b urls w) as [[urls'|e] w'];
    simpl in Hc, Hu.
  - destruct (IH (S i) urls' w') as [Hc' Hu']. split; congruence.
  - split; assumption.
Qed.

Lemma upload_images_all_skipped E folderPath images :
  forall i urls w,
    existsb valid_image images = false ->
    upload_images E folderPath i images urls w
    = (Return urls, log (repeat skip_warning (length images)) w).
Proof.
  induction images as [|b rest IH]; intros i urls w H.
  - simpl. rewrite log_nil. reflexivity.
  - simpl in H. apply orb_false_iff in H as [Hb Hrest].
    rewrite upload_images_cons, (upload_image_skip _ _ _ _ _ _ Hb).
    rewrite (IH _ _ _ Hrest), log_log. reflexivity.
Qed.

Lemma accepted_from_sources images :
  forall i, map snd (accepted_from i images) = map template (filter valid_image images).
Proof.
  induction images as [|b rest IH]; intros i; simpl; [reflexivity|].
  rewrite map_app, IH. destruct (valid_image b); reflexivity.
Qed.

Lemma accepted_from_positions images :
  forall i, StronglySorted lt (map fst (accepted_from i images))
            /\ Forall (fun k => (i <= k)%nat) (map fst (accepted_from i images)).
Proof.
  induction images as [|b rest IH]; intros i; simpl.
  - split; constructor.
  - destruct (IH (S i)) as [Hs Hf].
    assert (Forall (fun k => (i <= k)%nat) (map fst (accepted_from (S i) rest)))
      as Hf' by (eapply Forall_impl; [|exact Hf]; intros k Hk; simpl in Hk; lia).
    destruct (valid_image b); simpl.
    + split; [constructor; [exact Hs|] | constructor; [lia | exact Hf']].
      eapply Forall_impl; [|exact Hf]. intros k Hk. simpl in Hk. lia.
    + split; assumption.
Qed.

Lemma accepted_from_length images i :
  length (accepted_from i images) = length (filter valid_image images).
Proof.
  rewrite <- (length_map snd), accepted_from_sources. apply length_map.
Qed.

Lemma accepted_from_nonempty images i :
  existsb valid_image images = true -> accepted_from i images <> [].
Proof.
  intros Hex Hnil. pose proof (accepted_from_length images i) as Hlen.
  rewrite Hnil in Hlen. simpl in Hlen.
  apply existsb_exists in Hex as (b & Hin & Hb).
  assert (In b (filter valid_image images)) as Hf
    by (apply filter_In; split; assumption).
  destruct (filter valid_image images); [contradiction | discriminate].
Qed.

(** When every upload succeeds and every accepted entry has a payload, the
    loop adds the URL of each accepted entry, in order. *)
Lemma upload_images_urls E folderPath :
  (forall p b c, storage_upload E p b c = Return None) ->
  forall images i urls w,
    (forall s, In (Some s) images -> valid_image (Some s) = true -> In 44 s) ->
    exists w',
      upload_images E folderPath i images urls w
      = (Return (urls ++ map (url_of E folderPath) (accepted_from i images)), w')
      /\ map fst (bucket w')
         = map fst (bucket w)
           ++ map (fun p => filePath_of E folderPath (fst p) (snd p))
                  (accepted_from i images).
Proof.
  intros Hup. induction images as [|b rest IH]; intros i urls w Hcomma.
  - exists w. simpl. rewrite !app_nil_r. split; reflexivity.
  - rewrite upload_images_cons. simpl accepted_from.
    assert (forall s, In (Some s) rest -> valid_image (Some s) = true -> In 44 s)
      as Hrest by (intros s Hs; apply Hcomma; right; exact Hs).
    destruct (valid_image b) eqn:Hv.
    + destruct b as [s|]; [|discriminate].
      assert (payload s <> None) as Hp
        by (apply payload_comma, Hcomma; [left; reflexivity | exact Hv]).
      destruct (payload s) as [p|] eqn:Ep; [|congruence].
      rewrite (upload_image_stored _ _ _ _ _ _ _ Hv Ep (Hup _ _ _)).
      match goal with
      | |- context [upload_images _ _ _ _ _ ?W] =>
          destruct (IH (S i) (urls ++ [url_of E folderPath (i, s)]) W Hrest)
            as (w' & Hrun & Hb)
      end.
      exists w'. rewrite Hrun. split.
      * simpl. rewrite <- app_assoc. reflexivity.
      * rewrite Hb. simpl. rewrite map_app, <- app_assoc. reflexivity.
    + rewrite (upload_image_skip _ _ _ _ _ _ Hv).
      destruct (IH (S i) urls (log [skip_warning] w) Hrest) as (w' & Hrun & Hb).
      exists w'. rewrite Hrun. split; [reflexivity | exact Hb].
Qed.

(** C2 (amended). When every upload succeeds, every entry that starts with
    [data:image/] has a comma, and there is at least one such entry, the
    ingestion loop of [addCar] completes; it skips the entries that do not
    start with the prefix and yields exactly one public URL per entry that
    does, in the order of the input. *)
Theorem ingestion_urls :
  forall (E : env) (folderPath : jsstring) (images : list (option jsstring))
         (w : world),
    (forall p b c, storage_upload E p b c = Return None) ->
    (forall s, In (Some s) images ->
               startsWith s (js "data:image/") = true -> In 44 s) ->
    existsb valid_image images = true ->
    exists urls w',
      upload_images E folderPath 0 images [] w = (Return urls, w')
      /\ urls = map (url_of E folderPath) (accepted_from 0 images)
      /\ map snd (accepted_from 0 images) = map template (filter valid_image images)
      /\ StronglySorted lt (map fst (accepted_from 0 images))
      /\ length urls = length (filter valid_image images)
      /\ urls <> [].
Proof.
  intros E folderPath images w Hup Hcomma Hex.
  destruct (upload_images_urls E folderPath Hup images 0 [] w) as (w' & Hrun & _).
  { intros s Hs Hv. apply Hcomma; [exact Hs|]. apply valid_image_prefix. exact Hv. }
  exists (map (url_of E folderPath) (accepted_from 0 images)), w'.
  split; [exact Hrun|]. split; [reflexivity|].
  split; [apply accepted_from_sources|].
  split; [apply accepted_from_positions|].
  split; [rewrite length_map; apply accepted_from_length|].
  intros Hnil. apply map_eq_nil in Hnil.
  exact (accepted_from_nonempty images 0 Hex Hnil).
Qed.

(** ** The whole action *)

Lemma supabase_createClient_run E w :
  supabase_createClient E w = (createClient E, log [EvCreateClient] w).
Proof. reflexivity. Qed.

Lemma db_car_create_run E d w :
  db_car_create E d w
  = if existsb (has_id (new_id d)) (cars w)
    then (Throw (new_Error (js "Unique constraint failed on the fields: (`id`)")),
          log [EvCarCreate d] w)
    else (Return (new_row E d),
          set_cars (cars w ++ [new_row E d]) (log [EvCarCreate d] w)).
Proof.
  unfold db_car_create, bind, emit. rewrite cars_log.
  destruct (existsb (has_id (new_id d)) (cars w)); reflexivity.
Qed.

(** [addCar] once the identity check has passed and the storage client is
    there, by the outcome of the loop. *)
Lemma addCar_after_loop E carData images w :
  authenticated E w = true ->
  createClient E = Return tt ->
  addCar E carData images w
  = match upload_images E (js "cars/" +++ uuidv4 E) 0 images []
            (log (identity_events E ++ [EvCreateClient]) w) with
    | (Return imageUrls, w1) =>
        if (length imageUrls =? 0)%nat
        then (Throw (rethrown (new_Error (js "No valid images were uploaded"))), w1)
        else
          match db_car_create E {| new_id := uuidv4 E; new_fields := carData;
                                   new_images := imageUrls |} w1 with
          | (Return _, w2) =>
              (Return (Success tt), log [EvRevalidatePath (js "/admin/cars")] w2)
          | (Throw e, w2) => (Throw (rethrown e), w2)
          end
    | (Throw e, w1) => (Throw (rethrown e), w1)
    end.
Proof.
  intros Hauth Hclient. unfold addCar, try_catch.
  bind_with identity_check_pass. unfold bind at 1.
  rewrite supabase_createClient_run, Hclient, log_log.
  unfold bind at 1.
  destruct (upload_images _ _ _ _ _ _) as [[imageUrls|e] w1]; [|reflexivity].
  destruct (length imageUrls =? 0)%nat; [reflexivity|].
  unfold bind at 1.
  destruct (db_car_create _ _ _) as [[row|e] w2]; reflexivity.
Qed.

Lemma addCar_client_throws E carData images w e :
  authenticated E w = true ->
  createClient E = Throw e ->
  addCar E carData images w
  = (Throw (rethrown e), log (identity_events E ++ [EvCreateClient]) w).
Proof.
  intros Hauth Hclient. unfold addCar, try_catch.
  bind_with identity_check_pass. unfold bind at 1.
  rewrite supabase_createClient_run, Hclient, log_log. reflexivity.
Qed.

Lemma addCar_identity_fails E carData images w :
  authenticated E w = false ->
  exists e evs,
    addCar E carData images w = (Throw (rethrown e), log evs w)
    /\ forallb is_identity_call evs = true
    /\ (e = new_Error (js "Unauthorized!") \/ e = new_Error (js "User not found")).
Proof.
  intros Hauth.
  destruct (identity_check_fail E w Hauth) as (e & evs & Hrun & Hevs & He).
  exists e, evs. split; [|split; assumption].
  unfold addCar, try_catch. erewrite bind_Throw by exact Hrun. reflexivity.
Qed.

Lemma addCar_all_skipped E carData images w :
  authenticated E w = true ->
  createClient E = Return tt ->
  existsb valid_image images = false ->
  addCar E carData images w
  = (Throw (new_Error (js "Error adding car:No valid images were uploaded")),
     log (identity_events E ++ EvCreateClient
          :: repeat skip_warning (length images)) w).
Proof.
  intros Hauth Hclient Hskip.
  rewrite (addCar_after_loop _ _ _ _ Hauth Hclient).
  rewrite (upload_images_all_skipped _ _ _ _ _ _ Hskip), log_log.
  rewrite <- app_assoc. reflexivity.
Qed.

Lemma identity_calls_write_nothing evs :
  forallb is_identity_call evs = true ->
  existsb is_storage_write evs = false /\ existsb is_table_write evs = false.
Proof.
  induction evs as [|ev evs IH]; simpl; [auto|].
  intros H. apply andb_true_iff in H as [Hev Hevs].
  destruct (IH Hevs) as [H1 H2]. rewrite H1, H2.
  destruct ev; try discriminate; auto.
Qed.

Lemma skip_warnings_write_nothing n :
  existsb is_storage_write (repeat skip_warning n) = false
  /\ existsb is_table_write (repeat skip_warning n) = false.
Proof. induction n as [|n [H1 H2]]; simpl; auto. Qed.

(** A row is only ever created with the URLs the loop returned, and only
    when there is one. *)
Lemma addCar_keeps_images E carData images w :
  Forall has_image (cars w) ->
  Forall has_image (cars (snd (addCar E carData images w))).
Proof.
  intros Hinv. destruct (authenticated E w) eqn:Hauth.
  - destruct (createClient E) as [[]|e] eqn:Hclient.
    + rewrite (addCar_after_loop _ _ _ _ Hauth Hclient).
      pose proof (upload_images_tables E (js "cars/" +++ uuidv4 E) images 0 []
                    (log (identity_events E ++ [EvCreateClient]) w)) as [Hc _].
      destruct (upload_images _ _ _ _ _ _) as [[imageUrls|e] w1]; simpl in Hc;
        [|simpl; rewrite Hc; exact Hinv].
      destruct imageUrls as [|u us]; [simpl; rewrite Hc; exact Hinv|].
      cbn [length Nat.eqb]. rewrite db_car_create_run.
      destruct (existsb _ (cars w1)); simpl; rewrite ?cars_log, Hc;
        [exact Hinv|].
      apply Forall_app. split; [exact Hinv|].
      constructor; [|constructor]. unfold has_image. simpl. discriminate.
    + rewrite (addCar_client_throws _ _ _ _ _ Hauth Hclient). exact Hinv.
  - destruct (addCar_identity_fails E carData images w Hauth)
      as (e & evs & Hrun & _). rewrite Hrun. exact Hinv.
Qed.

(** With uploads that succeed and a fresh identifier, the row is created
    with the URLs of the accepted entries. *)
Lemma addCar_stores_urls E carData images w :
  authenticated E w = true ->
  createClient E = Return tt ->
  (forall p b c, storage_upload E p b c = Return None) ->
  (forall s, In (Some s) images ->
             startsWith s (js "data:image/") = true -> In 44 s) ->
  existsb valid_image images = true ->
  existsb (has_id (uuidv4 E)) (cars w) = false ->
  fst (addCar E carData images w) = Return (Success tt)
  /\ cars (snd (addCar E carData images w))
     = cars w
       ++ [new_row E
             {| new_id := uuidv4 E; new_fields := carData;
                new_images := map (url_of E (js "cars/" +++ uuidv4 E))
                                  (accepted_from 0 images) |}].
Proof.
  intros Hauth Hclient Hup Hcomma Hex Hfresh.
  rewrite (addCar_after_loop _ _ _ _ Hauth Hclient).
  destruct (upload_images_urls E (js "cars/" +++ uuidv4 E) Hup images 0 []
              (log (identity_events E ++ [EvCreateClient]) w))
    as (w1 & Hrun & _).
  { intros s Hs Hv. apply Hcomma; [exact Hs|]. apply valid_image_prefix. exact Hv. }
  pose proof (upload_images_tables E (js "cars/" +++ uuidv4 E) images 0 []
                (log (identity_events E ++ [EvCreateClient]) w)) as [Hc _].
  rewrite Hrun in *. simpl in Hc. cbn [app].
  pose proof (accepted_from_nonempty images 0 Hex) as Hne.
  destruct (accepted_from 0 images) as [|a l] eqn:Ha; [congruence|].
  cbn [map length Nat.eqb].
  rewrite db_car_create_run. cbn [new_id]. rewrite Hc, ?cars_log, Hfresh.
  split; reflexivity.
Qed.

(** The identity check comes before the ingestion: a call without a user id
    stops there, with [Unauthorized!], and never looks at its images. *)
Example addCar_unauthenticated_error :
  existsb valid_image [] = false
  /\ addCar (with_auth None (nominal_env [])) sample_carData [] (world_with [])
     = (Throw (new_Error (js "Error adding car:Unauthorized!")),
        log [EvAuth] (world_with []))
  /\ new_Error (js "Error adding car:Unauthorized!")
     <> new_Error (js "Error adding car:No valid images were uploaded").
Proof.
  split; [reflexivity|]. split; [reflexivity|]. discriminate.
Qed.

(** C1. For a caller that passes the identity check and a storage client
    that is created, a call to [addCar] whose image sequence has no entry
    that starts with [data:image/] fails with the no-valid-images error;
    and whoever calls, such a call fails by throwing, without any upload to
    the storage and without any write to the Car table. So, whatever the
    images, a call to [addCar] leaves every row of the Car table with at
    least one image URL. *)
Theorem addCar_no_valid_images :
  forall (E : env) (carData : CarData.t) (w : world),
    (forall images : list (option jsstring),
        existsb valid_image images = false ->
        (exists e evs,
            addCar E carData images w = (Throw e, log evs w)
            /\ existsb is_storage_write evs = false
            /\ existsb is_table_write evs = false)
        /\ (authenticated E w = true -> createClient E = Return tt ->
            fst (addCar E carData images w)
            = Throw (new_Error (js "Error adding car:No valid images were uploaded"))))
    /\ (forall images : list (option jsstring),
        Forall has_image (cars w) ->
        Forall has_image (cars (snd (addCar E carData images w)))).
Proof.
  intros E carData w. split; [|intros images; apply addCar_keeps_images].
  intros images Hskip. split.
  - destruct (authenticated E w) eqn:Hauth.
    + destruct (createClient E) as [[]|e] eqn:Hclient.
      * rewrite (addCar_all_skipped _ _ _ _ Hauth Hclient Hskip).
        eexists _, _. split; [reflexivity|].
        destruct (skip_warnings_write_nothing (length images)) as [H1 H2].
        rewrite !existsb_app. simpl. rewrite H1, H2. split; reflexivity.
      * rewrite (addCar_client_throws _ _ _ _ _ Hauth Hclient).
        eexists _, _. split; [reflexivity|]. split; reflexivity.
    + destruct (addCar_identity_fails E carData images w Hauth)
        as (e & evs & Hrun & Hevs & _).
      rewrite Hrun. eexists _, _. split; [reflexivity|].
      apply identity_calls_write_nothing. exact Hevs.
  - intros Hauth Hclient.
    rewrite (addCar_all_skipped _ _ _ _ Hauth Hclient Hskip). reflexivity.
Qed.

(* ===================================================================== *)
(** * Concrete runs *)
(* ===================================================================== *)

Lemma addCar_no_valid_images_witness :
  existsb valid_image [Some (js "not-an-image"); None; Some []] = false
  /\ authenticated (nominal_env []) (world_with []) = true
  /\ fst (addCar (nominal_env []) sample_carData
            [Some (js "not-an-image"); None; Some []] (world_with []))
     = Throw (new_Error (js "Error adding car:No valid images were uploaded")).
Proof.
  split; [reflexivity|]. split; [reflexivity|].
  apply (proj1 (addCar_no_valid_images (nominal_env []) sample_carData
                  (world_with []))
           [Some (js "not-an-image"); None; Some []] eq_refl);
    reflexivity.
Defined.

(** The claim C2 fails as it is stated, with uploads that all succeed.
    The loop accepts an entry by its prefix alone: after a well-formed data
    URI, the malformed string [data:image/,AAAA] is not skipped but stored,
    and two URLs come back for one well-formed entry; and the malformed
    string [data:image/png], which has no comma, is not skipped either but
    makes the ingestion throw a [TypeError]. *)
Lemma ingestion_follows_prefix_only :
  (forall p b c, storage_upload (nominal_env []) p b c = Return None)
  /\ map (fun v => spec_data_uri_form (template v)) untyped_images = [true; false]
  /\ (exists urls w',
         upload_images (nominal_env []) (js "cars/car-1") 0 untyped_images []
                       (world_with [])
         = (Return urls, w')
         /\ length urls = 2%nat)
  /\ map (fun v => spec_data_uri_form (template v)) truncated_images = [true; false]
  /\ (exists e w',
         upload_images (nominal_env []) (js "cars/car-1") 0 truncated_images []
                       (world_with [])
         = (Throw e, w')
         /\ name e = TypeError).
Proof.
  split; [reflexivity|]. split; [reflexivity|]. split; [|split; [reflexivity|]].
  - eexists _, _. split; [vm_compute; reflexivity | reflexivity].
  - eexists _, _. split; [vm_compute; reflexivity | reflexivity].
Qed.

(** On the second sequence [addCar] fails after the first object was
    stored, and creates no row. *)
Example addCar_truncated_entry :
  exists e w',
    addCar (nominal_env []) sample_carData truncated_images (world_with [])
    = (Throw e, w')
    /\ cars w' = [] /\ length (bucket w') = 1%nat.
Proof.
  eexists _, _. split; [vm_compute; reflexivity | split; reflexivity].
Qed.

Lemma existsb_In_44 s : existsb (N.eqb 44) s = true -> In 44 s.
Proof.
  intros H. apply existsb_exists in H as (c & Hin & Hc).
  apply N.eqb_eq in Hc. subst c. exact Hin.
Qed.

Lemma ingestion_urls_witness :
  existsb valid_image example_images = true
  /\ exists urls w',
      upload_images (nominal_env []) (js "cars/car-1") 0 example_images []
                    (world_with [])
      = (Return urls, w')
      /\ urls = map (url_of (nominal_env []) (js "cars/car-1"))
                    (accepted_from 0 example_images)
      /\ map snd (accepted_from 0 example_images)
         = map template (filter valid_image example_images)
      /\ StronglySorted lt (map fst (accepted_from 0 example_images))
      /\ length urls = length (filter valid_image example_images)
      /\ urls <> [].
Proof.
  split; [reflexivity|].
  apply (ingestion_urls (nominal_env []) (js "cars/car-1") example_images
           (world_with [])).
  - reflexivity.
  - intros s [H|[H|[H|[]]]] Hp; inversion H; subst s;
      try (apply existsb_In_44; reflexivity); discriminate Hp.
  - reflexivity.
Defined.

(** The example of the specification: the PNG and the JPEG are stored, the
    second entry is skipped with a warning, and the two URLs come in that
    order. *)
Example ingestion_example :
  fst (upload_images (nominal_env []) (js "cars/car-1") 0 example_images []
         (world_with []))
  = Return
      [js "https://demo.supabase.co/storage/v1/object/public/car-images/cars/car-1/image-1700000000000-0.png";
       js "https://demo.supabase.co/storage/v1/object/public/car-images/cars/car-1/image-1700000000002-2.jpeg"].
Proof. vm_compute. reflexivity. Qed.

Lemma updateCarStatus_partial_witness :
  authenticated (nominal_env []) (world_with [listed_car]) = true
  /\ map Car.status
       (cars (snd (updateCarStatus (nominal_env []) (js "car-1")
                     {| status := None; featured := Some true |}
                     (world_with [listed_car]))))
     = [js "AVAILABLE"]
  /\ map Car.featured
       (cars (snd (updateCarStatus (nominal_env []) (js "car-1")
                     {| status := None; featured := Some true |}
                     (world_with [listed_car]))))
     = [true].
Proof.
  split; [reflexivity|]. split.
  - apply (proj1 (updateCarStatus_partial (nominal_env []) (js "car-1")
                    (world_with [listed_car]) eq_refl) true).
  - reflexivity.
Defined.

Lemma deleteCar_existing_witness :
  (authenticated broken_storage_env (world_with [listed_car]) = true
   /\ find (has_id (js "car-1")) (cars (world_with [listed_car])) = Some listed_car
   /\ createClient broken_storage_env = Throw (new_Error (js "fetch failed"))
   /\ fst (deleteCar broken_storage_env (js "car-1") (world_with [listed_car]))
      = Return (Success tt)
   /\ cars (snd (deleteCar broken_storage_env (js "car-1") (world_with [listed_car])))
      = []
   /\ In (EvConsole console_error_
            [LogString (js "Error with storage operations:");
             LogError (new_Error (js "fetch failed"))])
         (trace (snd (deleteCar broken_storage_env (js "car-1")
                        (world_with [listed_car])))))
  /\ (storage_remove refused_removal_env [listed_path]
      = Return (Some (js "Object not found"))
      /\ fst (deleteCar refused_removal_env (js "car-1") (world_with [listed_car]))
         = Return (Success tt)
      /\ cars (snd (deleteCar refused_removal_env (js "car-1")
                      (world_with [listed_car])))
         = []
      /\ In (EvConsole console_error_
               [LogString (js "Error deleting images:");
                LogError (new_Error (js "Object not found"))])
            (trace (snd (deleteCar refused_removal_env (js "car-1")
                           (world_with [listed_car])))))
  /\ (storage_remove throwing_removal_env [listed_path]
      = Throw (new_Error (js "fetch failed"))
      /\ fst (deleteCar throwing_removal_env (js "car-1") (world_with [listed_car]))
         = Return (Success tt)
      /\ In (EvConsole console_error_
               [LogString (js "Error with storage operations:");
                LogError (new_Error (js "fetch failed"))])
            (trace (snd (deleteCar throwing_removal_env (js "car-1")
                           (world_with [listed_car])))))
  /\ (URL_pathname (nominal_env []) (js "not a url")
      = Throw (mkError TypeError (js "Invalid URL"))
      /\ fst (deleteCar (nominal_env []) (js "car-3")
                (world_with [listed_car; mislabelled_car]))
         = Return (Success tt)
      /\ cars (snd (deleteCar (nominal_env []) (js "car-3")
                      (world_with [listed_car; mislabelled_car])))
         = [listed_car]
      /\ In (EvConsole console_error_
               [LogString (js "Error with storage operations:");
                LogError (mkError TypeError (js "Invalid URL"))])
            (trace (snd (deleteCar (nominal_env []) (js "car-3")
                           (world_with [listed_car; mislabelled_car]))))).
Proof.
  split; [|split; [|split]].
  - split; [reflexivity|]. split; [reflexivity|]. split; [reflexivity|].
    pose proof (deleteCar_existing broken_storage_env (js "car-1")
                  (world_with [listed_car]) listed_car eq_refl eq_refl) as H.
    cbv zeta in H. destruct H as (Hresult & Hcars & _ & Hclient & _).
    split; [exact Hresult|]. split; [exact Hcars|].
    apply Hclient. reflexivity.
  - split; [reflexivity|].
    pose proof (deleteCar_existing refused_removal_env (js "car-1")
                  (world_with [listed_car]) listed_car eq_refl eq_refl) as H.
    cbv zeta in H. destruct H as (Hresult & Hcars & _ & _ & _ & Hremove).
    split; [exact Hresult|]. split; [exact Hcars|].
    apply (proj1 (Hremove
                    [js "/storage/v1/object/public/car-images/cars/car-1/image-1-0.png"]
                    eq_refl eq_refl ltac:(discriminate))
             (js "Object not found")).
    reflexivity.
  - split; [reflexivity|].
    pose proof (deleteCar_existing throwing_removal_env (js "car-1")
                  (world_with [listed_car]) listed_car eq_refl eq_refl) as H.
    cbv zeta in H. destruct H as (Hresult & _ & _ & _ & _ & Hremove).
    split; [exact Hresult|].
    apply (proj2 (Hremove
                    [js "/storage/v1/object/public/car-images/cars/car-1/image-1-0.png"]
                    eq_refl eq_refl ltac:(discriminate))
             (new_Error (js "fetch failed"))).
    reflexivity.
  - split; [reflexivity|].
    pose proof (deleteCar_existing (nominal_env []) (js "car-3")
                  (world_with [listed_car; mislabelled_car]) mislabelled_car
                  eq_refl eq_refl) as H.
    cbv zeta in H. destruct H as (Hresult & Hcars & _ & _ & Hurl & _).
    split; [exact Hresult|]. split; [exact Hcars|].
    apply (Hurl
             [js "https://demo.supabase.co/storage/v1/object/public/car-images/cars/car-3/image-1-0.png"]
             (js "not a url") [] (mkError TypeError (js "Invalid URL")));
      try reflexivity.
    intros v [<-|[]]. eexists. reflexivity.
Defined.

Lemma deleteCar_not_found_witness :
  authenticated (nominal_env []) (world_with [listed_car]) = true
  /\ find (has_id (js "car-2")) (cars (world_with [listed_car])) = None
  /\ exists evs,
      deleteCar (nominal_env []) (js "car-2") (world_with [listed_car])
      = (Return (Failure (js "Car not found")), log evs (world_with [listed_car]))
      /\ evs = identity_events (nominal_env []) ++ [EvCarFindUnique (js "car-2")]
      /\ existsb is_storage_call evs = false
      /\ existsb is_table_write evs = false.
Proof.
  split; [reflexivity|]. split; [reflexivity|].
  apply (deleteCar_not_found (nominal_env []) (js "car-2") (world_with [listed_car]));
    reflexivity.
Defined.

(* ===================================================================== *)
(** * Further properties: the repository *)
(* ===================================================================== *)

Lemma insert_desc_perm c l : Permutation (insert_desc c l) (c :: l).
Proof.
  induction l as [|d l IH]; simpl; [reflexivity|].
  destruct (Car.createdAt d <? Car.createdAt c); [reflexivity|].
  rewrite IH. apply perm_swap.
Qed.

Lemma orderBy_perm l : Permutation (orderBy_createdAt_desc l) l.
Proof.
  induction l as [|c l IH]; simpl; [reflexivity|].
  rewrite insert_desc_perm, IH. reflexivity.
Qed.

Lemma sorted_app_cross {A} (R : A -> A -> Prop) l1 :
  forall l2, StronglySorted R (l1 ++ l2) ->
             forall a b, In a l1 -> In b l2 -> R a b.
Proof.
  induction l1 as [|x l1 IH]; intros l2 Hs a b Ha Hb; [contradiction|].
  simpl in Hs. inversion Hs as [|? ? Hs' Hx]; subst.
  destruct Ha as [->|Ha].
  - rewrite Forall_forall in Hx. apply Hx. apply in_or_app. right. exact Hb.
  - exact (IH l2 Hs' a b Ha Hb).
Qed.

Lemma db_car_findMany_all_run where_ w :
  db_car_findMany_all where_ w
  = (Return (orderBy_createdAt_desc (filter where_ (cars w))),
     log [EvCarFindMany] w).
Proof. reflexivity. Qed.

Lemma filter_true {A} (l : list A) : filter (fun _ => true) l = l.
Proof. induction l as [|a l IH]; simpl; congruence. Qed.

Lemma combine_seq_nth {A} (l : list A) :
  forall start i a,
    nth_error l i = Some a ->
    nth_error (combine (seq start (length l)) l) i = Some ((start + i)%nat, a).
Proof.
  induction l as [|x l IH]; intros start [|i] a H; try discriminate H.
  - simpl in *. rewrite Nat.add_0_r. congruence.
  - simpl in *. rewrite (IH (S start) i a H). f_equal. f_equal. lia.
Qed.

Lemma Array_map_nth {A B} (callback : A -> nat -> list A -> B) array i a :
  nth_error array i = Some a ->
  nth_error (Array_map callback array) i = Some (callback a i array).
Proof.
  intros H. unfold Array_map. rewrite nth_error_map.
  rewrite (combine_seq_nth array 0 i a H). reflexivity.
Qed.

Lemma Array_map_length {A B} (callback : A -> nat -> list A -> B) array :
  length (Array_map callback array) = length array.
Proof.
  unfold Array_map. rewrite length_map, length_combine, length_seq.
  apply Nat.min_id.
Qed.




(** X2. With an omitted or empty search term, an authenticated [getCars]
    sends no condition to the store, whatever its insensitive mode does: the
    result has one entry per row of the table, newest first, and the entry
    of a row is what [serializeCarData] returns when called with the row,
    its index and the array of the rows. *)
Theorem getCars_all :
  forall (serialized : Type)
         (serializeCarData : Car.t -> nat -> list Car.t -> serialized)
         (contains_insensitive : jsstring -> jsstring -> bool)
         (E : env) (search : option jsstring) (w : world),
    authenticated E w = true ->
    search = None \/ search = Some [] ->
    exists rows data,
      fst (getCars serialized serializeCarData contains_insensitive E search w)
      = Return (Success data)
      /\ StronglySorted newer_or_same rows
      /\ Permutation rows (cars w)
      /\ length data = length (cars w)
      /\ (forall i row,
            nth_error rows i = Some row ->
            nth_error data i = Some (serializeCarData row i rows)).
Proof.
  intros serialized serializeCarData contains_insensitive E search w Hauth Hs.
  exists (orderBy_createdAt_desc (cars w)). eexists.
  split; [|split; [apply orderBy_sorted
                  | split; [apply orderBy_perm
                           | split; [| intros i row; apply Array_map_nth]]]].
  - assert (forall s, s = [] ->
              fst (getCars serialized serializeCarData contains_insensitive E
                     (Some s) w)
              = Return (Success (Array_map serializeCarData
                                   (orderBy_createdAt_desc (cars w))))) as H.
    { intros s ->. unfold getCars. erewrite try_catch_Return; [reflexivity|].
      bind_with identity_check_pass. cbv zeta.
      bind_with db_car_findMany_all_run.
      unfold ret. rewrite cars_log.
      unfold search_where, where_holds. cbn [truthy js map OR].
      rewrite filter_true. reflexivity. }
    destruct Hs as [-> | ->]; [exact (H [] eq_refl) | exact (H [] eq_refl)].
  - rewrite Array_map_length. apply Permutation_length, orderBy_perm.
Qed.

Lemma getCars_all_witness :
  authenticated (nominal_env []) (world_with [listed_car; honda_car; recent_car])
  = true
  /\ (exists rows data,
         fst (getCars (jsstring * nat * nat) called_with (fun _ _ => false)
                (nominal_env []) None
                (world_with [listed_car; honda_car; recent_car]))
         = Return (Success data)
         /\ StronglySorted newer_or_same rows
         /\ Permutation rows [listed_car; honda_car; recent_car]
         /\ length data = 3%nat
         /\ (forall i row,
               nth_error rows i = Some row ->
               nth_error data i = Some (called_with row i rows)))
  /\ fst (getCars (jsstring * nat * nat) called_with (fun _ _ => false)
            (nominal_env []) None
            (world_with [listed_car; honda_car; recent_car]))
     = Return (Success [(js "car-2", 0%nat, 3%nat); (js "car-4", 1%nat, 3%nat);
                        (js "car-1", 2%nat, 3%nat)]).
Proof.
  split; [reflexivity|]. split; [|reflexivity].
  exact (getCars_all (jsstring * nat * nat) called_with (fun _ _ => false)
           (nominal_env []) None
           (world_with [listed_car; honda_car; recent_car]) eq_refl
           (or_introl eq_refl)).
Defined.

(** X3. For a caller that does not pass the identity check, [getCars]
    returns a tagged failure with the message of the check ([Unauthorized!]
    or [User not found]) instead of throwing, and never queries the Car
    table. *)
Theorem getCars_unauthenticated :
  forall (serialized : Type)
         (serializeCarData : Car.t -> nat -> list Car.t -> serialized)
         (contains_insensitive : jsstring -> jsstring -> bool)
         (E : env) (search : option jsstring) (w : world),
    authenticated E w = false ->
    exists msg evs,
      getCars serialized serializeCarData contains_insensitive E search w
      = (Return (Failure msg), log evs w)
      /\ (msg = js "Unauthorized!" \/ msg = js "User not found")
      /\ existsb is_car_call evs = false.
Proof.
  intros serialized serializeCarData contains_insensitive E search w Hauth.
  destruct (identity_check_fail E w Hauth) as (e & evs & Hrun & Hevs & He).
  exists (message e),
    (evs ++ [EvConsole console_error_
               [LogString (js "Error fetching cars:"); LogError e]]).
  split; [|split].
  - unfold getCars. erewrite try_catch_Throw; cycle 1.
    + erewrite bind_Throw by exact Hrun. reflexivity.
    + unfold console. bind_with emit_run. rewrite log_log. reflexivity.
  - destruct He as [-> | ->]; [left | right]; reflexivity.
  - rewrite existsb_app. simpl. rewrite orb_false_r.
    clear Hrun He. induction evs as [|ev evs IH]; [reflexivity|].
    simpl in Hevs. apply andb_true_iff in Hevs as [Hev Hevs]. simpl.
    rewrite (IH Hevs). destruct ev; try discriminate; reflexivity.
Qed.

Lemma getCars_unauthenticated_witness :
  authenticated (with_auth None (nominal_env [])) (world_with [listed_car]) = false
  /\ exists msg evs,
      getCars Car.t (fun c _ _ => c) (fun _ _ => false)
        (with_auth None (nominal_env [])) None (world_with [listed_car])
      = (Return (Failure msg), log evs (world_with [listed_car]))
      /\ (msg = js "Unauthorized!" \/ msg = js "User not found")
      /\ existsb is_car_call evs = false.
Proof.
  split; [reflexivity|].
  apply (getCars_unauthenticated Car.t (fun c _ _ => c) (fun _ _ => false)
           (with_auth None (nominal_env [])) None (world_with [listed_car])).
  reflexivity.
Defined.

(* ===================================================================== *)
(** * Further properties: who may change what *)
(* ===================================================================== *)

Lemma identity_calls_touch_nothing evs :
  forallb is_identity_call evs = true ->
  existsb is_car_call evs = false /\ existsb is_storage_call evs = false.
Proof.
  induction evs as [|ev evs IH]; simpl; [auto|].
  intros H. apply andb_true_iff in H as [Hev Hevs].
  destruct (IH Hevs) as [H1 H2]. rewrite H1, H2.
  destruct ev; try discriminate; auto.
Qed.

(** X4. A caller that does not pass the identity check cannot reach the
    Car table or the storage through any of the three mutating actions:
    [addCar] throws, [deleteCar] and [updateCarStatus] return a tagged
    failure, and in each case the world only differs by the calls of the
    identity check and a console line. *)
Theorem unauthenticated_changes_nothing :
  forall (E : env) (w : world),
    authenticated E w = false ->
    (forall carData images,
        exists e evs,
          addCar E carData images w = (Throw e, log evs w)
          /\ existsb is_car_call evs = false
          /\ existsb is_storage_call evs = false)
    /\ (forall id,
        exists msg evs,
          deleteCar E id w = (Return (Failure msg), log evs w)
          /\ existsb is_car_call evs = false
          /\ existsb is_storage_call evs = false)
    /\ (forall id arg,
        exists msg evs,
          updateCarStatus E id arg w = (Return (Failure msg), log evs w)
          /\ existsb is_car_call evs = false
          /\ existsb is_storage_call evs = false).
Proof.
  intros E w Hauth.
  destruct (identity_check_fail E w Hauth) as (e & evs & Hrun & Hevs & _).
  destruct (identity_calls_touch_nothing evs Hevs) as [H1 H2].
  split; [|split].
  - intros carData images. exists (rethrown e), evs. split; [|split; assumption].
    unfold addCar, try_catch. erewrite bind_Throw by exact Hrun. reflexivity.
  - intros id. eexists (message e), (evs ++ [_]). split; [|split].
    + unfold deleteCar. erewrite try_catch_Throw; cycle 1.
      * erewrite bind_Throw by exact Hrun. reflexivity.
      * unfold console. bind_with emit_run. rewrite log_log. reflexivity.
    + rewrite existsb_app, H1. reflexivity.
    + rewrite existsb_app, H2. reflexivity.
  - intros id arg. eexists (message e), (evs ++ [_]). split; [|split].
    + unfold updateCarStatus. erewrite try_catch_Throw; cycle 1.
      * erewrite bind_Throw by exact Hrun. reflexivity.
      * unfold console. bind_with emit_run. rewrite log_log. reflexivity.
    + rewrite existsb_app, H1. reflexivity.
    + rewrite existsb_app, H2. reflexivity.
Qed.

Lemma unauthenticated_changes_nothing_witness :
  authenticated (with_auth None (nominal_env [])) (world_with [listed_car]) = false
  /\ exists msg evs,
      deleteCar (with_auth None (nominal_env [])) (js "car-1")
                (world_with [listed_car])
      = (Return (Failure msg), log evs (world_with [listed_car]))
      /\ existsb is_car_call evs = false
      /\ existsb is_storage_call evs = false.
Proof.
  split; [reflexivity|].
  apply (proj1 (proj2 (unauthenticated_changes_nothing
                         (with_auth None (nominal_env []))
                         (world_with [listed_car]) eq_refl))).
Defined.


(** [addCar()] on a table that holds a car: the rejection is not the
    action's own error, and the world is untouched. *)
Example addCar_without_argument :
  addCar_call (nominal_env []) arg_undefined (world_with [listed_car])
  = (Throw (mkError TypeError
              (js "Cannot destructure property 'carData' of 'undefined' as it is undefined.")),
     world_with [listed_car]).
Proof. reflexivity. Qed.

(* ===================================================================== *)
(** * Further properties: names of the stored objects *)
(* ===================================================================== *)

Lemma span_forallb f s : forallb f (fst (span f s)) = true.
Proof.
  induction s as [|c s IH]; simpl; [reflexivity|].
  destruct (f c) eqn:E; [|reflexivity].
  destruct (span f s) as [a b]. simpl in *. rewrite E, IH. reflexivity.
Qed.

Lemma span_app f a c r :
  forallb f a = true -> f c = false -> span f (a ++ c :: r) = (a, c :: r).
Proof.
  intros Ha Hc. induction a as [|x a IH]; simpl.
  - rewrite Hc. reflexivity.
  - simpl in Ha. apply andb_true_iff in Ha as [Hx Ha].
    rewrite Hx, (IH Ha). reflexivity.
Qed.

Lemma mime_match_here_alnum s ext :
  mime_match_here s = Some ext -> ext <> [] /\ forallb is_alnum ext = true.
Proof.
  unfold mime_match_here.
  destruct (drop_prefix (js "data:image/") s) as [r|]; [|discriminate].
  pose proof (span_forallb is_alnum r) as Hs.
  destruct (span is_alnum r) as [[|c e] [|d r']]; try discriminate.
  intros H. assert (ext = c :: e) as ->.
  { repeat match type of H with
           | match ?x with _ => _ end = Some _ => destruct x; try discriminate H
           end.
    inversion H. reflexivity. }
  split; [discriminate | exact Hs].
Qed.

Lemma mime_match_alnum s :
  forall ext, mime_match s = Some ext ->
              ext <> [] /\ forallb is_alnum ext = true.
Proof.
  induction s as [|c s IH]; intros ext; simpl mime_match.
  - discriminate.
  - destruct (mime_match_here (c :: s)) eqn:E.
    + intros H. inversion H. subst. exact (mime_match_here_alnum _ _ E).
    + apply IH.
Qed.

Lemma mime_match_unfold s :
  mime_match s
  = match mime_match_here s with
    | Some ext => Some ext
    | None => match s with [] => None | _ :: s' => mime_match s' end
    end.
Proof. destruct s; reflexivity. Qed.

Lemma fileExtension_of_alnum s : forallb is_alnum (fileExtension_of s) = true.
Proof.
  unfold fileExtension_of. destruct (mime_match s) as [ext|] eqn:E; [|reflexivity].
  exact (proj2 (mime_match_alnum s ext E)).
Qed.

(** X6. The file extension [addCar] derives from an entry is always a
    non-empty run of letters and digits, whatever the entry: the declared
    subtype when the entry starts with [data:image/<subtype>;] and the
    subtype is alphanumeric, and [jpeg] when no such subtype is found. So
    neither the object name nor the content type can receive a separator
    from the client's string. *)
Theorem fileExtension_alphanumeric :
  forall s : jsstring,
    fileExtension_of s <> []
    /\ forallb is_alnum (fileExtension_of s) = true
    /\ (mime_match s = None -> fileExtension_of s = js "jpeg")
    /\ (forall ext rest,
           ext <> [] -> forallb is_alnum ext = true ->
           s = js "data:image/" +++ ext +++ [59] +++ rest ->
           fileExtension_of s = ext).
Proof.
  intros s. unfold fileExtension_of. split; [|split; [|split]].
  - destruct (mime_match s) as [ext|] eqn:E; [|discriminate].
    exact (proj1 (mime_match_alnum s ext E)).
  - destruct (mime_match s) as [ext|] eqn:E; [|reflexivity].
    exact (proj2 (mime_match_alnum s ext E)).
  - intros ->. reflexivity.
  - intros ext rest Hne Hal ->. rewrite mime_match_unfold.
    unfold mime_match_here. rewrite drop_prefix_app.
    change ([59] +++ rest) with (59 :: rest).
    rewrite (span_app is_alnum ext 59 rest Hal eq_refl).
    destruct ext as [|c ext]; [congruence | reflexivity].
Qed.

Lemma fileExtension_alphanumeric_witness :
  js "webp" <> []
  /\ forallb is_alnum (js "webp") = true
  /\ fileExtension_of (js "data:image/webp;base64,UklGRg") = js "webp".
Proof.
  split; [discriminate|]. split; [reflexivity|].
  apply (proj2 (proj2 (proj2 (fileExtension_alphanumeric
                                (js "data:image/webp;base64,UklGRg"))))
           (js "webp") (js "base64,UklGRg"));
    [discriminate | reflexivity | reflexivity].
Defined.

(** A subtype with a character outside the class falls back to [jpeg]. *)
Example fileExtension_svg :
  fileExtension_of (js "data:image/svg+xml;base64,PHN2Zz4") = js "jpeg".
Proof. reflexivity. Qed.

(** ** Decimal numerals *)

Lemma js_inj a b : js a = js b -> a = b.
Proof.
  unfold js. intros H.
  apply (f_equal (map Ascii.ascii_of_N)) in H. rewrite !map_map in H.
  rewrite (map_ext _ (fun a => a)) in H by apply Ascii.ascii_N_embedding.
  rewrite (map_ext (fun x => Ascii.ascii_of_N (Ascii.N_of_ascii x)) (fun a => a))
    in H by apply Ascii.ascii_N_embedding.
  rewrite !map_id in H.
  apply (f_equal String.string_of_list_ascii) in H.
  rewrite !String.string_of_list_ascii_of_string in H. exact H.
Qed.

Lemma to_uint_not_nil n : N.to_uint n <> Decimal.Nil.
Proof.
  destruct n as [|p]; [discriminate|].
  apply DecimalPos.Unsigned.to_uint_nonnil.
Qed.

Lemma decimal_inj a b : decimal a = decimal b -> a = b.
Proof.
  unfold decimal. intros H. apply js_inj in H.
  apply (f_equal DecimalString.NilZero.uint_of_string) in H.
  rewrite !DecimalString.NilZero.usu in H by apply to_uint_not_nil.
  inversion H as [H']. apply (f_equal N.of_uint) in H'.
  rewrite !DecimalN.Unsigned.of_to in H'. exact H'.
Qed.

Lemma digits_of_uint d :
  forallb is_decimal_digit (js (DecimalString.NilEmpty.string_of_uint d)) = true.
Proof. unfold js. induction d; simpl; auto. Qed.

Lemma decimal_digits n : forallb is_decimal_digit (decimal n) = true.
Proof.
  unfold decimal. destruct (N.to_uint n); try apply digits_of_uint. reflexivity.
Qed.

(** Two strings that begin with a numeral followed by a non-digit agree on
    the numeral. *)
Lemma numeral_prefix a :
  forall b c d x y,
    forallb is_decimal_digit a = true -> forallb is_decimal_digit b = true ->
    is_decimal_digit c = false -> is_decimal_digit d = false ->
    a ++ c :: x = b ++ d :: y -> a = b /\ x = y.
Proof.
  induction a as [|e a IH]; intros [|e' b] c d x y Ha Hb Hc Hd H; simpl in *.
  - inversion H. auto.
  - inversion H. subst. apply andb_true_iff in Hb as [Hb _]. congruence.
  - inversion H. subst. apply andb_true_iff in Ha as [Ha _]. congruence.
  - inversion H. subst. apply andb_true_iff in Ha as [_ Ha].
    apply andb_true_iff in Hb as [_ Hb].
    destruct (IH b c d x y Ha Hb Hc Hd H2) as [-> ->]. auto.
Qed.

Lemma filePath_of_position E folderPath i j s s' :
  filePath_of E folderPath i s = filePath_of E folderPath j s' -> i = j.
Proof.
  unfold filePath_of. intros H.
  apply app_inv_head in H. apply app_inv_head in H. apply app_inv_head in H.
  apply numeral_prefix in H as [_ H];
    [| apply decimal_digits | apply decimal_digits | reflexivity | reflexivity].
  apply numeral_prefix in H as [H _];
    [| apply decimal_digits | apply decimal_digits | reflexivity | reflexivity].
  apply decimal_inj in H. apply Nat2N.inj. exact H.
Qed.

Lemma sorted_lt_NoDup l : StronglySorted lt l -> NoDup l.
Proof.
  induction 1 as [|a l Hs IH Ha]; constructor; [|exact IH].
  intros Hin. rewrite Forall_forall in Ha. specialize (Ha a Hin). lia.
Qed.

Lemma NoDup_map_by_position {A B} (f : nat * A -> B) l :
  (forall p q, f p = f q -> fst p = fst q) ->
  NoDup (map fst l) -> NoDup (map f l).
Proof.
  intros Hf. induction l as [|p l IH]; simpl; intros H; [constructor|].
  inversion H as [|? ? Hnot Hl]; subst. constructor; [|exact (IH Hl)].
  intros Hin. apply in_map_iff in Hin as (q & Hq & Hin).
  apply Hnot. apply in_map_iff. exists q. split; [|exact Hin].
  symmetry. apply Hf. symmetry. exact Hq.
Qed.

(** X7. Within one call of [addCar] no two entries get the same object
    path or the same public URL: the position is part of the file name, so
    the names differ even when the clock does not move and the extensions
    agree. *)
Theorem filePaths_distinct :
  forall (E : env) (folderPath : jsstring),
    (forall i j s s', i <> j ->
        filePath_of E folderPath i s <> filePath_of E folderPath j s')
    /\ (forall images,
           NoDup (map (fun p => filePath_of E folderPath (fst p) (snd p))
                      (accepted_from 0 images))
           /\ NoDup (map (url_of E folderPath) (accepted_from 0 images))).
Proof.
  intros E folderPath. split.
  - intros i j s s' Hij H. apply Hij. exact (filePath_of_position _ _ _ _ _ _ H).
  - intros images.
    assert (NoDup (map fst (accepted_from 0 images))) as Hpos
      by (apply sorted_lt_NoDup, accepted_from_positions).
    split; apply NoDup_map_by_position; try exact Hpos.
    + intros p q H. exact (filePath_of_position _ _ _ _ _ _ H).
    + intros p q H. unfold url_of, publicUrl_of in H.
      apply app_inv_head in H. apply app_inv_head in H.
      exact (filePath_of_position _ _ _ _ _ _ H).
Qed.

Lemma filePaths_distinct_witness :
  filePath_of refusing_env (js "cars/car-1") 0 (js "data:image/png;base64,AAAA")
  <> filePath_of refusing_env (js "cars/car-1") 1 (js "data:image/png;base64,AAAA").
Proof.
  apply (proj1 (filePaths_distinct refusing_env (js "cars/car-1"))).
  discriminate.
Defined.

(* ===================================================================== *)
(** * Further properties: a refused upload *)
(* ===================================================================== *)

Lemma upload_images_app E folderPath pre :
  forall post i urls w,
    upload_images E folderPath i (pre ++ post) urls w
    = match upload_images E folderPath i pre urls w with
      | (Return urls', w') =>
          upload_images E folderPath (i + length pre) post urls' w'
      | (Throw e, w') => (Throw e, w')
      end.
Proof.
  induction pre as [|b pre IH]; intros post i urls w.
  - simpl. rewrite Nat.add_0_r. reflexivity.
  - simpl app. rewrite !upload_images_cons.
    destruct (upload_image E folderPath i b urls w) as [[urls'|e] w'];
      [|reflexivity].
    rewrite IH. simpl length. rewrite Nat.add_succ_r. reflexivity.
Qed.

Lemma accepted_from_bound images :
  forall i q, In q (accepted_from i images) ->
              (i <= fst q < i + length images)%nat.
Proof.
  induction images as [|b rest IH]; intros i q H; simpl in *; [contradiction|].
  apply in_app_or in H as [H|H].
  - destruct (valid_image b); [|contradiction].
    destruct H as [<-|[]]. simpl. lia.
  - specialize (IH (S i) q H). lia.
Qed.

(** The loop on entries whose uploads succeed, the others left open. *)
Lemma upload_images_urls_where E folderPath images :
  forall i urls w,
    (forall q, In q (accepted_from i images) ->
               In 44 (snd q)
               /\ forall b c, storage_upload E
                                (filePath_of E folderPath (fst q) (snd q)) b c
                              = Return None) ->
    exists w',
      upload_images E folderPath i images urls w
      = (Return (urls ++ map (url_of E folderPath) (accepted_from i images)), w')
      /\ map fst (bucket w')
         = map fst (bucket w)
           ++ map (fun p => filePath_of E folderPath (fst p) (snd p))
                  (accepted_from i images).
Proof.
  induction images as [|b rest IH]; intros i urls w Hok.
  - exists w. simpl. rewrite !app_nil_r. split; reflexivity.
  - rewrite upload_images_cons. simpl accepted_from in *.
    assert (forall q, In q (accepted_from (S i) rest) ->
              In 44 (snd q)
              /\ forall b c, storage_upload E
                               (filePath_of E folderPath (fst q) (snd q)) b c
                             = Return None) as Hrest
      by (intros q Hq; apply Hok; apply in_or_app; right; exact Hq).
    destruct (valid_image b) eqn:Hv.
    + destruct b as [s|]; [|discriminate].
      destruct (Hok (i, s)) as [Hcomma Hup]; [left; reflexivity|].
      simpl in Hcomma, Hup. apply payload_comma in Hcomma.
      destruct (payload s) as [p|] eqn:Ep; [|congruence].
      rewrite (upload_image_stored _ _ _ _ _ _ _ Hv Ep (Hup _ _)).
      match goal with
      | |- context [upload_images _ _ _ _ _ ?W] =>
          destruct (IH (S i) (urls ++ [url_of E folderPath (i, s)]) W Hrest)
            as (w' & Hrun & Hb)
      end.
      exists w'. rewrite Hrun. split.
      * simpl. rewrite <- app_assoc. reflexivity.
      * rewrite Hb. simpl. rewrite map_app, <- app_assoc. reflexivity.
    + rewrite (upload_image_skip _ _ _ _ _ _ Hv).
      destruct (IH (S i) urls (log [skip_warning] w) Hrest) as (w' & Hrun & Hb).
      exists w'. rewrite Hrun. split; [reflexivity | exact Hb].
Qed.

Lemma upload_image_refused E folderPath i s p urls w msg :
  valid_image (Some s) = true ->
  payload s = Some p ->
  storage_upload E (filePath_of E folderPath i s) (Buffer_from_base64 p)
                 (js "image/" +++ fileExtension_of s) = Return (Some msg) ->
  upload_image E folderPath i (Some s) urls w
  = (Throw (new_Error (js "Failed to upload image: " +++ msg)),
     log [EvStorageUpload (filePath_of E folderPath i s) (Buffer_from_base64 p)
                          (js "image/" +++ fileExtension_of s);
          EvConsole console_error_
            [LogString (js "Error uploading image:"); LogError (new_Error msg)]]
         w).
Proof.
  intros Hv Hp Hup. unfold upload_image. rewrite skip_condition, Hv.
  cbn [negb template]. rewrite Hp.
  unfold Buffer_from, supabase_upload, console, bind, ret, emit, throw.
  rewrite Hup, log_log. reflexivity.
Qed.

(** X8. When the storage refuses the upload of one entry, [addCar] stops
    there: it throws [Error adding car:Failed to upload image: <message>],
    creates no row, uploads none of the later entries, and leaves in the
    bucket the objects it had stored for the earlier entries. *)
Theorem addCar_upload_refused :
  forall (E : env) (carData : CarData.t) (pre : list (option jsstring))
         (s p : jsstring) (rest : list (option jsstring)) (w : world)
         (msg : jsstring),
    authenticated E w = true ->
    createClient E = Return tt ->
    (forall q, In q (accepted_from 0 pre) -> In 44 (snd q)) ->
    valid_image (Some s) = true ->
    payload s = Some p ->
    (forall path b c,
        path <> filePath_of E (js "cars/" +++ uuidv4 E) (length pre) s ->
        storage_upload E path b c = Return None) ->
    storage_upload E (filePath_of E (js "cars/" +++ uuidv4 E) (length pre) s)
      (Buffer_from_base64 p) (js "image/" +++ fileExtension_of s)
    = Return (Some msg) ->
    exists w',
      addCar E carData (pre ++ Some s :: rest) w
      = (Throw (new_Error (js "Error adding car:Failed to upload image: " +++ msg)),
         w')
      /\ cars w' = cars w
      /\ map fst (bucket w')
         = map fst (bucket w)
           ++ map (fun q => filePath_of E (js "cars/" +++ uuidv4 E) (fst q) (snd q))
                  (accepted_from 0 pre).
Proof.
  intros E carData pre s p rest w msg Hauth Hclient Hcomma Hv Hp Hothers Hfail.
  rewrite (addCar_after_loop _ _ _ _ Hauth Hclient), upload_images_app.
  destruct (upload_images_urls_where E (js "cars/" +++ uuidv4 E) pre 0 []
              (log (identity_events E ++ [EvCreateClient]) w))
    as (w1 & Hrun & Hb).
  { intros q Hq. split; [exact (Hcomma q Hq)|]. intros b c. apply Hothers.
    intros Heq. apply filePath_of_position in Heq.
    pose proof (accepted_from_bound pre 0 q Hq). lia. }
  pose proof (upload_images_tables E (js "cars/" +++ uuidv4 E) pre 0 []
                (log (identity_events E ++ [EvCreateClient]) w)) as [Hc _].
  rewrite Hrun in *. simpl in Hc. simpl Nat.add.
  rewrite upload_images_cons,
    (upload_image_refused _ _ _ _ _ _ _ _ Hv Hp Hfail).
  eexists. split; [reflexivity|]. split; [exact Hc | exact Hb].
Qed.

Lemma addCar_upload_refused_witness :
  exists w',
    addCar refusing_env sample_carData example_images (world_with [])
    = (Throw (new_Error (js "Error adding car:Failed to upload image: Payload too large")),
       w')
    /\ cars w' = []
    /\ map fst (bucket w')
       = [js "cars/3b241101-e2bb-4255-8caf-4136c566a962/image-1700000000000-0.png"].
Proof.
  destruct (addCar_upload_refused refusing_env sample_carData
              [Some (js "data:image/png;base64,AAAA"); Some (js "not-an-image")]
              (js "data:image/jpeg;base64,BBBB") (js "BBBB") []
              (world_with []) (js "Payload too large"))
    as (w' & Hrun & Hc & Hb); try reflexivity.
  - intros q [<-|[]]. apply existsb_In_44. reflexivity.
  - intros path b c Hpath. unfold refusing_env. cbn [storage_upload].
    destruct (str_eqb path _) eqn:Heq; [|reflexivity].
    apply str_eqb_eq in Heq. contradiction.
  - exists w'. split; [exact Hrun|]. split; [exact Hc | exact Hb].
Defined.

(* ===================================================================== *)
(** * Further properties: from the public URL back to the object *)
(* ===================================================================== *)

Lemma span_all f s : forallb f s = true -> span f s = (s, []).
Proof.
  induction s as [|c s IH]; simpl; [reflexivity|].
  intros H. apply andb_true_iff in H as [Hc Hs]. rewrite Hc, (IH Hs). reflexivity.
Qed.

Lemma car_images_match_public p :
  one_line p = true -> car_images_match (public_prefix +++ p) = Some p.
Proof.
  intros H. unfold public_prefix. simpl. rewrite (span_all _ _ H). reflexivity.
Qed.

Lemma forallb_impl {A} (f g : A -> bool) l :
  (forall a, f a = true -> g a = true) -> forallb f l = true -> forallb g l = true.
Proof.
  intros Hfg. induction l as [|a l IH]; simpl; [reflexivity|].
  intros H. apply andb_true_iff in H as [Ha Hl]. rewrite (Hfg a Ha), (IH Hl).
  reflexivity.
Qed.

Lemma digit_not_terminator c :
  is_decimal_digit c = true -> negb (is_line_terminator c) = true.
Proof.
  unfold is_decimal_digit, is_line_terminator. intros H.
  apply andb_true_iff in H as [H1 H2].
  apply N.leb_le in H1, H2.
  repeat match goal with
         | |- context [?c =? ?k] => destruct (N.eqb_spec c k); [lia|]
         end.
  reflexivity.
Qed.

Lemma alnum_not_terminator c :
  is_alnum c = true -> negb (is_line_terminator c) = true.
Proof.
  unfold is_alnum, is_line_terminator. intros H.
  assert (c <= 122) as Hc.
  { repeat (apply orb_true_iff in H as [H|H]);
      apply andb_true_iff in H as [_ H]; apply N.leb_le in H; lia. }
  assert (48 <= c) as Hc'.
  { repeat (apply orb_true_iff in H as [H|H]);
      apply andb_true_iff in H as [H _]; apply N.leb_le in H; lia. }
  repeat match goal with
         | |- context [?c =? ?k] => destruct (N.eqb_spec c k); [lia|]
         end.
  reflexivity.
Qed.

(** The object paths of [addCar] stay on one line when the identifier
    does. *)
Lemma filePath_of_one_line E i s :
  one_line (uuidv4 E) = true ->
  one_line (filePath_of E (js "cars/" +++ uuidv4 E) i s) = true.
Proof.
  intros Hu. unfold one_line, filePath_of in *.
  repeat rewrite forallb_app. rewrite Hu.
  rewrite (forallb_impl _ _ _ digit_not_terminator (decimal_digits _)).
  rewrite (forallb_impl _ _ _ digit_not_terminator (decimal_digits _)).
  rewrite (forallb_impl _ _ _ alnum_not_terminator (fileExtension_of_alnum s)).
  reflexivity.
Qed.

Lemma storage_path_of_publicUrl_run E filePath w :
  URL_pathname E (publicUrl_of E filePath) = Return (public_prefix +++ filePath) ->
  one_line filePath = true ->
  storage_path E (publicUrl_of E filePath) w = (Return (Some filePath), w).
Proof.
  intros Hurl Hline. unfold storage_path, bind, lift, ret.
  rewrite Hurl, (car_images_match_public _ Hline). reflexivity.
Qed.

(** X9. The storage path that [deleteCar] extracts from a public URL built
    by [addCar] is the path under which [addCar] stored the object, whatever
    the entry and its position, provided the generated identifier has no
    line terminator and the URL parser returns the path of the URL. *)
Theorem storage_path_of_url :
  forall (E : env) (i : nat) (s : jsstring) (w : world),
    one_line (uuidv4 E) = true ->
    URL_pathname E (url_of E (js "cars/" +++ uuidv4 E) (i, s))
    = Return (public_prefix +++ filePath_of E (js "cars/" +++ uuidv4 E) i s) ->
    storage_path E (url_of E (js "cars/" +++ uuidv4 E) (i, s)) w
    = (Return (Some (filePath_of E (js "cars/" +++ uuidv4 E) i s)), w).
Proof.
  intros E i s w Hu Hurl.
  apply storage_path_of_publicUrl_run; [exact Hurl|].
  apply filePath_of_one_line. exact Hu.
Qed.

Lemma storage_path_of_url_witness :
  storage_path (nominal_env [])
    (url_of (nominal_env []) (js "cars/" +++ uuidv4 (nominal_env []))
            (2%nat, js "data:image/jpeg;base64,BBBB"))
    (world_with [])
  = (Return (Some (js "cars/3b241101-e2bb-4255-8caf-4136c566a962/image-1700000000002-2.jpeg")),
     world_with []).
Proof.
  apply (storage_path_of_url (nominal_env []) 2
           (js "data:image/jpeg;base64,BBBB") (world_with []));
    reflexivity.
Defined.

Lemma map_M_storage_path_public E l :
  (forall p, In p l ->
             URL_pathname E (publicUrl_of E p) = Return (public_prefix +++ p)
             /\ one_line p = true) ->
  forall w,
    map_M (storage_path E) (map (publicUrl_of E) l) w
    = (Return (map Some l), w).
Proof.
  induction l as [|p l IH]; intros H w; [reflexivity|].
  simpl. unfold bind at 1.
  destruct (H p (or_introl eq_refl)) as [Hurl Hline].
  rewrite (storage_path_of_publicUrl_run E p w Hurl Hline).
  unfold bind at 1. rewrite IH by (intros q Hq; apply H; right; exact Hq).
  reflexivity.
Qed.

(* ===================================================================== *)
(** * Further properties: add, delete, update *)
(* ===================================================================== *)

Lemma deleteCar_found E id w car w1 :
  authenticated E w = true ->
  find (has_id id) (cars w) = Some car ->
  remove_images E (Car.images car)
    (set_cars (filter (fun c => negb (has_id id c)) (cars w))
       (log (identity_events E ++ [EvCarFindUnique id; EvCarDelete id]) w))
  = (Return tt, w1) ->
  deleteCar E id w
  = (Return (Success tt), log [EvRevalidatePath (js "/admin/cars")] w1).
Proof.
  intros Hauth Hfind Hrun.
  assert (existsb (has_id id) (cars w) = true) as Hex
    by (rewrite find_existsb, Hfind; reflexivity).
  unfold deleteCar. apply try_catch_Return.
  bind_with identity_check_pass. bind_with db_car_findUnique_run.
  rewrite cars_log, Hfind. bind_with db_car_delete_found.
  rewrite !log_log, cars_log. simpl app. bind_with Hrun. reflexivity.
Qed.

Lemma remove_images_requests E images w paths :
  createClient E = Return tt ->
  map_M (storage_path E) images (log [EvCreateClient] w)
  = (Return paths, log [EvCreateClient] w) ->
  filter_Boolean paths <> [] ->
  exists w',
    remove_images E images w = (Return tt, w')
    /\ cars w' = cars w /\ users w' = users w
    /\ In (EvStorageRemove (filter_Boolean paths)) (trace w').
Proof.
  intros H1 H2 H3.
  unfold remove_images, supabase_createClient, console, try_catch, bind, emit, lift.
  rewrite H1. simpl. rewrite H2.
  destruct (filter_Boolean paths) as [|p ps] eqn:Ep; [congruence|].
  simpl. unfold supabase_remove, bind, emit. simpl.
  destruct (storage_remove E (p :: ps)) as [[msg|]|e]; simpl;
    eexists; (split; [reflexivity|]); (split; [reflexivity|]);
    (split; [reflexivity|]); in_trace.
Qed.

Lemma filter_Boolean_paths E folderPath l :
  filter_Boolean
    (map Some (map (fun q => filePath_of E folderPath (fst q) (snd q)) l))
  = map (fun q : nat * jsstring => filePath_of E folderPath (fst q) (snd q)) l.
Proof.
  induction l as [|q l IH]; [reflexivity|].
  simpl map. unfold filter_Boolean in *. simpl flat_map. rewrite IH.
  unfold filePath_of at 1.
  destruct folderPath; reflexivity.
Qed.

Lemma find_app_none {A} (f : A -> bool) l a :
  existsb f l = false -> f a = true -> find f (l ++ [a]) = Some a.
Proof.
  induction l as [|b l IH]; simpl.
  - intros _ ->. reflexivity.
  - intros H Ha. apply orb_false_iff in H as [Hb Hl]. rewrite Hb.
    exact (IH Hl Ha).
Qed.

Lemma filter_app_fresh {A} (f : A -> bool) l a :
  existsb f l = false -> f a = true ->
  filter (fun c => negb (f c)) (l ++ [a]) = l.
Proof.
  induction l as [|b l IH]; simpl.
  - intros _ ->. reflexivity.
  - intros H Ha. apply orb_false_iff in H as [Hb Hl]. rewrite Hb. simpl.
    rewrite (IH Hl Ha). reflexivity.
Qed.

Lemma identity_check_users E w :
  users (snd (identity_check E w)) = users w.
Proof.
  destruct (authenticated E w) eqn:Hauth.
  - rewrite (identity_check_pass E w Hauth). reflexivity.
  - destruct (identity_check_fail E w Hauth) as (e & evs & Hrun & _).
    rewrite Hrun. reflexivity.
Qed.

Lemma addCar_users E carData images w :
  users (snd (addCar E carData images w)) = users w.
Proof.
  destruct (authenticated E w) eqn:Hauth.
  - destruct (createClient E) as [[]|e] eqn:Hclient.
    + rewrite (addCar_after_loop _ _ _ _ Hauth Hclient).
      pose proof (upload_images_tables E (js "cars/" +++ uuidv4 E) images 0 []
                    (log (identity_events E ++ [EvCreateClient]) w)) as [_ Hu].
      destruct (upload_images _ _ _ _ _ _) as [[imageUrls|e] w1]; simpl in Hu;
        [|exact Hu].
      destruct (length imageUrls =? 0)%nat; [exact Hu|].
      rewrite db_car_create_run. destruct (existsb _ (cars w1)); exact Hu.
    + rewrite (addCar_client_throws _ _ _ _ _ Hauth Hclient). reflexivity.
  - destruct (addCar_identity_fails E carData images w Hauth)
      as (e & evs & Hrun & _). rewrite Hrun. reflexivity.
Qed.

(** X10. Deleting a car right after it was added undoes the addition: with
    uploads that succeed, a fresh identifier and a URL parser that returns
    the path of a URL, [deleteCar] on the generated identifier succeeds,
    leaves the Car table as it was before [addCar], and asks the storage to
    remove exactly the object paths under which [addCar] stored the
    images. *)
Theorem addCar_then_deleteCar :
  forall (E : env) (carData : CarData.t) (images : list (option jsstring))
         (w : world),
    authenticated E w = true ->
    createClient E = Return tt ->
    (forall p b c, storage_upload E p b c = Return None) ->
    (forall s, In (Some s) images ->
               startsWith s (js "data:image/") = true -> In 44 s) ->
    existsb valid_image images = true ->
    existsb (has_id (uuidv4 E)) (cars w) = false ->
    one_line (uuidv4 E) = true ->
    (forall q, In q (accepted_from 0 images) ->
       URL_pathname E (url_of E (js "cars/" +++ uuidv4 E) q)
       = Return (public_prefix
                 +++ filePath_of E (js "cars/" +++ uuidv4 E) (fst q) (snd q))) ->
    let w1 := snd (addCar E carData images w) in
    let w2 := snd (deleteCar E (uuidv4 E) w1) in
    let paths := map (fun q => filePath_of E (js "cars/" +++ uuidv4 E) (fst q) (snd q))
                     (accepted_from 0 images) in
    fst (addCar E carData images w) = Return (Success tt)
    /\ fst (deleteCar E (uuidv4 E) w1) = Return (Success tt)
    /\ cars w2 = cars w
    /\ map fst (bucket w1) = map fst (bucket w) ++ paths
    /\ In (EvStorageRemove paths) (trace w2).
Proof.
  intros E carData images w Hauth Hclient Hup Hcomma Hex Hfresh Hline Hurl
         w1 w2 paths.
  destruct (addCar_stores_urls E carData images w Hauth Hclient Hup Hcomma Hex
              Hfresh) as [Hadd Hcars1].
  fold w1 in Hcars1.
  assert (authenticated E w1 = true) as Hauth1.
  { unfold authenticated in *. subst w1. rewrite addCar_users. exact Hauth. }
  (* the bucket after the addition *)
  assert (map fst (bucket w1) = map fst (bucket w) ++ paths) as Hbucket.
  { subst w1. rewrite (addCar_after_loop _ _ _ _ Hauth Hclient).
    destruct (upload_images_urls E (js "cars/" +++ uuidv4 E) Hup images 0 []
                (log (identity_events E ++ [EvCreateClient]) w))
      as (w' & Hrun & Hb).
    { intros s Hs Hv. apply Hcomma; [exact Hs|]. apply valid_image_prefix.
      exact Hv. }
    rewrite Hrun. cbn [app].
    pose proof (accepted_from_nonempty images 0 Hex) as Hne.
    destruct (accepted_from 0 images) as [|a l] eqn:Ha; [congruence|].
    cbn [map length Nat.eqb]. rewrite db_car_create_run.
    destruct (existsb _ (cars w')); exact Hb. }
  (* the deletion *)
  set (row := new_row E {| new_id := uuidv4 E; new_fields := carData;
                           new_images := map (url_of E (js "cars/" +++ uuidv4 E))
                                             (accepted_from 0 images) |}) in *.
  assert (has_id (uuidv4 E) row = true) as Hrow by apply str_eqb_refl.
  assert (find (has_id (uuidv4 E)) (cars w1) = Some row) as Hfind
    by (rewrite Hcars1; apply find_app_none; assumption).
  set (W := set_cars (filter (fun c => negb (has_id (uuidv4 E) c)) (cars w1))
              (log (identity_events E
                    ++ [EvCarFindUnique (uuidv4 E); EvCarDelete (uuidv4 E)])
                 w1)).
  assert (map_M (storage_path E) (Car.images row) (log [EvCreateClient] W)
          = (Return (map Some paths), log [EvCreateClient] W)) as Hpaths.
  { subst row paths. cbn [Car.images new_row new_images]. unfold url_of.
    rewrite <- (map_map (fun q => filePath_of E (js "cars/" +++ uuidv4 E)
                                    (fst q) (snd q)) (publicUrl_of E)).
    apply map_M_storage_path_public. intros p Hp.
    apply in_map_iff in Hp as (q & <- & Hq).
    split; [exact (Hurl q Hq)|]. apply filePath_of_one_line. exact Hline. }
  destruct (remove_images_requests E (Car.images row) W _ Hclient Hpaths)
    as (w' & Hrem & Hc' & _ & Hin).
  { subst paths. rewrite filter_Boolean_paths.
    pose proof (accepted_from_nonempty images 0 Hex) as Hne.
    destruct (accepted_from 0 images); [congruence | discriminate]. }
  pose proof (deleteCar_found E (uuidv4 E) w1 row w' Hauth1 Hfind Hrem) as Hdel.
  subst w2. rewrite Hdel.
  split; [exact Hadd|]. split; [reflexivity|].
  split; [|split; [exact Hbucket|]].
  - cbn [snd]. rewrite cars_log, Hc'. subst W. rewrite cars_set_cars, Hcars1.
    apply filter_app_fresh; assumption.
  - cbn [snd]. rewrite trace_log. apply in_or_app. left.
    subst paths. rewrite filter_Boolean_paths in Hin. exact Hin.
Qed.

Lemma addCar_then_deleteCar_witness :
  length (cars after_example_add) = 2%nat
  /\ cars (snd (deleteCar (nominal_env []) (uuidv4 (nominal_env []))
                  after_example_add))
     = [listed_car]
  /\ In (EvStorageRemove
           [js "cars/3b241101-e2bb-4255-8caf-4136c566a962/image-1700000000000-0.png";
            js "cars/3b241101-e2bb-4255-8caf-4136c566a962/image-1700000000002-2.jpeg"])
        (trace (snd (deleteCar (nominal_env []) (uuidv4 (nominal_env []))
                       after_example_add))).
Proof.
  destruct (addCar_then_deleteCar (nominal_env []) sample_carData example_images
              (world_with [listed_car]))
    as (_ & _ & Hcars & _ & Hin); try reflexivity.
  - intros s [H|[H|[H|[]]]] Hp; inversion H; subst s;
      try (apply existsb_In_44; reflexivity); discriminate Hp.
  - intros q [<-|[<-|[]]]; reflexivity.
  - split; [reflexivity|]. split; [exact Hcars | exact Hin].
Defined.

Lemma find_filter_other id id' l :
  id' <> id ->
  find (has_id id') (filter (fun c => negb (has_id id c)) l)
  = find (has_id id') l.
Proof.
  intros Hne. induction l as [|c l IH]; simpl; [reflexivity|].
  destruct (has_id id c) eqn:Hc; simpl.
  - destruct (has_id id' c) eqn:Hc'; [|exact IH].
    unfold has_id in *. apply str_eqb_eq in Hc, Hc'. congruence.
  - destruct (has_id id' c); [reflexivity | exact IH].
Qed.

(** X11. An authenticated [deleteCar] of an existing car touches that car
    only: every other identifier finds the same row as before, the user
    table is as before, and a second [deleteCar] of the same identifier
    returns the failure [Car not found]. *)
Theorem deleteCar_only_that_car :
  forall (E : env) (id : jsstring) (w : world) (car : Car.t),
    authenticated E w = true ->
    find (has_id id) (cars w) = Some car ->
    let w' := snd (deleteCar E id w) in
    (forall id', id' <> id ->
                 find (has_id id') (cars w') = find (has_id id') (cars w))
    /\ users w' = users w
    /\ fst (deleteCar E id w') = Return (Failure (js "Car not found")).
Proof.
  intros E id w car Hauth Hfind w'.
  destruct (remove_images_returns E (Car.images car)
              (set_cars (filter (fun c => negb (has_id id c)) (cars w))
                 (log (identity_events E ++ [EvCarFindUnique id; EvCarDelete id])
                    w)))
    as (w1 & Hrun & Hcars & Husers).
  pose proof (deleteCar_found E id w car w1 Hauth Hfind Hrun) as Hdel.
  assert (cars w' = filter (fun c => negb (has_id id c)) (cars w)) as Hc
    by (subst w'; rewrite Hdel; cbn [snd]; rewrite cars_log, Hcars; reflexivity).
  assert (users w' = users w) as Hu
    by (subst w'; rewrite Hdel; cbn [snd]; rewrite users_log, Husers; reflexivity).
  split; [|split; [exact Hu|]].
  - intros id' Hne. rewrite Hc. apply find_filter_other. exact Hne.
  - assert (authenticated E w' = true) as Hauth'
      by (unfold authenticated in *; rewrite Hu; exact Hauth).
    unfold deleteCar. erewrite try_catch_Return; [reflexivity|].
    bind_with identity_check_pass. bind_with db_car_findUnique_run.
    rewrite cars_log, Hc, find_filter_negb. reflexivity.
Qed.

Lemma deleteCar_only_that_car_witness :
  find (has_id (js "car-2"))
       (cars (snd (deleteCar (nominal_env []) (js "car-1")
                     (world_with [listed_car;
                                  sample_car (js "car-2") (js "SOLD") true [] 5]))))
  = Some (sample_car (js "car-2") (js "SOLD") true [] 5).
Proof.
  destruct (deleteCar_only_that_car (nominal_env []) (js "car-1")
              (world_with [listed_car;
                           sample_car (js "car-2") (js "SOLD") true [] 5])
              listed_car eq_refl eq_refl) as (Hother & _ & _).
  rewrite (Hother (js "car-2")); [reflexivity | discriminate].
Defined.

Lemma has_id_apply_update id d c : has_id id (apply_update d c) = has_id id c.
Proof.
  unfold apply_update. destruct (upd_status d), (upd_featured d); reflexivity.
Qed.

Lemma find_map_update id id' d l :
  find (has_id id') (map (fun c => if has_id id c then apply_update d c else c) l)
  = match find (has_id id') l with
    | Some c => Some (if has_id id c then apply_update d c else c)
    | None => None
    end.
Proof.
  induction l as [|c l IH]; simpl; [reflexivity|].
  destruct (has_id id c) eqn:Hc.
  - rewrite has_id_apply_update. destruct (has_id id' c); [|exact IH].
    rewrite Hc. reflexivity.
  - destruct (has_id id' c); [|exact IH]. rewrite Hc. reflexivity.
Qed.

Lemma apply_update_twice d c : apply_update d (apply_update d c) = apply_update d c.
Proof.
  unfold apply_update. destruct (upd_status d), (upd_featured d); reflexivity.
Qed.

(** What the update built from the argument does to a row. *)
Lemma apply_update_fields arg c :
  Car.status (apply_update (build_updateData arg) c)
  = match status arg with Some s => s | None => Car.status c end
  /\ Car.featured (apply_update (build_updateData arg) c)
     = match featured arg with Some b => b | None => Car.featured c end
  /\ same_listing (apply_update (build_updateData arg) c) c.
Proof.
  destruct arg as [[s|] [b|]]; (split; [|split]); try reflexivity;
    unfold same_listing; repeat split.
Qed.

(** X12. After an authenticated [updateCarStatus] of an existing car, a
    lookup of that car returns a row whose [status] is the one provided, or
    the old one when none was provided, whose [featured] likewise, and whose
    other fields are those of the old row; every other identifier finds the
    row it found before, and repeating the same call leaves the table as
    the first call left it. *)
Theorem updateCarStatus_then_lookup :
  forall (E : env) (id : jsstring) (arg : statusArg) (w : world) (car : Car.t),
    authenticated E w = true ->
    find (has_id id) (cars w) = Some car ->
    let w' := snd (updateCarStatus E id arg w) in
    fst (updateCarStatus E id arg w) = Return (Success tt)
    /\ (exists car',
           find (has_id id) (cars w') = Some car'
           /\ Car.status car'
              = match status arg with Some s => s | None => Car.status car end
           /\ Car.featured car'
              = match featured arg with Some b => b | None => Car.featured car end
           /\ same_listing car' car)
    /\ (forall id', id' <> id ->
                    find (has_id id') (cars w') = find (has_id id') (cars w))
    /\ cars (snd (updateCarStatus E id arg w')) = cars w'.
Proof.
  intros E id arg w car Hauth Hfind w'.
  assert (existsb (has_id id) (cars w) = true) as Hex
    by (rewrite find_existsb, Hfind; reflexivity).
  pose proof (updateCarStatus_found E id arg w Hauth Hex) as Hrun.
  assert (cars w' = map (fun c => if has_id id c
                                  then apply_update (build_updateData arg) c
                                  else c) (cars w)) as Hc
    by (subst w'; rewrite Hrun; reflexivity).
  assert (has_id id car = true) as Hcar by (apply find_some in Hfind; tauto).
  split; [rewrite Hrun; reflexivity|]. split; [|split].
  - exists (apply_update (build_updateData arg) car).
    split; [|apply apply_update_fields].
    rewrite Hc, find_map_update, Hfind, Hcar. reflexivity.
  - intros id' Hne. rewrite Hc, find_map_update.
    destruct (find (has_id id') (cars w)) as [c|] eqn:Hf; [|reflexivity].
    apply find_some in Hf as [_ Hf].
    destruct (has_id id c) eqn:Hid; [|reflexivity].
    unfold has_id in *. apply str_eqb_eq in Hf, Hid. congruence.
  - assert (authenticated E w' = true) as Hauth'
      by (subst w'; rewrite Hrun; exact Hauth).
    assert (existsb (has_id id) (cars w') = true) as Hex'.
    { rewrite find_existsb, Hc, find_map_update, Hfind. reflexivity. }
    rewrite (updateCarStatus_found E id arg w' Hauth' Hex'). cbn [snd].
    rewrite cars_log, cars_set_cars, Hc, map_map. apply map_ext. intros c.
    destruct (has_id id c) eqn:Hid.
    + rewrite has_id_apply_update, Hid. apply apply_update_twice.
    + rewrite Hid. reflexivity.
Qed.

Lemma updateCarStatus_then_lookup_witness :
  authenticated (nominal_env []) (world_with [listed_car; honda_car]) = true
  /\ find (has_id (js "car-1")) (cars (world_with [listed_car; honda_car]))
     = Some listed_car
  /\ Car.status listed_car = js "AVAILABLE"
  /\ (exists car',
         find (has_id (js "car-1"))
              (cars (snd (updateCarStatus (nominal_env []) (js "car-1")
                            {| status := Some (js "SOLD"); featured := None |}
                            (world_with [listed_car; honda_car]))))
         = Some car'
         /\ Car.status car' = js "SOLD"
         /\ Car.featured car' = false
         /\ same_listing car' listed_car)
  /\ find (has_id (js "car-4"))
          (cars (snd (updateCarStatus (nominal_env []) (js "car-1")
                        {| status := Some (js "SOLD"); featured := None |}
                        (world_with [listed_car; honda_car]))))
     = Some honda_car.
Proof.
  split; [reflexivity|]. split; [reflexivity|]. split; [reflexivity|].
  pose proof (updateCarStatus_then_lookup (nominal_env []) (js "car-1")
                {| status := Some (js "SOLD"); featured := None |}
                (world_with [listed_car; honda_car]) listed_car
                eq_refl eq_refl) as H.
  cbv zeta in H. destruct H as (_ & Hlookup & Hothers & _).
  split; [exact Hlookup|].
  rewrite (Hothers (js "car-4")) by discriminate. reflexivity.
Defined.

(** X13. An authenticated [updateCarStatus] of an identifier that no row
    carries returns a tagged failure with the store's message, writes it to
    the error console, leaves the table as it was and does not signal the
    cache. *)
Theorem updateCarStatus_unknown_car :
  forall (E : env) (id : jsstring) (arg : statusArg) (w : world),
    authenticated E w = true ->
    find (has_id id) (cars w) = None ->
    exists evs,
      updateCarStatus E id arg w
      = (Return (Failure (message record_not_found)), log evs w)
      /\ In (EvConsole console_error_
               [LogString (js "Error updating car status:");
                LogError record_not_found]) evs
      /\ ~ In (EvRevalidatePath (js "/admin/cars")) evs.
Proof.
  intros E id arg w Hauth Hfind.
  assert (existsb (has_id id) (cars w) = false) as Hex
    by (rewrite find_existsb, Hfind; reflexivity).
  eexists. split; [exact (updateCarStatus_missing E id arg w Hauth Hex)|].
  split.
  - apply in_or_app. right. right. left. reflexivity.
  - intros Hin. apply in_app_or in Hin as [Hin|Hin]; simpl in Hin;
      repeat destruct Hin as [Hin|Hin]; try discriminate Hin; contradiction.
Qed.

Lemma updateCarStatus_unknown_car_witness :
  fst (updateCarStatus (nominal_env []) (js "car-9")
         {| status := Some (js "SOLD"); featured := None |}
         (world_with [listed_car]))
  = Return (Failure (message record_not_found)).
Proof.
  destruct (updateCarStatus_unknown_car (nominal_env []) (js "car-9")
              {| status := Some (js "SOLD"); featured := None |}
              (world_with [listed_car]) eq_refl eq_refl) as (evs & Hrun & _).
  rewrite Hrun. reflexivity.
Defined.

(** X14. [getFeaturedCars(limit)] returns exactly
    [min(limit, number of featured available cars)] rows, and they are the
    newest ones: the rows returned together with the featured available
    rows left out are the featured available rows of the table, and no row
    left out is newer than a row returned. *)
Theorem getFeaturedCars_newest :
  forall (serialized : Type) (serializeCarData : Car.t -> serialized)
         (limit : option nat) (w : world),
    exists rows rest,
      fst (getFeaturedCars serialized serializeCarData limit w)
      = Return (map serializeCarData rows)
      /\ Permutation (rows ++ rest) (filter featured_available (cars w))
      /\ length rows
         = Nat.min (match limit with Some n => n | None => 3%nat end)
                   (length (filter featured_available (cars w)))
      /\ (forall a b, In a rows -> In b rest -> newer_or_same a b).
Proof.
  intros serialized serializeCarData limit w.
  set (n := match limit with Some n => n | None => 3%nat end).
  set (sorted := orderBy_createdAt_desc (filter featured_available (cars w))).
  exists (firstn n sorted), (skipn n sorted).
  split; [reflexivity|]. split; [|split].
  - rewrite firstn_skipn. apply orderBy_perm.
  - rewrite length_firstn. subst sorted.
    rewrite (Permutation_length (orderBy_perm _)). reflexivity.
  - apply sorted_app_cross. rewrite firstn_skipn. apply orderBy_sorted.
Qed.

(* ===================================================================== *)
(** * Further properties: the extractors *)
(* ===================================================================== *)

(** X15. Without a configured [GEMINI_API_KEY] (unset or empty) neither
    extractor calls the AI provider: the full-listing extractor throws
    [Gemini API error:Gemini API key is not configured] before any call,
    the search-hint extractor throws after the admission check at most. *)
Theorem extractors_need_key :
  forall (E : env) (file : File) (w : world),
    truthy (GEMINI_API_KEY E) = false ->
    processCarImageWithAI E file w
    = (Throw (new_Error (js "Gemini API error:Gemini API key is not configured")),
       log [EvConsole console_error_ []] w)
    /\ exists evs,
        processImageSearch E file w
        = (Throw (new_Error (js "AI search error:")), log evs w)
        /\ existsb is_provider_call evs = false.
Proof.
  intros E file w Hkey. split.
  - unfold processCarImageWithAI. rewrite Hkey. reflexivity.
  - unfold processImageSearch, protect. rewrite Hkey.
    destruct (aj_protect E) as [|[remaining reset|]];
      unfold try_catch, bind, console, emit, ret, throw;
      rewrite ?log_log; eexists; split; reflexivity.
Qed.

Lemma extractors_need_key_witness :
  truthy (GEMINI_API_KEY (with_key (Some []) (nominal_env []))) = false
  /\ fst (processCarImageWithAI (with_key (Some []) (nominal_env [])) sample_file
            (world_with []))
     = Throw (new_Error (js "Gemini API error:Gemini API key is not configured")).
Proof.
  split; [reflexivity|].
  rewrite (proj1 (extractors_need_key (with_key (Some []) (nominal_env []))
                    sample_file (world_with []) eq_refl)).
  reflexivity.
Defined.

Lemma processCarImageWithAI_fst E file w text :
  truthy (GEMINI_API_KEY E) = true ->
  generateContent E (imagePart_of file) FullListingPrompt = Return text ->
  fst (processCarImageWithAI E file w)
  = match JSON_parse E (strip_fences text) with
    | Return v =>
        Return (if complete v then Success v
                else Failure (js "Failed to parse AI response"))
    | Throw _ => Return (Failure (js "Failed to parse AI response"))
    end.
Proof.
  intros Hkey Hgen. destruct (JSON_parse E (strip_fences text)) as [v|e] eqn:Hp.
  - destruct (processCarImageWithAI_parsed E file w text v Hkey Hgen Hp)
      as (evs & ->). reflexivity.
  - rewrite (processCarImageWithAI_not_json E file w text e Hkey Hgen Hp).
    reflexivity.
Qed.

(** X16. Once the provider has answered, the full-listing extractor never
    throws, and its result is decided by the cleaned text alone: success
    with the parsed value when it parses to an object that has all eleven
    required keys, the failure [Failed to parse AI response] in every other
    case (no JSON, a JSON value that is no object, an object lacking a
    key). *)
Theorem processCarImageWithAI_outcome :
  forall (E : env) (file : File) (w : world) (text : jsstring),
    truthy (GEMINI_API_KEY E) = true ->
    generateContent E (imagePart_of file) FullListingPrompt = Return text ->
    fst (processCarImageWithAI E file w)
    = match JSON_parse E (strip_fences text) with
      | Return (JObject members) =>
          match missing_fields members with
          | [] => Return (Success (JObject members))
          | _ :: _ => Return (Failure (js "Failed to parse AI response"))
          end
      | _ => Return (Failure (js "Failed to parse AI response"))
      end.
Proof.
  intros E file w text Hkey Hgen.
  rewrite (processCarImageWithAI_fst E file w text Hkey Hgen).
  destruct (JSON_parse E (strip_fences text)) as [[| | | | |members]|e];
    try reflexivity.
  unfold complete. destruct (missing_fields members); reflexivity.
Qed.

Lemma processCarImageWithAI_outcome_witness :
  exists members,
    fst (processCarImageWithAI (nominal_env complete_response) sample_file
           (world_with []))
    = Return (Success (JObject members))
    /\ map fst members = requiredFields.
Proof.
  pose proof (processCarImageWithAI_outcome (nominal_env complete_response)
                sample_file (world_with []) complete_response
                eq_refl eq_refl) as H.
  eexists. rewrite H. split; [vm_compute; reflexivity | reflexivity].
Defined.

(** X17. A response wrapped in a fenced block, with or without the [json]
    tag, gives the caller the same result as the cleaned response itself:
    two environments that only differ in that wrapping cannot be told apart
    by the result of the full-listing extractor. *)
Theorem fenced_response_same_result :
  forall (E : env) (file : File) (w : world) (text tag : jsstring),
    truthy (GEMINI_API_KEY E) = true ->
    tag = [] \/ tag = js "json" ->
    fst (processCarImageWithAI
           (with_response (Return (fenced tag (strip_fences text))) E) file w)
    = fst (processCarImageWithAI (with_response (Return text) E) file w).
Proof.
  intros E file w text tag Hkey Htag.
  rewrite (processCarImageWithAI_fst _ file w (fenced tag (strip_fences text)))
    by (try exact Hkey; reflexivity).
  rewrite (processCarImageWithAI_fst _ file w text)
    by (try exact Hkey; reflexivity).
  rewrite strip_fences_fenced;
    [reflexivity | exact Htag | apply strip_fences_no_fence | apply trim_idempotent].
Qed.

Lemma fenced_response_same_result_witness :
  fst (processCarImageWithAI
         (with_response (Return (fenced (js "json") (strip_fences complete_response)))
                        (nominal_env []))
         sample_file (world_with []))
  = fst (processCarImageWithAI (with_response (Return complete_response)
                                              (nominal_env []))
           sample_file (world_with [])).
Proof.
  apply (fenced_response_same_result (nominal_env []) sample_file (world_with [])
           complete_response (js "json"));
    [reflexivity | right; reflexivity].
Defined.

(** X18. The search-hint extractor checks no key of the response: when the
    admission check allows the request and the cleaned text parses, it
    returns success with the parsed value whatever that value is, be it a
    number or an empty object. *)
Theorem processImageSearch_any_json :
  forall (E : env) (file : File) (w : world) (text : jsstring) (v : json),
    aj_protect E = Allowed ->
    truthy (GEMINI_API_KEY E) = true ->
    generateContent E (imagePart_of file) SearchHintPrompt = Return text ->
    JSON_parse E (strip_fences text) = Return v ->
    processImageSearch E file w
    = (Return (Success v),
       log [EvProtect; EvGenerateContent (imagePart_of file) SearchHintPrompt] w).
Proof.
  intros E file w text v Hallow Hkey Hgen Hparse.
  unfold processImageSearch, protect. rewrite Hkey, Hallow. cbn [negb].
  unfold try_catch at 1. unfold bind at 1. unfold bind at 1.
  unfold emit at 1. unfold ret at 1. unfold bind at 1. unfold ret at 1.
  unfold bind at 1.
  rewrite model_generateContent_run, Hgen.
  unfold try_catch at 1. unfold bind at 1. unfold lift at 1. rewrite Hparse.
  unfold ret. rewrite log_log. reflexivity.
Qed.

Lemma processImageSearch_any_json_witness :
  fst (processImageSearch (nominal_env (js "5")) sample_file (world_with []))
  = Return (Success (JNumber 5 1)).
Proof.
  rewrite (processImageSearch_any_json (nominal_env (js "5")) sample_file
             (world_with []) (js "5") (JNumber 5 1)); reflexivity.
Defined.

Lemma try_catch_throws_constant {A} (m : M A) (c : Error) w e :
  fst (try_catch m (fun _ => throw c) w) = Throw e -> e = c.
Proof.
  unfold try_catch, throw. destruct (m w) as [[a|e'] w']; simpl; congruence.
Qed.

(** X19. Whatever goes wrong in the search-hint extractor, the caller gets
    one and the same error, [AI search error:], without the message of the
    cause: a denial for rate limiting, a denial for another reason, a
    missing key and a provider failure cannot be told apart. A denial for
    another reason is thrown right after the admission check, with nothing
    written to the console and no call to the provider. *)
Theorem search_errors_indistinguishable :
  forall (E : env) (file : File) (w : world),
    (forall e, fst (processImageSearch E file w) = Throw e ->
               e = new_Error (js "AI search error:"))
    /\ (aj_protect E = Denied OtherReason ->
        processImageSearch E file w
        = (Throw (new_Error (js "AI search error:")), log [EvProtect] w)).
Proof.
  intros E file w. split.
  - intros e H. unfold processImageSearch in H.
    exact (try_catch_throws_constant _ _ _ _ H).
  - intros H. unfold processImageSearch, protect. rewrite H. reflexivity.
Qed.

Lemma search_errors_indistinguishable_witness :
  aj_protect (with_protect (Denied OtherReason) (nominal_env [])) = Denied OtherReason
  /\ processImageSearch (with_protect (Denied OtherReason) (nominal_env []))
                        sample_file (world_with [])
     = (Throw (new_Error (js "AI search error:")), log [EvProtect] (world_with [])).
Proof.
  split; [reflexivity|].
  apply (proj2 (search_errors_indistinguishable
                  (with_protect (Denied OtherReason) (nominal_env []))
                  sample_file (world_with []))).
  reflexivity.
Defined.

(** X20. A failure of the AI provider reaches the caller as a thrown
    error, never as a tagged result. The full-listing extractor keeps the
    provider's message behind [Gemini API error:]; the search-hint
    extractor throws the bare [AI search error:]. *)
Theorem provider_failure_is_thrown :
  forall (E : env) (file : File) (w : world) (e : Error),
    truthy (GEMINI_API_KEY E) = true ->
    (generateContent E (imagePart_of file) FullListingPrompt = Throw e ->
     processCarImageWithAI E file w
     = (Throw (new_Error (js "Gemini API error:" +++ message e)),
        log [EvGenerateContent (imagePart_of file) FullListingPrompt;
             EvConsole console_error_ []] w))
    /\ (aj_protect E = Allowed ->
        generateContent E (imagePart_of file) SearchHintPrompt = Throw e ->
        processImageSearch E file w
        = (Throw (new_Error (js "AI search error:")),
           log [EvProtect; EvGenerateContent (imagePart_of file) SearchHintPrompt]
             w)).
Proof.
  intros E file w e Hkey. split.
  - intros Hgen. unfold processCarImageWithAI. rewrite Hkey. cbn [negb].
    unfold try_catch at 1. unfold bind at 1.
    rewrite model_generateContent_run, Hgen.
    unfold console, bind, emit, throw. rewrite log_log. reflexivity.
  - intros Hallow Hgen. unfold processImageSearch, protect.
    rewrite Hkey, Hallow. cbn [negb].
    unfold try_catch at 1. unfold bind at 1. unfold bind at 1.
    unfold emit at 1. unfold ret at 1. unfold bind at 1. unfold ret at 1.
    unfold bind at 1.
    rewrite model_generateContent_run, Hgen. rewrite log_log. reflexivity.
Qed.

Lemma provider_failure_is_thrown_witness :
  fst (processCarImageWithAI
         (with_response (Throw (new_Error (js "503 Service Unavailable")))
                        (nominal_env []))
         sample_file (world_with []))
  = Throw (new_Error (js "Gemini API error:503 Service Unavailable")).
Proof.
  rewrite (proj1 (provider_failure_is_thrown
                    (with_response (Throw (new_Error (js "503 Service Unavailable")))
                                   (nominal_env []))
                    sample_file (world_with [])
                    (new_Error (js "503 Service Unavailable")) eq_refl) eq_refl).
  reflexivity.
Defined.

(** X21. The text handed to [JSON.parse] holds no triple backtick and
    neither begins nor ends with white space; a response without a triple
    backtick is only trimmed. *)
Theorem cleaned_text_shape :
  forall text : jsstring,
    includes (strip_fences text) fence = false
    /\ no_leading_space (strip_fences text)
    /\ no_leading_space (rev (strip_fences text))
    /\ (includes text fence = false -> strip_fences text = trim text).
Proof.
  intros text. split; [apply strip_fences_no_fence|].
  split; [apply trim_no_leading_space|].
  split; [apply trim_no_trailing_space|].
  intros H. unfold strip_fences. rewrite (replace_fences_fixed _ H). reflexivity.
Qed.

Lemma cleaned_text_shape_witness :
  includes (js "  [1, 2]  ") fence = false
  /\ strip_fences (js "  [1, 2]  ") = js "[1, 2]".
Proof.
  split; [reflexivity|].
  rewrite (proj2 (proj2 (proj2 (cleaned_text_shape (js "  [1, 2]  ")))) eq_refl).
  reflexivity.
Defined.

(* ===================================================================== *)
(** * Further properties: the transport encoding of the image *)
(* ===================================================================== *)

Lemma byte_values_In a : a < 256 -> In a byte_values.
Proof.
  intros H. unfold byte_values. apply in_map_iff. exists (N.to_nat a).
  split; [apply N2Nat.id|]. apply in_seq. lia.
Qed.

Lemma for_all_bytes (P : N -> bool) :
  forallb P byte_values = true -> forall a, a < 256 -> P a = true.
Proof.
  intros H a Ha. rewrite forallb_forall in H. apply H, byte_values_In, Ha.
Qed.

Lemma for_all_byte_pairs (P : N -> N -> bool) :
  forallb (fun a => forallb (P a) byte_values) byte_values = true ->
  forall a b, a < 256 -> b < 256 -> P a b = true.
Proof.
  intros H a b Ha Hb.
  apply (for_all_bytes (P a)); [|exact Hb].
  exact (for_all_bytes (fun a => forallb (P a) byte_values) H a Ha).
Qed.

Lemma b64_digit_not_pad n : (b64_digit n =? 61) = false.
Proof.
  unfold b64_digit. apply N.eqb_neq.
  destruct (N.ltb_spec n 26); [lia|].
  destruct (N.ltb_spec n 52); [lia|].
  destruct (N.ltb_spec n 62); [lia|].
  destruct (N.eqb_spec n 62); lia.
Qed.

Lemma first_byte a b :
  a < 256 -> b < 256 ->
  b64_index (b64_digit (N.shiftr a 2)) * 4
  + b64_index (b64_digit (N.lor (N.shiftl (N.land a 3) 4) (N.shiftr b 4))) / 16
  = a.
Proof.
  intros Ha Hb. apply N.eqb_eq.
  apply (for_all_byte_pairs
           (fun a b =>
              b64_index (b64_digit (N.shiftr a 2)) * 4
              + b64_index (b64_digit (N.lor (N.shiftl (N.land a 3) 4)
                                            (N.shiftr b 4))) / 16 =? a));
    [vm_compute; reflexivity | exact Ha | exact Hb].
Qed.

Lemma second_byte_high a b :
  a < 256 -> b < 256 ->
  b64_index (b64_digit (N.lor (N.shiftl (N.land a 3) 4) (N.shiftr b 4))) mod 16
  = b / 16.
Proof.
  intros Ha Hb. apply N.eqb_eq.
  apply (for_all_byte_pairs
           (fun a b =>
              b64_index (b64_digit (N.lor (N.shiftl (N.land a 3) 4)
                                          (N.shiftr b 4))) mod 16 =? b / 16));
    [vm_compute; reflexivity | exact Ha | exact Hb].
Qed.

Lemma third_digit b c :
  b < 256 -> c < 256 ->
  b64_index (b64_digit (N.lor (N.shiftl (N.land b 15) 2) (N.shiftr c 6))) / 4
  = b mod 16
  /\ b64_index (b64_digit (N.lor (N.shiftl (N.land b 15) 2) (N.shiftr c 6))) mod 4
     = c / 64.
Proof.
  intros Hb Hc. split; apply N.eqb_eq.
  - apply (for_all_byte_pairs
             (fun b c =>
                b64_index (b64_digit (N.lor (N.shiftl (N.land b 15) 2)
                                            (N.shiftr c 6))) / 4 =? b mod 16));
      [vm_compute; reflexivity | exact Hb | exact Hc].
  - apply (for_all_byte_pairs
             (fun b c =>
                b64_index (b64_digit (N.lor (N.shiftl (N.land b 15) 2)
                                            (N.shiftr c 6))) mod 4 =? c / 64));
      [vm_compute; reflexivity | exact Hb | exact Hc].
Qed.

Lemma fourth_digit c :
  c < 256 -> b64_index (b64_digit (N.land c 63)) = c mod 64.
Proof.
  intros Hc. apply N.eqb_eq.
  apply (for_all_bytes
           (fun c => b64_index (b64_digit (N.land c 63)) =? c mod 64));
    [vm_compute; reflexivity | exact Hc].
Qed.

Lemma single_byte a :
  a < 256 ->
  b64_index (b64_digit (N.shiftr a 2)) * 4
  + b64_index (b64_digit (N.shiftl (N.land a 3) 4)) / 16 = a.
Proof.
  intros Ha. apply N.eqb_eq.
  apply (for_all_bytes
           (fun a => b64_index (b64_digit (N.shiftr a 2)) * 4
                     + b64_index (b64_digit (N.shiftl (N.land a 3) 4)) / 16 =? a));
    [vm_compute; reflexivity | exact Ha].
Qed.

Lemma last_of_two b :
  b < 256 -> b64_index (b64_digit (N.shiftl (N.land b 15) 2)) / 4 = b mod 16.
Proof.
  intros Hb. apply N.eqb_eq.
  apply (for_all_bytes
           (fun b => b64_index (b64_digit (N.shiftl (N.land b 15) 2)) / 4
                     =? b mod 16));
    [vm_compute; reflexivity | exact Hb].
Qed.

Lemma join_halves b : b / 16 * 16 + b mod 16 = b.
Proof. rewrite N.mul_comm. symmetry. apply N.div_mod. discriminate. Qed.

Lemma join_quarters c : c / 64 * 64 + c mod 64 = c.
Proof. rewrite N.mul_comm. symmetry. apply N.div_mod. discriminate. Qed.

(** Decoding undoes the encoding, three bytes at a time. *)
Lemma base64_bytes_toString n :
  forall bytes,
    (length bytes <= n)%nat ->
    Forall (fun b => b < 256) bytes ->
    base64_bytes (toString_base64 bytes) = bytes
    /\ length (toString_base64 bytes) = (4 * ((length bytes + 2) / 3))%nat.
Proof.
  induction n as [|n IH]; intros bytes Hlen Hb.
  - destruct bytes; [split; reflexivity | simpl in Hlen; lia].
  - destruct bytes as [|a [|b [|c rest]]].
    + split; reflexivity.
    + inversion Hb as [|? ? Ha _]; subst. split; [|reflexivity].
      cbn [toString_base64 base64_bytes]. rewrite N.eqb_refl.
      rewrite (single_byte a Ha). reflexivity.
    + inversion Hb as [|? ? Ha Hb']; subst.
      inversion Hb' as [|? ? Hb0 _]; subst. split; [|reflexivity].
      cbn [toString_base64 base64_bytes].
      rewrite b64_digit_not_pad, N.eqb_refl, (first_byte a b Ha Hb0),
        (second_byte_high a b Ha Hb0), (last_of_two b Hb0), join_halves.
      reflexivity.
    + inversion Hb as [|? ? Ha Hb']; subst.
      inversion Hb' as [|? ? Hb0 Hb'']; subst.
      inversion Hb'' as [|? ? Hc Hrest]; subst.
      destruct (IH rest) as [Hdec Hl]; [simpl in Hlen; lia | exact Hrest|].
      destruct (third_digit b c Hb0 Hc) as [H3 H4].
      split.
      * cbn [toString_base64 base64_bytes].
        rewrite !b64_digit_not_pad, (first_byte a b Ha Hb0),
          (second_byte_high a b Ha Hb0), H3, H4, (fourth_digit c Hc),
          join_halves, join_quarters, Hdec.
        reflexivity.
      * cbn [toString_base64 length]. rewrite Hl.
        replace (S (S (S (length rest))) + 2)%nat
          with (length rest + 2 + 1 * 3)%nat by lia.
        rewrite Nat.div_add by discriminate. lia.
Qed.

(** X22. [fileToBase64] loses nothing: two files whose encodings agree
    have the same bytes, because the bytes can be read back from the text;
    and the text of an [n]-byte file has [4 * ceil(n / 3)] characters. *)
Theorem fileToBase64_faithful :
  forall file : File,
    Forall (fun b => b < 256) (arrayBuffer file) ->
    base64_bytes (fileToBase64 file) = arrayBuffer file
    /\ length (fileToBase64 file)
       = (4 * ((length (arrayBuffer file) + 2) / 3))%nat
    /\ (forall file' : File,
           Forall (fun b => b < 256) (arrayBuffer file') ->
           fileToBase64 file = fileToBase64 file' ->
           arrayBuffer file = arrayBuffer file').
Proof.
  intros file Hb. unfold fileToBase64.
  destruct (base64_bytes_toString _ _ (le_n _) Hb) as [Hdec Hlen].
  split; [exact Hdec|]. split; [exact Hlen|].
  intros file' Hb' Heq.
  destruct (base64_bytes_toString _ _ (le_n _) Hb') as [Hdec' _].
  rewrite <- Hdec, <- Hdec', Heq. reflexivity.
Qed.

Lemma fileToBase64_faithful_witness :
  Forall (fun b => b < 256) (arrayBuffer sample_file)
  /\ fileToBase64 sample_file = js "/9j/4A=="
  /\ base64_bytes (fileToBase64 sample_file) = [255; 216; 255; 224].
Proof.
  assert (Forall (fun b => b < 256) (arrayBuffer sample_file)) as H
    by (repeat constructor).
  split; [exact H|]. split; [reflexivity|].
  exact (proj1 (fileToBase64_faithful sample_file H)).
Defined.

(* ===================================================================== *)
(** * Further properties: a car without stored images *)
(* ===================================================================== *)

Lemma map_M_storage_path_none E images w :
  (forall u, In u images ->
             exists p, URL_pathname E u = Return p /\ car_images_match p = None) ->
  map_M (storage_path E) images w = (Return (map (fun _ => None) images), w).
Proof.
  induction images as [|u images IH]; intros H; [reflexivity|].
  simpl. unfold bind at 1. unfold storage_path at 1. unfold bind at 1, lift.
  destruct (H u (or_introl eq_refl)) as (p & Hp & Hm). rewrite Hp.
  unfold ret at 1. rewrite Hm. unfold bind at 1.
  rewrite IH by (intros v Hv; apply H; right; exact Hv). reflexivity.
Qed.

Lemma filter_Boolean_none {A} (l : list A) :
  filter_Boolean (map (fun _ => None) l) = [].
Proof. induction l as [|a l IH]; [reflexivity | exact IH]. Qed.

(** X23. When no image URL of the car holds a [/car-images/] path (in
    particular when the car has no image), an authenticated [deleteCar]
    deletes the row and succeeds without asking the storage to remove
    anything. *)
Theorem deleteCar_nothing_to_remove :
  forall (E : env) (id : jsstring) (w : world) (car : Car.t),
    authenticated E w = true ->
    find (has_id id) (cars w) = Some car ->
    (forall u, In u (Car.images car) ->
               exists p, URL_pathname E u = Return p /\ car_images_match p = None) ->
    exists evs,
      fst (deleteCar E id w) = Return (Success tt)
      /\ trace (snd (deleteCar E id w)) = trace w ++ evs
      /\ In (EvCarDelete id) evs
      /\ existsb is_removal evs = false.
Proof.
  intros E id w car Hauth Hfind Hnone.
  set (W := set_cars (filter (fun c => negb (has_id id c)) (cars w))
              (log (identity_events E ++ [EvCarFindUnique id; EvCarDelete id]) w)).
  assert (exists evs, remove_images E (Car.images car) W = (Return tt, log evs W)
                      /\ existsb is_removal evs = false) as (evs & Hrun & Hevs).
  { unfold remove_images, supabase_createClient, console, try_catch, bind, emit,
      lift.
    destruct (createClient E) as [[]|e]; simpl.
    - rewrite (map_M_storage_path_none E _ _ Hnone), filter_Boolean_none.
      eexists. split; reflexivity.
    - rewrite log_log. eexists. split; reflexivity. }
  pose proof (deleteCar_found E id w car _ Hauth Hfind Hrun) as Hdel.
  exists (identity_events E ++ [EvCarFindUnique id; EvCarDelete id] ++ evs
          ++ [EvRevalidatePath (js "/admin/cars")]).
  rewrite Hdel. split; [reflexivity|]. split; [|split].
  - cbn [snd]. subst W. autorewrite with world.
    rewrite <- !app_assoc. reflexivity.
  - apply in_or_app. right. right. left. reflexivity.
  - rewrite !existsb_app, Hevs. reflexivity.
Qed.

Lemma deleteCar_nothing_to_remove_witness :
  authenticated (nominal_env []) (world_with [listed_car; unstored_car]) = true
  /\ find (has_id (js "car-5")) (cars (world_with [listed_car; unstored_car]))
     = Some unstored_car
  /\ map (URL_pathname (nominal_env [])) (Car.images unstored_car)
     = [Return (js "/a.png"); Return (js "/photos/car.jpg")]
  /\ exists evs,
      fst (deleteCar (nominal_env []) (js "car-5")
             (world_with [listed_car; unstored_car]))
      = Return (Success tt)
      /\ trace (snd (deleteCar (nominal_env []) (js "car-5")
                       (world_with [listed_car; unstored_car])))
         = trace (world_with [listed_car; unstored_car]) ++ evs
      /\ In (EvCarDelete (js "car-5")) evs
      /\ existsb is_removal evs = false.
Proof.
  split; [reflexivity|]. split; [reflexivity|]. split; [reflexivity|].
  apply (deleteCar_nothing_to_remove (nominal_env []) (js "car-5")
           (world_with [listed_car; unstored_car]) unstored_car);
    try reflexivity.
  intros u [<-|[<-|[]]]; eexists; split; reflexivity.
Defined.

(* ===================================================================== *)
(** * Further properties: the tagged-result convention *)
(* ===================================================================== *)


